(** * balena-cli: the compose build-and-deploy pipeline

    A shallow embedding of [lib/utils/compose.js] (tar packaging aside) and
    [lib/utils/qemu.ts], followed by the properties the design document
    states about them.

    Conventions of the embedding.
    - A JavaScript string is a [string]: a sequence of code units, here
      restricted to the 8-bit range U+0000..U+00FF.
    - A JavaScript number is an integer [Z], with [VNaN] and [VInfinity] for
      the two special values the code can produce.  Integer arithmetic on
      doubles is exact below 2^53; the theorems that depend on it say so.
    - A plain JavaScript object is a finite map from property names to
      values ([gmap string jsval]).  Objects that the code mutates through
      several references live in an explicit store.
    - Promises are run to completion: a computation either returns a value
      or throws ([res]), and it threads the state of the outside world.
      [Promise.map] starts every element's chain; the model runs the chains
      one after the other, each to its end, and rejects when one rejected.
      A mapper that throws is not called for the elements that follow.
    - Everything the outside world decides (the network, the Docker daemon,
      the backend, the clock, the failures of the file system) is a field
      of an environment record. *)

From Stdlib Require Import ZArith String Ascii List Lia QArith.
From Stdlib Require Import DecimalString.
From stdpp Require Import base option gmap strings list.

#[local] Set Warnings "-register-all".
#[local] Open Scope string_scope.
#[local] Open Scope Z_scope.

(** ** Results of fallible computations *)

Inductive res (A : Type) : Type :=
| Ok (a : A)
| Throw (e : string).
Arguments Ok {A} a.
Arguments Throw {A} e.

Definition is_ok {A} (r : res A) : bool :=
  match r with Ok _ => true | Throw _ => false end.

(** A computation over a world [W]: it returns or throws, and always hands
    the world on (what a rejected promise did before rejecting stays done). *)
Definition M (W A : Type) : Type := W -> res A * W.

Definition ret {W A} (a : A) : M W A := fun w => (Ok a, w).
Definition throw {W A} (e : string) : M W A := fun w => (Throw e, w).
Definition bind {W A B} (m : M W A) (k : A -> M W B) : M W B :=
  fun w => match m w with
           | (Ok a, w') => k a w'
           | (Throw e, w') => (Throw e, w')
           end.
Definition modify {W} (f : W -> W) : M W unit := fun w => (Ok tt, f w).
Definition gets {W A} (f : W -> A) : M W A := fun w => (Ok (f w), w).
Definition lift {W A} (r : res A) : M W A := fun w => (r, w).

(** [p.catch(h)] *)
Definition catch {W A} (m : M W A) (h : string -> M W A) : M W A :=
  fun w => match m w with
           | (Ok a, w') => (Ok a, w')
           | (Throw e, w') => h e w'
           end.

(** [p.tapCatch(h)]: the handler runs on rejection; the original error is
    rethrown unless the handler itself throws. *)
Definition tapCatch {W A} (m : M W A) (h : string -> M W unit) : M W A :=
  fun w => match m w with
           | (Ok a, w') => (Ok a, w')
           | (Throw e, w') =>
               match h e w' with
               | (Ok _, w'') => (Throw e, w'')
               | (Throw e', w'') => (Throw e', w'')
               end
           end.

(** [p.finally(h)]: the handler runs on both outcomes; the outcome of [p]
    stands unless the handler throws. *)
Definition finally {W A} (m : M W A) (h : M W unit) : M W A :=
  fun w => match m w with
           | (r, w') =>
               match h w' with
               | (Ok _, w'') => (r, w'')
               | (Throw e', w'') => (Throw e', w'')
               end
           end.

(** [p.tap(h)] *)
Definition tap {W A} (m : M W A) (h : A -> M W unit) : M W A :=
  bind m (fun a => bind (h a) (fun _ => ret a)).

Declare Scope m_scope.
Delimit Scope m_scope with M.
Notation "x <- c1 ;; c2" := (bind c1 (fun x => c2))
  (at level 100, c1 at next level, right associativity) : m_scope.
Notation "c1 ;;; c2" := (bind c1 (fun _ => c2))
  (at level 100, right associativity) : m_scope.

(** ** JavaScript values and strings *)

Module JS.

Inductive jsval : Type :=
| VUndefined
| VNull
| VBool (b : bool)
| VNum (z : Z)
| VNaN
| VInfinity
| VStr (s : string)
| VDate (ms : Z)
| VObj (m : gmap string jsval).

(** [x == null] *)
Definition isNullish (v : jsval) : bool :=
  match v with VUndefined | VNull => true | _ => false end.

(** ToBoolean *)
Definition truthy (v : jsval) : bool :=
  match v with
  | VUndefined | VNull | VNaN => false
  | VBool b => b
  | VNum z => negb (z =? 0)
  | VStr s => negb (String.eqb s "")
  | VInfinity | VDate _ | VObj _ => true
  end.

Definition showZ (z : Z) : string := NilZero.string_of_int (Z.to_int z).

(** ToString, as a template literal applies it.  A date prints through the
    host's locale; the model prints its epoch value. *)
Definition toString (v : jsval) : string :=
  match v with
  | VUndefined => "undefined"
  | VNull => "null"
  | VBool true => "true"
  | VBool false => "false"
  | VNum z => showZ z
  | VNaN => "NaN"
  | VInfinity => "Infinity"
  | VStr s => s
  | VDate ms => showZ ms
  | VObj _ => "[object Object]"
  end.

(** Reading a property.  [undefined.p] and [null.p] throw a TypeError; a
    primitive has none of the properties the pipeline reads. *)
Definition getProp (v : jsval) (p : string) : res jsval :=
  match v with
  | VUndefined | VNull => Throw ("TypeError: Cannot read property '" +:+ p +:+ "'")
  | VObj m => Ok (default VUndefined (m !! p))
  | _ => Ok VUndefined
  end.

(** [o[p]] for an object known to be one. *)
Definition field (m : gmap string jsval) (p : string) : jsval :=
  default VUndefined (m !! p).

(** The own properties of a value that is neither [undefined] nor [null]:
    those of an object, none (of interest) for a primitive. *)
Definition props (v : jsval) : gmap string jsval :=
  match v with VObj m => m | _ => ∅ end.

(** *** Strings *)

Definition newline : ascii := ascii_of_nat 10.

Fixpoint take (n : nat) (s : string) : string :=
  match n, s with
  | S n', String c r => String c (take n' r)
  | _, _ => ""
  end.

Fixpoint drop (n : nat) (s : string) : string :=
  match n, s with
  | S n', String _ r => drop n' r
  | _, _ => s
  end.

Definition strlen (s : string) : Z := Z.of_nat (String.length s).

(** The index arithmetic of [String.prototype.slice]: a negative index
    counts from the end, and both ends are clamped to the string. *)
Definition clampIndex (len i : Z) : Z :=
  if i <? 0 then Z.max (len + i) 0 else Z.min i len.

Definition slice (s : string) (b e : Z) : string :=
  let len := strlen s in
  let from := clampIndex len b in
  let to := clampIndex len e in
  take (Z.to_nat (Z.max (to - from) 0)) (drop (Z.to_nat from) s).

(** [s.lastIndexOf(c)] for a one-character needle: the greatest index
    holding [c], or [-1]. *)
Fixpoint lastIndexOfFrom (c : ascii) (s : string) (i : Z) : Z :=
  match s with
  | "" => -1
  | String a r =>
      let j := lastIndexOfFrom c r (i + 1) in
      if 0 <=? j then j else if Ascii.eqb a c then i else -1
  end.

Definition lastIndexOf (s : string) (c : ascii) : Z := lastIndexOfFrom c s 0.

Fixpoint charAt (s : string) (n : nat) : option ascii :=
  match s, n with
  | "", _ => None
  | String a _, O => Some a
  | String _ r, S n' => charAt r n'
  end.

Fixpoint repeatChar (c : ascii) (n : nat) : string :=
  match n with
  | O => ""
  | S n' => String c (repeatChar c n')
  end.

Fixpoint startsWith (p s : string) : bool :=
  match p, s with
  | "", _ => true
  | String a p', String b s' => Ascii.eqb a b && startsWith p' s'
  | _, _ => false
  end.

Fixpoint stripPrefix (p s : string) : option string :=
  match p, s with
  | "", _ => Some s
  | String a p', String b s' => if Ascii.eqb a b then stripPrefix p' s' else None
  | _, _ => None
  end.

Fixpoint takeWhile (f : ascii -> bool) (s : string) : string :=
  match s with
  | "" => ""
  | String a r => if f a then String a (takeWhile f r) else ""
  end.

Fixpoint dropWhile (f : ascii -> bool) (s : string) : string :=
  match s with
  | "" => ""
  | String a r => if f a then dropWhile f r else s
  end.

Fixpoint allChars (f : ascii -> bool) (s : string) : bool :=
  match s with
  | "" => true
  | String a r => f a && allChars f r
  end.

Definition code (c : ascii) : Z := Z.of_nat (nat_of_ascii c).

(** [\s] within U+0000..U+00FF: TAB, LF, VT, FF, CR, SPACE, NBSP. *)
Definition isSpace (c : ascii) : bool :=
  let n := code c in
  ((9 <=? n) && (n <=? 13)) || (n =? 32) || (n =? 160).

(** [\d] *)
Definition isDigit (c : ascii) : bool :=
  let n := code c in (48 <=? n) && (n <=? 57).

(** What [.] refuses within U+0000..U+00FF: LF and CR. *)
Definition isLineTerminator (c : ascii) : bool :=
  let n := code c in (n =? 10) || (n =? 13).

(** [parseInt(s, 10)] on a non-empty run of decimal digits. *)
Fixpoint parseDigits (acc : Z) (s : string) : Z :=
  match s with
  | "" => acc
  | String a r => parseDigits (10 * acc + (code a - 48)) r
  end.

Definition parseInt (s : string) : jsval :=
  match s with
  | "" => VNaN
  | _ => if allChars isDigit s then VNum (parseDigits 0 s) else VNaN
  end.

(** [String.prototype.toLowerCase] within U+0000..U+00FF. *)
Definition lowerChar (c : ascii) : ascii :=
  let n := code c in
  if ((65 <=? n) && (n <=? 90)) || ((192 <=? n) && (n <=? 222) && negb (n =? 215))
  then ascii_of_nat (Z.to_nat (n + 32)) else c.

Fixpoint toLowerCase (s : string) : string :=
  match s with
  | "" => ""
  | String a r => String (lowerChar a) (toLowerCase r)
  end.

End JS.

(** ** lib/utils/qemu.ts *)

Module Qemu.
Import JS.

Definition QEMU_VERSION : string := "v4.0.0+balena2".
Definition QEMU_BIN_NAME : string := "qemu-execve".

(** [s.includes(needle)] *)
Fixpoint includes (needle s : string) : bool :=
  startsWith needle s ||
  match s with
  | "" => false
  | String _ r => includes needle r
  end.

(** [s.replace(c, by)] for a one-character pattern: the first occurrence. *)
Fixpoint replaceChar (c : ascii) (by_ : string) (s : string) : string :=
  match s with
  | "" => ""
  | String a r => if Ascii.eqb a c then by_ +:+ r else String a (replaceChar c by_ r)
  end.

Definition hexDigit (n : Z) : ascii :=
  ascii_of_nat (Z.to_nat (if n <? 10 then 48 + n else 55 + n)).

Definition percent (n : Z) : string :=
  String "%" (String (hexDigit (n / 16)) (String (hexDigit (n mod 16)) "")).

(** [encodeURIComponent]: letters, digits and [-_.!~*'()] stand; every other
    code unit is written as the percent-escaped bytes of its UTF-8 form. *)
Definition unreserved (c : ascii) : bool :=
  let n := code c in
  ((48 <=? n) && (n <=? 57)) || ((65 <=? n) && (n <=? 90)) ||
  ((97 <=? n) && (n <=? 122)) ||
  (n =? 45) || (n =? 95) || (n =? 46) || (n =? 33) || (n =? 126) ||
  (n =? 42) || (n =? 39) || (n =? 40) || (n =? 41).

Fixpoint encodeURIComponent (s : string) : string :=
  match s with
  | "" => ""
  | String a r =>
      let n := code a in
      (if unreserved a then String a ""
       else if n <? 128 then percent n
       else percent (192 + n / 64) +:+ percent (128 + n mod 64))
      +:+ encodeURIComponent r
  end.

(** The cross-architecture emulator that serves a balena CPU name. *)
Definition balenaArchToQemuArch (arch : string) : res string :=
  if (arch =? "armv7hf")%string || (arch =? "rpi")%string || (arch =? "armhf")%string
  then Ok "arm"
  else if (arch =? "aarch64")%string then Ok "aarch64"
  else Throw ("Cannot install emulator for architecture " +:+ arch).

(** A file on disk: opened for writing and still empty; written, with the
    mode it was created with; or written and given a mode by [chmod]. *)
Inductive file : Type :=
| Created
| Written (data : string)
| Extracted (data : string) (mode : string).

Definition content (f : file) : string :=
  match f with
  | Created => ""
  | Written data | Extracted data _ => data
  end.

Inductive event : Type :=
| LogInfo (msg : string)
| Request (url : string).

Record world : Type := mkWorld {
  dirs : gset string;
  files : gmap string file;
  trace : list event
}.

(** The calls of Node's [fs] module that the host can fail. *)
Inductive fsCall : Type :=
| Mkdir (dir : string)
| OpenRead (p : string)
| OpenWrite (p : string)
| Chmod (p : string).

(** What the host decides: the configured binaries directory, the answer of
    [docker.info()] (operating system, architecture), per URL the entries
    (name, content) of the archive served there, [path.join] (Node follows
    the platform's separator and normalises the result), and the error, if
    any, that a file-system call ends in.  Two errors follow from the state
    instead: [EEXIST] for a directory that is there, and [ENOENT] for
    reading a file that is not. *)
Record env : Type := mkEnv {
  binDirectory : string;
  dockerInfo : res (string * string);
  fetch : string -> res (list (string * string));
  pathJoin : string -> string -> string;
  fsError : fsCall -> option string
}.

Section WithEnv.
Variable E : env.

Definition emit (e : event) : M world unit :=
  modify (fun w => mkWorld (dirs w) (files w) (trace w ++ [e])).

(** [fs.mkdir(dir)] followed by [.catch({ code: 'EEXIST' }, noop)]: the
    directory is there afterwards, unless the host fails the call for
    another reason, which rejects. *)
Definition mkdirp (dir : string) : M world unit :=
  match fsError E (Mkdir dir) with
  | Some e => throw e
  | None => modify (fun w => mkWorld ({[dir]} ∪ dirs w) (files w) (trace w))
  end.

Definition writeFile (p : string) (f : file) : M world unit :=
  modify (fun w => mkWorld (dirs w) (<[p := f]> (files w)) (trace w)).

(** [fs.createWriteStream(p)]: when the host lets the file be opened it is
    created, or emptied, at once.  The error of a failed open is emitted on
    the stream later: it is returned, for the caller to raise where the
    source's listeners, or their absence, put it. *)
Definition createWriteStream (p : string) : M world (option string) :=
  match fsError E (OpenWrite p) with
  | Some e => ret (Some e)
  | None => (writeFile p Created ;;; ret None)%M
  end.

(** [fs.chmod(p, mode)] and [fs.chmodSync(p, mode)] *)
Definition chmod (p mode : string) : M world unit :=
  fun w =>
    match fsError E (Chmod p) with
    | Some e => (Throw e, w)
    | None =>
        match files w !! p with
        | Some f => writeFile p (Extracted (content f) mode) w
        | None =>
            (Throw ("Error: ENOENT: no such file or directory, chmod '" +:+ p +:+ "'"), w)
        end
    end.

Definition exists_ (p : string) : M world bool :=
  gets (fun w => bool_decide (is_Some (files w !! p))).

Definition getQemuPath (arch : string) : M world string :=
  (mkdirp (binDirectory E) ;;;
   ret (pathJoin E (binDirectory E)
                 (QEMU_BIN_NAME +:+ "-" +:+ arch +:+ "-" +:+ QEMU_VERSION)))%M.

Definition archiveUrl (qemuArch : string) : string :=
  let fileVersion :=
    replaceChar "+" "." (default QEMU_VERSION (stripPrefix "v" QEMU_VERSION)) in
  let urlFile :=
    encodeURIComponent ("qemu-" +:+ fileVersion +:+ "-" +:+ qemuArch +:+ ".tar.gz") in
  let urlVersion := encodeURIComponent QEMU_VERSION in
  "https://github.com/balena-io/qemu/releases/download/" +:+ urlVersion +:+ "/" +:+ urlFile.

(** The ['entry'] listener of the archive reader, entry by entry.  An entry
    whose name mentions the static emulator is piped into the install
    stream; the others are drained.  [pipe] ends its destination when the
    entry ends, so the first such entry is the only one the stream takes:
    what a later one carries is written after the end, which is an error of
    the stream.  The state is what the stream has received, [None] while
    nothing was piped into it. *)
Fixpoint pipeEntries (qemuArch : string) (entries : list (string * string))
  : M (option string) unit :=
  match entries with
  | [] => ret tt
  | (name, data) :: rest =>
      ((if includes ("qemu-" +:+ qemuArch +:+ "-static") name
        then
          piped <- gets id ;;
          match piped with
          | None => modify (fun _ => Some data)
          | Some _ =>
              if (data =? "")%string then ret tt
              else throw "Error [ERR_STREAM_WRITE_AFTER_END]: write after end"
          end
        else ret tt) ;;;
       pipeEntries qemuArch rest)%M
  end.

(** [installQemu(arch)].  The executor of the promise runs in one go: the
    write stream is opened (so the file exists from then on), the
    architecture is checked, and the download is requested.  An exception of
    the executor and an error of the request, of the decompression or of the
    archive reader reject.  The install stream has no error listener, and
    [chmodSync] runs inside a listener: their errors are raised as uncaught
    exceptions, which end the run; the model shows them as the failure of
    the call. *)
Definition installQemu (arch : string) : M world unit :=
  (qemuPath <- getQemuPath arch ;;
   failed <- createWriteStream qemuPath ;;
   qemuArch <- lift (balenaArchToQemuArch arch) ;;
   emit (Request (archiveUrl qemuArch)) ;;;
   match failed with
   | Some e => throw e
   | None =>
       entries <- lift (fetch E (archiveUrl qemuArch)) ;;
       let '(piping, piped) := pipeEntries qemuArch entries None in
       match piped with
       | Some data => writeFile qemuPath (Written data)
       | None => ret tt
       end ;;;
       lift piping ;;;
       chmod qemuPath "755"
   end)%M.

Definition lowerAscii (c : ascii) : ascii :=
  let n := code c in
  if (65 <=? n) && (n <=? 90) then ascii_of_nat (Z.to_nat (n + 32)) else c.

Fixpoint lowerAsciiStr (s : string) : string :=
  match s with
  | "" => ""
  | String a r => String (lowerAscii a) (lowerAsciiStr r)
  end.

(** [/(?:Docker Desktop)|(?:Docker for Mac)/i.test(os)] *)
Definition isDockerDesktop (os : string) : bool :=
  includes "docker desktop" (lowerAsciiStr os) || includes "docker for mac" (lowerAsciiStr os).

(** The notice for Docker Desktop is logged in full by the source; the
    trace keeps its first line. *)
Definition platformNeedsQemu : M world bool :=
  (info <- lift (dockerInfo E) ;;
   (if isDockerDesktop (fst info)
    then emit (LogInfo ("Docker Desktop detected (daemon architecture: " +:+ snd info +:+ ")"))
    else ret tt) ;;;
   ret (negb (isDockerDesktop (fst info))))%M.

Definition installQemuIfNeeded (emulated : bool) (arch : string) : M world bool :=
  (needsQemu <- platformNeedsQemu ;;
   if negb emulated || negb needsQemu then ret false
   else
     qemuPath <- getQemuPath arch ;;
     present <- exists_ qemuPath ;;
     (if negb present
      then emit (LogInfo ("Installing qemu for " +:+ arch +:+ " emulation...")) ;;;
           installQemu arch
      else ret tt) ;;;
     ret true)%M.

End WithEnv.

(** The downloads a trace records. *)
Definition requests (t : list event) : list string :=
  omap (fun e => match e with Request u => Some u | LogInfo _ => None end) t.

End Qemu.

(** ** lib/utils/compose.js: logs and progress events *)

Module Compose.
Import JS.

Definition truncateString (str : string) (len : Z) : string :=
  if strlen str <? len then str
  else
    let str := slice str 0 len in
    (* return everything up to the last line *)
    slice str 0 (lastIndexOf str newline).

Definition LOG_LENGTH_MAX : Z := 512 * 1024.

(** [task.logBuffer.join('\n')] *)
Fixpoint joinLines (l : list string) : string :=
  match l with
  | [] => ""
  | [s] => s
  | s :: r => s +:+ String newline (joinLines r)
  end.

(** [dropEmptyLinesStream]: a chunk goes on when [str.trim()] is not empty. *)
Definition dropEmptyLinesStream (str : string) : option string :=
  if allChars isSpace str then None else Some str.

(** [buildLogCapture(objectMode, buffer)], one chunk: the buffer after the
    push, and the chunk handed downstream. *)
Definition buildLogCapture (buffer : list jsval) (data : jsval)
  : res (list jsval * jsval) :=
  match getProp data "error" with
  | Throw e => Throw e
  | Ok error =>
      if truthy error then Ok ((buffer ++ [VStr (toString error)])%list, data)
      else
        let progress := field (props data) "progress" in
        let status := field (props data) "status" in
        if truthy progress && truthy status
        then Ok ((buffer ++ [VStr (toString progress +:+ "% " +:+ toString status)])%list, data)
        else if truthy status
        then Ok ((buffer ++ [VStr (toString status)])%list, data)
        else Ok ((buffer ++ [data])%list, data)
  end.

(** [/^\s*Step\s+(\d+)\/(\d+)\s*: (.+)$/.exec(str)]: the three groups.
    Each quantified class is followed by a character outside it, so the
    greedy match is the only one and the expression is read left to right:
    blanks, [Step], at least one blank, digits, [/], digits, blanks, [: ],
    then a non-empty rest without a line terminator up to the end. *)
Definition stepRegex (str : string) : option (string * string * string) :=
  match stripPrefix "Step" (dropWhile isSpace str) with
  | None => None
  | Some s2 =>
      if String.eqb (takeWhile isSpace s2) "" then None
      else
        let s3 := dropWhile isSpace s2 in
        let n := takeWhile isDigit s3 in
        if String.eqb n "" then None
        else
          match stripPrefix "/" (dropWhile isDigit s3) with
          | None => None
          | Some s4 =>
              let m := takeWhile isDigit s4 in
              if String.eqb m "" then None
              else
                match stripPrefix ": " (dropWhile isSpace (dropWhile isDigit s4)) with
                | None => None
                | Some text =>
                    if String.eqb text "" then None
                    else if allChars (fun c => negb (isLineTerminator c)) text
                         then Some (n, m, text)
                         else None
                end
          end
  end.

(** [Math.floor((a * 100) / b)] on the numbers [parseInt] returned. *)
Definition floorPercent (a b : jsval) : jsval :=
  match a, b with
  | VNum a, VNum b =>
      if b =? 0 then (if a =? 0 then VNaN else VInfinity) else VNum (a * 100 / b)
  | _, _ => VNaN
  end.

(** The variables the adapter's closure keeps between chunks. *)
Record adapter : Type := mkAdapter {
  step : option string;
  numSteps : option string;
  progress : jsval
}.

Definition newAdapter : adapter := mkAdapter None None VUndefined.

Definition showNullable (o : option string) : string :=
  match o with Some s => s | None => "null" end.

(** [buildProgressAdapter(inline)], one chunk ([None] is a [null] chunk):
    the closure afterwards and what is handed downstream. *)
Definition buildProgressAdapter (inline : bool) (a : adapter) (chunk : option string)
  : adapter * jsval :=
  match chunk with
  | None => (a, VNull)
  | Some str =>
      if inline then (a, VObj {[ "status" := VStr str ]})
      else if startsWith "Successfully tagged " str
      then
        let a := mkAdapter (step a) (numSteps a) VUndefined in
        (a, VObj (<["progress" := progress a]> {[ "status" := VStr str ]}))
      else
        let '(a, str) :=
          match stepRegex str with
          | Some (n, m, text) =>
              (mkAdapter (Some n)
                         (match numSteps a with None => Some m | Some k => Some k end)
                         (progress a), text)
          | None => (a, str)
          end in
        let '(a, str) :=
          match step a with
          | Some n =>
              (mkAdapter (step a) (numSteps a)
                         (floorPercent (parseInt n) (parseInt (showNullable (numSteps a)))),
               "Step " +:+ n +:+ "/" +:+ showNullable (numSteps a) +:+ ": " +:+ str)
          | None => (a, str)
          end in
        (a, VObj (<["progress" := progress a]> {[ "status" := VStr str ]}))
  end.

(** Feeding a list of chunks through one adapter. *)
Fixpoint feed (inline : bool) (a : adapter) (chunks : list string) : adapter * list jsval :=
  match chunks with
  | [] => (a, [])
  | c :: r =>
      let '(a1, ev) := buildProgressAdapter inline a (Some c) in
      let '(a2, evs) := feed inline a1 r in
      (a2, ev :: evs)
  end.

(** [status.replace(/^Status: /, '')]; a value that is no string has no
    [replace] method. *)
Definition stripStatus (status : jsval) : res jsval :=
  match status with
  | VStr s => Ok (VStr (default s (stripPrefix "Status: " s)))
  | _ => Throw "TypeError: status.replace is not a function"
  end.

(** [percentage === 100] *)
Definition is100 (percentage : jsval) : bool :=
  match percentage with
  | VNum z => z =? 100
  | _ => false
  end.

(** [pullProgressAdapter(outStream)], one event: the object written to
    [outStream]. *)
Definition pullProgressAdapter (ev : jsval) : res jsval :=
  if isNullish ev then Throw "TypeError: Cannot destructure the event"
  else
      let m := props ev in
      let status := field m "status" in
      let id := field m "id" in
      let percentage := field m "percentage" in
      let error := field m "error" in
      let errorDetail := field m "errorDetail" in
      match (if isNullish status then Ok status else stripStatus status) with
      | Throw e => Throw e
      | Ok status =>
          let status :=
            if isNullish id then status
            else VStr (toString id +:+ ": " +:+ toString status) in
          let percentage := if is100 percentage then VUndefined else percentage in
          match (if isNullish errorDetail then Ok VUndefined else getProp errorDetail "message") with
          | Throw e => Throw e
          | Ok message =>
              Ok (VObj (<["error" := if isNullish message then error else message]>
                       (<["progress" := percentage]> {[ "status" := status ]})))
          end
      end.

End Compose.

(** ** lib/utils/compose.js: the build options of a task *)

Module BuildOptions.
Import JS.

(** The own enumerable properties of a string: its characters, by index. *)
Fixpoint charEntries (i : Z) (s : string) : list (string * jsval) :=
  match s with
  | "" => []
  | String c r => (showZ i, VStr (String c "")) :: charEntries (i + 1) r
  end.

(** lodash's [baseMerge(object, source)] on JSON-like values.  For each
    property of the source, in turn:
    - a plain object is merged, recursively, into the destination's value
      when that is an object, and into a fresh object otherwise;
    - [undefined] is skipped when the destination has the key, and
      assigned otherwise;
    - any other value is assigned.
    (Arrays are not part of the value model.  A destination value that is a
    date is replaced by the merged copy of the source, where lodash would
    extend the date object itself.) *)
Fixpoint baseMerge (source : jsval) (object : gmap string jsval) {struct source}
  : gmap string jsval :=
  match source with
  | VObj sm =>
      map_fold
        (fun key srcValue acc =>
           match srcValue with
           | VObj _ =>
               <[key := VObj (baseMerge srcValue
                                (match acc !! key with
                                 | Some (VObj om) => om
                                 | _ => ∅
                                 end))]> acc
           | VUndefined =>
               match acc !! key with
               | Some _ => acc
               | None => <[key := VUndefined]> acc
               end
           | _ => <[key := srcValue]> acc
           end)
        object sm
  | VStr s =>
      fold_left (fun acc kv => <[fst kv := snd kv]> acc) (charEntries 0 s) object
  | _ => object
  end.

(** [_.merge(object, ...sources)]: sources are applied from left to right,
    and a falsy source is passed over. *)
Definition merge (object : gmap string jsval) (sources : list jsval) : gmap string jsval :=
  fold_left (fun acc source => if truthy source then baseMerge source acc else acc)
            sources object.

(** What the merge leaves under a key that the source holds [srcValue] for,
    given what the destination held. *)
Definition merged (objValue : option jsval) (srcValue : jsval) : jsval :=
  match srcValue with
  | VObj _ =>
      VObj (baseMerge srcValue (match objValue with Some (VObj om) => om | _ => ∅ end))
  | VUndefined => default VUndefined objValue
  | _ => srcValue
  end.

(** A service's image: the name of an image to pull, or a build
    specification (an object with [context], [tag], ...). *)
Inductive image : Type :=
| ImageName (name : string)
| ImageBuild (spec : gmap string jsval).

(** The fields of a build task that the option set-up reads and writes. *)
Record buildTask : Type := mkTask {
  serviceName : string;
  tag : option string;
  dockerOpts : option (gmap string jsval);
  external : bool;
  logStream : option string;
  logBuffer : option (list jsval)
}.

(** [[projectName, serviceName].join('_').toLowerCase()] *)
Definition defaultTag (projectName serviceName : string) : string :=
  toLowerCase (projectName +:+ "_" +:+ serviceName).

(** [context?.args] *)
Definition contextArgs (spec : gmap string jsval) : jsval :=
  let context := field spec "context" in
  if isNullish context then VUndefined else field (props context) "args".

(** The body of [if (context?.args != null)]: an absent [buildargs] becomes
    an empty object, then the arguments are merged into it.  Merging into
    a primitive changes nothing. *)
Definition mergeBuildArgs (opts : gmap string jsval) (args : jsval) : gmap string jsval :=
  let opts := if isNullish (field opts "buildargs")
              then <["buildargs" := VObj ∅]> opts else opts in
  match field opts "buildargs" with
  | VObj buildargs => <["buildargs" := VObj (merge buildargs [args])]> opts
  | _ => opts
  end.

(** The first part of the per-task callback of [buildProject]: the tag is
    fixed and written back to the descriptor, the Docker options are put
    together, and the log sink is attached.  The descriptors are the
    objects of [imageDescriptorsByServiceName], which the callback
    mutates. *)
Definition configureTask (projectName : string) (buildOpts : jsval)
    (descriptors : gmap string image) (task : buildTask)
  : res (gmap string image * buildTask) :=
  match descriptors !! serviceName task with
  | None => Throw "TypeError: Cannot read property 'image' of undefined"
  | Some d =>
      let tag := match tag task with
                 | Some t => t
                 | None => defaultTag projectName (serviceName task)
                 end in
      let d := match d with
               | ImageBuild spec =>
                   if isNullish (field spec "context") then d
                   else ImageBuild (<["tag" := VStr tag]> spec)
               | ImageName _ => d
               end in
      (* configure build opts appropriately *)
      let opts := default ∅ (dockerOpts task) in
      let opts := merge opts [buildOpts; VObj {[ "t" := VStr tag ]}] in
      let opts :=
        match d with
        | ImageName _ => opts
        | ImageBuild spec =>
            if isNullish (contextArgs spec) then opts
            else mergeBuildArgs opts (contextArgs spec)
        end in
      Ok (<[serviceName task := d]> descriptors,
          mkTask (serviceName task) (Some tag) (Some opts) (external task)
                 (Some (serviceName task)) (Some []))
  end.


End BuildOptions.

(** ** lib/utils/compose.js: the two progress renderers *)

Module Renderer.
Import JS.

(** What a renderer sends to its terminal or output stream. *)
Inductive ttyOp : Type :=
| DeleteToEnd
| ClearLine
| Write (s : string)
| WriteLine (s : string)
| CursorUp (n : Z)
| HideCursor
| ShowCursor.

(** The process and terminal around a renderer. *)
Record host : Type := mkHost {
  out : list ttyOp;      (* everything written so far *)
  sigint : nat;          (* registrations of the renderer's SIGINT handler *)
  timers : gset nat;     (* the intervals that are running *)
  nextTimer : nat;
  clock : Z;             (* Date.now() *)
  windowWidth : Z;
  exited : option Z      (* the status passed to process.exit *)
}.

(** The libraries the renderers call: chalk, cli-truncate, string-width and
    moment's duration format. *)
Record libs : Type := mkLibs {
  blue : string -> string;
  bold : string -> string;
  truncate : string -> Z -> string;
  stringWidth : string -> Z;
  formatDuration : Z -> string
}.

Definition print (op : ttyOp) (h : host) : host :=
  mkHost (out h ++ [op]) (sigint h) (timers h) (nextTimer h) (clock h) (windowWidth h) (exited h).

Definition prints (ops : list ttyOp) (h : host) : host :=
  mkHost (out h ++ ops) (sigint h) (timers h) (nextTimer h) (clock h) (windowWidth h) (exited h).

(** [process.on('SIGINT', handler)] and [process.removeListener]. *)
Definition addListener (h : host) : host :=
  mkHost (out h) (S (sigint h)) (timers h) (nextTimer h) (clock h) (windowWidth h) (exited h).

Definition removeListener (h : host) : host :=
  mkHost (out h) (Nat.pred (sigint h)) (timers h) (nextTimer h) (clock h) (windowWidth h) (exited h).

(** [createRunLoop(tick)] starts an interval; the run loop is known by its
    timer.  Ending it clears the interval and calls [onEnd], which does
    nothing unless replaced. *)
Definition createRunLoop (h : host) : nat * host :=
  (nextTimer h,
   mkHost (out h) (sigint h) ({[nextTimer h]} ∪ timers h) (S (nextTimer h))
          (clock h) (windowWidth h) (exited h)).

Definition runloopEnd (timerId : nat) (h : host) : host :=
  mkHost (out h) (sigint h) (timers h ∖ {[timerId]}) (nextTimer h)
         (clock h) (windowWidth h) (exited h).

Definition processExit (status : Z) (h : host) : host :=
  mkHost (out h) (sigint h) (timers h) (nextTimer h) (clock h) (windowWidth h) (Some status).

(** [createSpinner()], read at position [index]. *)
Definition spinnerChar (index : nat) : string :=
  match index mod 4 with
  | 0 => "|"
  | 1 => "/"
  | 2 => "-"
  | _ => "\"
  end%nat.

Definition spaces (n : Z) : string := repeatChar " " (Z.to_nat n).

(** [_.padEnd(s, n)] and [_.padStart(s, n)] *)
Definition padEnd (s : string) (n : Z) : string := s +:+ spaces (n - strlen s).
Definition padStart (s : string) (n : Z) : string := spaces (n - strlen s) +:+ s.

Definition clamp (z lower upper : Z) : Z := Z.min (Z.max z lower) upper.

(** [renderProgressBar(percentage, stepCount)].  The adapters emit numbers;
    any other value is a NaN to [_.clamp], and draws an empty bar.  The
    numbers of the embedding are the whole numbers: a percentage with a
    fraction, which [_.padStart(percentage, 3)] would print with more than
    three characters, is outside it. *)
Definition renderProgressBar (percentage : jsval) (stepCount : Z) : string :=
  match (match percentage with
         | VNum z => Some (clamp z 0 100)
         | VInfinity => Some 100
         | _ => None
         end) with
  | Some percentage =>
      let barCount := stepCount * percentage / 100 in
      let spaceCount := stepCount - barCount in
      "[" +:+ repeatChar "=" (Z.to_nat barCount) +:+ ">" +:+ spaces spaceCount +:+ "] "
          +:+ padStart (showZ percentage) 3 +:+ "%"
  | None => "[>] NaN%"
  end.

Definition maxLength (services : list string) : Z :=
  fold_right Z.max 0 (map strlen services).

Definition serviceStr (services : list string) : string :=
  if (length services =? 1)%nat then "1 service"
  else showZ (Z.of_nat (length services)) +:+ " services".

Definition durationStr (L : libs) (startTime : option Z) (h : host) : string :=
  match startTime with
  | None => "unknown time"
  | Some t => formatDuration L ((clock h - t) / 1000)
  end.

Module BuildProgressUI.

Record ui : Type := mkUI {
  _services : list string;
  _serviceToDataMap : gmap string jsval;
  _prefix : string;
  _prefixWidth : Z;
  _maxLineWidth : option Z;
  _lineWidths : list Z;
  _startTime : option Z;
  _ended : bool;
  _cancelled : bool;
  _spinner : nat;
  _runloop : option nat
}.

Section WithLibs.
Variable L : libs.

Definition new (services : list string) : ui :=
  let prefix := blue L "[Build]" +:+ "   " in
  mkUI services ∅ prefix (10 + strlen prefix + maxLength services)
       None [] None false false 0 None.

Definition _handleEvent (service : string) (event : jsval) (u : ui) : ui :=
  mkUI (_services u) (<[service := event]> (_serviceToDataMap u)) (_prefix u)
       (_prefixWidth u) (_maxLineWidth u) (_lineWidths u) (_startTime u)
       (_ended u) (_cancelled u) (_spinner u) (_runloop u).

Definition _clear (s : ui * host) : ui * host :=
  let '(u, h) := s in
  (mkUI (_services u) (_serviceToDataMap u) (_prefix u) (_prefixWidth u)
        (Some (windowWidth h)) (_lineWidths u) (_startTime u)
        (_ended u) (_cancelled u) (_spinner u) (_runloop u),
   print DeleteToEnd h).

Definition summaryLine (data : jsval) : string :=
  let m := props data in
  let status := field m "status" in
  let progress := field m "progress" in
  let error := field m "error" in
  if truthy error then toString error
  else if truthy progress then
    let bar := renderProgressBar progress 20 in
    if truthy status then bar +:+ " " +:+ toString status else bar
  else if truthy status then toString status
  else "Waiting...".

Definition _getServiceSummary (u : ui) : gmap string jsval :=
  list_to_map
    (rev (map (fun service =>
                 (service,
                  VStr (summaryLine (default (VObj ∅) (_serviceToDataMap u !! service)))))
              (_services u))).

Definition _renderStatus (end_ : bool) (s : ui * host) : ui * host :=
  let '(u, h) := s in
  let h := prints [ClearLine; Write (_prefix u)] h in
  if end_ && _cancelled u then (u, print (WriteLine "Build cancelled") h)
  else if end_ then
    (u, print (WriteLine ("Built " +:+ serviceStr (_services u) +:+ " in "
                                   +:+ durationStr L (_startTime u) h)) h)
  else
    (mkUI (_services u) (_serviceToDataMap u) (_prefix u) (_prefixWidth u)
          (_maxLineWidth u) (_lineWidths u) (_startTime u)
          (_ended u) (_cancelled u) (S (_spinner u)) (_runloop u),
     print (WriteLine ("Building services... " +:+ spinnerChar (_spinner u))) h).

Definition summaryRow (u : ui) (serviceToStrMap : gmap string jsval) (service : string) : string :=
  let str := padEnd (_prefix u +:+ bold L service) (_prefixWidth u)
             +:+ toString (field serviceToStrMap service) in
  match _maxLineWidth u with
  | Some w => truncate L str w
  | None => str
  end.

Definition _renderSummary (serviceToStrMap : gmap string jsval) (s : ui * host) : ui * host :=
  let '(u, h) := s in
  let rows := map (summaryRow u serviceToStrMap) (_services u) in
  (mkUI (_services u) (_serviceToDataMap u) (_prefix u) (_prefixWidth u)
        (_maxLineWidth u)
        (map (stringWidth L) rows ++ List.skipn (length rows) (_lineWidths u))
        (_startTime u) (_ended u) (_cancelled u) (_spinner u) (_runloop u),
   prints (flat_map (fun row => [ClearLine; WriteLine row]) rows) h).

Definition _display (s : ui * host) : ui * host :=
  let s := _clear s in
  let s := _renderStatus false s in
  let '(u, h) := _renderSummary (_getServiceSummary (fst s)) s in
  (u, print (CursorUp (Z.of_nat (length (_services u)) + 1)) h).

Definition start (s : ui * host) : ui * host :=
  let '(u, h) := s in
  let h := print HideCursor (addListener h) in
  let u := fold_left (fun u service =>
                        _handleEvent service (VObj {[ "status" := VStr "Preparing..." ]}) u)
                     (_services u) u in
  let '(timerId, h) := createRunLoop h in
  (mkUI (_services u) (_serviceToDataMap u) (_prefix u) (_prefixWidth u)
        (_maxLineWidth u) (_lineWidths u) (Some (clock h))
        (_ended u) (_cancelled u) (_spinner u) (Some timerId),
   h).

Definition end_ (summary : option (gmap string jsval)) (s : ui * host) : ui * host :=
  let '(u, h) := s in
  if _ended u then s
  else
    let h := removeListener h in
    let h := match _runloop u with Some timerId => runloopEnd timerId h | None => h end in
    let u := mkUI (_services u) (_serviceToDataMap u) (_prefix u) (_prefixWidth u)
                  (_maxLineWidth u) (_lineWidths u) (_startTime u)
                  true (_cancelled u) (_spinner u) None in
    let s := _clear (u, h) in
    let s := _renderStatus true s in
    let '(u, h) :=
      _renderSummary (match summary with
                      | Some m => m
                      | None => _getServiceSummary (fst s)
                      end) s in
    (u, print ShowCursor h).

Definition _handleInterrupt (s : ui * host) : ui * host :=
  let '(u, h) := s in
  let u := mkUI (_services u) (_serviceToDataMap u) (_prefix u) (_prefixWidth u)
                (_maxLineWidth u) (_lineWidths u) (_startTime u)
                (_ended u) true (_spinner u) (_runloop u) in
  let '(u, h) := end_ None (u, h) in
  (u, processExit 130 h).

End WithLibs.
End BuildProgressUI.

Module BuildProgressInline.

Record inline : Type := mkInline {
  _services : list string;
  _prefixWidth : Z;
  _startTime : option Z;
  _ended : bool
}.

Section WithLibs.
Variable L : libs.

Definition new (services : list string) : inline :=
  mkInline services (10 + maxLength services) None false.

(** [_renderEvent(service, event)]: destructuring [undefined] or [null]
    throws before anything is written. *)
Definition _renderEvent (i : inline) (service : string) (event : jsval) : M host unit :=
  if isNullish event then throw "TypeError: Cannot destructure the event"
  else
    let m := props event in
    let str :=
      if truthy (field m "error") then toString (field m "error")
      else if truthy (field m "status") then toString (field m "status")
      else "Waiting..." in
    modify (prints [Write (padEnd (bold L service) (_prefixWidth i));
                    Write str;
                    Write (String newline "")]).

(** [services.forEach(f)]: an exception leaves the loop. *)
Fixpoint forEach (f : string -> M host unit) (services : list string) : M host unit :=
  match services with
  | [] => ret tt
  | service :: rest => (f service ;;; forEach f rest)%M
  end.

Definition start (i : inline) : M host inline :=
  (modify (print (Write ("Building services..." +:+ String newline ""))) ;;;
   forEach (fun service => _renderEvent i service (VObj {[ "status" := VStr "Preparing..." ]}))
           (_services i) ;;;
   now <- gets clock ;;
   ret (mkInline (_services i) (_prefixWidth i) (Some now) (_ended i)))%M.

(** [end(summary)].  The renderer object is part of what the call leaves
    behind, also when it throws. *)
Definition end_ (summary : option (gmap string jsval)) (i : inline) (h : host)
  : res unit * inline * host :=
  if _ended i then (Ok tt, i, h)
  else
    let i := mkInline (_services i) (_prefixWidth i) (_startTime i) true in
    let '(r, h) :=
      ((match summary with
        | Some m => forEach (fun service => _renderEvent i service (field m service))
                            (_services i)
        | None => ret tt
        end ;;;
        modify (fun h => print (Write ("Built " +:+ serviceStr (_services i) +:+ " in "
                                        +:+ durationStr L (_startTime i) h
                                        +:+ String newline "")) h))%M) h in
    (r, i, h).

End WithLibs.
End BuildProgressInline.

End Renderer.

(** ** lib/utils/compose.js: release, tag, push *)

Module Deploy.
Import JS.

(** What the pipeline asks of the daemon, the registry and the backend, in
    the order it asks.  [Callback] marks the entry into the per-image
    callback of the push stage. *)
Inductive event : Type :=
| TagImage (name repo tag : string)
| QueryPreviousRelease
| RegistryAndName (imageName : string)
| RequestToken (registry : string) (scope : list string)
| Inspect (name : string)
| Push (index : nat) (name : string) (attempt : nat)
| Delay (label : string) (ms : Q)
| Callback (index : nat)
| UpdateImage (id : jsval) (record : gmap string jsval)
| Remove (name : string)
| UpdateRelease (id : jsval) (release : gmap string jsval)
| Log (msg : string).

(** The objects that several references share and the pipeline mutates:
    the service images of the release, by service name, and the release. *)
Record world : Type := mkWorld {
  serviceImages : gmap string (gmap string jsval);
  release : gmap string jsval;
  trace : list event
}.

(** The outcome of every call that leaves the process. *)
Record env : Type := mkEnv {
  created : res (gmap string jsval * gmap string (gmap string jsval));
  tagResult : string -> string -> string -> res unit;
  latestRelease : res (option (list string));
  registryAndName : string -> res string;
  tokenResult : string -> list string -> res jsval;
  inspectSize : string -> res Z;
  pushResult : nat -> nat -> res string;
  updateImageResult : jsval -> gmap string jsval -> res unit;
  removeResult : string -> res unit;
  updateReleaseResult : jsval -> gmap string jsval -> res unit;
  now : Z
}.

(** A built image, as [buildProject] returns it. *)
Record builtImage : Type := mkImage {
  serviceName : string;
  name : string;
  logs : jsval;
  props : gmap string jsval
}.

(** A tagged image.  Its [serviceImage] is the object of the store under
    the image's service name. *)
Record taggedImage : Type := mkTagged {
  t_serviceName : string;
  localImage : string;
  registry : string;
  repo : string;
  t_logs : jsval;
  t_props : gmap string jsval
}.

Definition emit (e : event) : M world unit :=
  modify (fun w => mkWorld (serviceImages w) (release w) (trace w ++ [e])).

(** [serviceImage.key = v] on the shared object of service [sn]. *)
Definition setField (sn key : string) (v : jsval) : M world unit :=
  modify (fun w => mkWorld (alter (insert key v) sn (serviceImages w)) (release w) (trace w)).

Definition deleteField (sn key : string) : M world unit :=
  modify (fun w => mkWorld (alter (delete key) sn (serviceImages w)) (release w) (trace w)).

Definition setRelease (key : string) (v : jsval) : M world unit :=
  modify (fun w => mkWorld (serviceImages w) (<[key := v]> (release w)) (trace w)).

(** [Promise.map(l, f)]: every chain is started and runs to its end; the
    result is rejected when a chain was (here: with the leftmost error). *)
Fixpoint promiseMap {A B} (f : nat -> A -> M world B) (i : nat) (l : list A)
  : M world (list B) :=
  match l with
  | [] => ret []
  | a :: rest =>
      fun w =>
        let '(ra, w1) := f i a w in
        let '(rr, w2) := promiseMap f (S i) rest w1 in
        (match ra, rr with
         | Ok b, Ok bs => Ok (b :: bs)
         | Throw e, _ => Throw e
         | Ok _, Throw e => Throw e
         end, w2)
  end.

(** [Promise.map(l, f)] for a mapper that can throw.  The mapper is called
    for the elements in turn, in one go, and is not called again once it
    has thrown; the chains it had returned still run.  The result is
    rejected with the mapper's exception, which comes first, and else as
    [promiseMap] has it. *)
Fixpoint startAll {A B} (f : A -> world -> res (M world B)) (l : list A) (w : world)
  : list (M world B) * option string :=
  match l with
  | [] => ([], None)
  | a :: rest =>
      match f a w with
      | Throw e => ([], Some e)
      | Ok chain =>
          let '(chains, thrown) := startAll f rest w in
          (chain :: chains, thrown)
      end
  end.

Definition promiseMapThrowing {A B} (f : A -> world -> res (M world B)) (l : list A)
  : M world (list B) :=
  fun w =>
    let '(chains, thrown) := startAll f l w in
    let '(r, w') := promiseMap (fun _ chain => chain) 0 chains w in
    (match thrown with
     | Some e => Throw e
     | None => r
     end, w').

(** [Promise.join(p, q, handler)]: both promises were started, so both run;
    the handler runs when both are fulfilled. *)
Definition promiseJoin {A B C} (p : M world A) (q : M world B) (handler : A -> B -> M world C)
  : M world C :=
  fun w =>
    let '(ra, w1) := p w in
    let '(rb, w2) := q w1 in
    match ra, rb with
    | Ok a, Ok b => handler a b w2
    | Throw e, _ => (Throw e, w2)
    | Ok _, Throw e => (Throw e, w2)
    end.

(** Modelled from the spec: [retry] of [lib/utils/helpers], whose source is
    not part of the files at hand.  The operation is tried; when it fails
    and retries are left, the helper waits and tries again, at most [times]
    more times, the first wait being [delayMs] and every further one
    [backoffScaler] times the one before.  The error of the last attempt is
    the error of the whole. *)
Fixpoint retry {A} (func : nat -> M world A) (times : nat) (label : string)
    (delayMs backoffScaler : Q) (count : nat) : M world A :=
  match times with
  | O => func count
  | S times' =>
      catch (func count)
            (fun _ =>
               (emit (Delay label (Qred (delayMs * backoffScaler ^ Z.of_nat count))) ;;;
                retry func times' label delayMs backoffScaler (S count))%M)
  end.

Section WithEnv.
Variable E : env.

(** The tail of the image-location pattern, anchored where it is tried: a
    lazy run of characters (the repository), then optionally a colon and a
    run without slashes (the tag), then the end of the string. *)
Fixpoint matchRepo (s : string) : option (string * option string) :=
  match s with
  | "" => Some ("", None)
  | String a r =>
      if Ascii.eqb a ":" && allChars (fun c => negb (Ascii.eqb c "/")) r
      then Some ("", Some r)
      else if isLineTerminator a then None
      else match matchRepo r with
           | Some (repo, t) => Some (String a repo, t)
           | None => None
           end
  end.

(** The whole pattern, anchored at the start of [s]: a lazy run of
    characters (the registry), a slash, then the tail. *)
Fixpoint matchFrom (s : string) : option (string * string * option string) :=
  match s with
  | "" => None
  | String a r =>
      match (if Ascii.eqb a "/" then matchRepo r else None) with
      | Some (repo, t) => Some ("", repo, t)
      | None =>
          if isLineTerminator a then None
          else match matchFrom r with
               | Some (reg, repo, t) => Some (String a reg, repo, t)
               | None => None
               end
      end
  end.

(** [exec] of the image-location pattern of [tagServiceImages] (registry,
    slash, repository, optional colon and tag, end): the leftmost start
    that matches. *)
Fixpoint parseImageName (s : string) : option (string * string * option string) :=
  match matchFrom s with
  | Some m => Some m
  | None => match s with
            | "" => None
            | String _ r => parseImageName r
            end
  end.

(** The mapper of [tagServiceImages].  Its synchronous part looks up the
    record of the service and takes the image location apart, and throws
    when there is nothing to take apart; what it returns is the chain that
    asks the daemon for the tag. *)
Definition tagServiceImage (d : builtImage) (w : world) : res (M world taggedImage) :=
  match serviceImages w !! serviceName d with
  | None => Throw "TypeError: Cannot read property 'is_stored_at__image_location' of undefined"
  | Some serviceImage =>
      let imageName := field serviceImage "is_stored_at__image_location" in
      match parseImageName (toString imageName) with
      | None => Throw ("Error: Could not parse imageName: '" +:+ toString imageName +:+ "'")
      | Some (registry, repo, tag) =>
          let tag := default "latest" tag in
          let name := registry +:+ "/" +:+ repo in
          Ok (emit (TagImage (Deploy.name d) name tag) ;;;
              lift (tagResult E (Deploy.name d) name tag) ;;;
              ret (mkTagged (serviceName d) (name +:+ ":" +:+ tag) registry repo
                            (logs d) (props d)))%M
      end
  end.

Definition tagServiceImages (images : list builtImage) : M world (list taggedImage) :=
  promiseMapThrowing tagServiceImage images.

(** Every failure is caught and logged; the answer is then the empty list. *)
Definition getPreviousRepos : M world (list string) :=
  catch
    (emit QueryPreviousRelease ;;;
     latest <- lift (latestRelease E) ;;
     match latest with
     | Some locations =>
         promiseMap (fun _ imageName =>
                       emit (RegistryAndName imageName) ;;;
                       repoName <- lift (registryAndName E imageName) ;;
                       emit (Log ("Requesting access to previously pushed image repo ("
                                    +:+ repoName +:+ ")")) ;;;
                       ret repoName) 0 locations
     | None => ret []
     end)%M
    (fun e =>
       (emit (Log ("Failed to access previously pushed image repo: " +:+ e)) ;;;
        ret [])%M).

(** A failed request for the token yields the empty object. *)
Definition authorizePush (registry : string) (images previousRepos : list string)
  : M world jsval :=
  let images := (images ++ previousRepos)%list in
  let scope := map (fun repo => "repository:" +:+ repo +:+ ":pull,push") images in
  catch (emit (RequestToken registry scope) ;;; lift (tokenResult E registry scope))%M
        (fun _ => ret (VObj ∅)).

(** The handler of [Promise.join] in the push stage. *)
Definition recordSuccess (img : taggedImage) (size : Z) (digest : string) : M world unit :=
  let sn := t_serviceName img in
  (setField sn "image_size" (VNum size) ;;;
   setField sn "content_hash" (VStr digest) ;;;
   setField sn "build_log" (t_logs img) ;;;
   setField sn "dockerfile" (field (t_props img) "dockerfile") ;;;
   setField sn "project_type" (field (t_props img) "projectType") ;;;
   (if truthy (field (t_props img) "startTime")
    then setField sn "start_timestamp" (field (t_props img) "startTime") else ret tt) ;;;
   (if truthy (field (t_props img) "endTime")
    then setField sn "end_timestamp" (field (t_props img) "endTime") else ret tt) ;;;
   setField sn "push_timestamp" (VDate (now E)) ;;;
   setField sn "status" (VStr "success"))%M.

Definition recordFailure (img : taggedImage) (e : string) : M world unit :=
  (setField (t_serviceName img) "error_message" (VStr e) ;;;
   setField (t_serviceName img) "status" (VStr "failed"))%M.

Definition pushAttempt (index : nat) (img : taggedImage) (attempt : nat) : M world string :=
  (emit (Push index (localImage img) attempt) ;;;
   lift (pushResult E index attempt))%M.

(** The chain of one image in [pushAndUpdateServiceImages]. *)
Definition pushAndUpdateServiceImage
    (afterEach : option (taggedImage -> M world unit)) (index : nat) (img : taggedImage)
  : M world unit :=
  finally
    (tapCatch
       (promiseJoin
          (emit (Inspect (localImage img)) ;;; lift (inspectSize E (localImage img)))%M
          (retry (pushAttempt index img)
                 3                    (* [times] - retry 3 times *)
                 (localImage img)     (* [label] *)
                 2000                 (* [delayMs] - wait 2 seconds before the 1st retry *)
                 (14 # 10)            (* [backoffScaler] - 1.4, wait multiplier for each retry *)
                 0)
          (recordSuccess img))
       (recordFailure img))
    (match afterEach with
     | Some callback => (emit (Callback index) ;;; callback img)%M
     | None => ret tt
     end).

Definition pushAndUpdateServiceImages (token : jsval) (images : list taggedImage)
    (afterEach : option (taggedImage -> M world unit)) : M world (list unit) :=
  promiseMap (pushAndUpdateServiceImage afterEach) 0 images.

(** The callback [deployProject] passes to the push stage. *)
Definition saveImage (skipLogUpload : bool) (img : taggedImage) : M world unit :=
  let sn := t_serviceName img in
  (store <- gets serviceImages ;;
   emit (Log ("Saving image "
                +:+ toString (field (default ∅ (store !! sn)) "is_stored_at__image_location"))) ;;;
   (if skipLogUpload then deleteField sn "build_log" else ret tt) ;;;
   store <- gets serviceImages ;;
   let serviceImage := default ∅ (store !! sn) in
   emit (UpdateImage (field serviceImage "id") serviceImage) ;;;
   lift (updateImageResult E (field serviceImage "id") serviceImage))%M.

Definition omit (keys : list string) (m : gmap string jsval) : gmap string jsval :=
  fold_left (fun m key => delete key m) keys m.

(** [createRelease]: the release and its service images, without the
    fields the backend owns. *)
Definition createRelease : M world unit :=
  (r <- lift (created E) ;;
   modify (fun w =>
     mkWorld
       (omit ["created_at"; "is_a_build_of__service"; "__metadata"] <$> snd r)
       (omit ["created_at"; "belongs_to__application"; "is_created_by__user"; "__metadata"]
             (fst r))
       (trace w)))%M.

(** The stage between the creation of the release and its last update:
    tag, authorize, push and record, untag. *)
Definition tagAndPush (images : list builtImage) (skipLogUpload : bool)
  : M world (list taggedImage) :=
  tap (tagServiceImages images)
      (fun taggedImages =>
         finally
           (previousRepos <- getPreviousRepos ;;
            token <- match taggedImages with
                     | [] => throw "TypeError: Cannot read property 'registry' of undefined"
                     | first :: _ =>
                         authorizePush (registry first) (map repo taggedImages) previousRepos
                     end ;;
            emit (Log "Pushing images to registry...") ;;;
            pushAndUpdateServiceImages token taggedImages (Some (saveImage skipLogUpload)) ;;;
            ret tt)%M
           (emit (Log "Untagging images...") ;;;
            promiseMap (fun _ img =>
                          emit (Remove (localImage img)) ;;;
                          lift (removeResult E (localImage img))) 0 taggedImages ;;;
            ret tt)%M).

(** The last step: it runs whatever the stage did. *)
Definition saveRelease : M world unit :=
  (setRelease "end_timestamp" (VDate (now E)) ;;;
   r <- gets release ;;
   if isNullish (field r "id") then ret tt
   else
     emit (UpdateRelease (field r "id") r) ;;;
     lift (updateReleaseResult E (field r "id") r))%M.

Definition deployProject (images : list builtImage) (skipLogUpload : bool)
  : M world (gmap string jsval) :=
  (createRelease ;;;
   finally
     (tapCatch
        (tagAndPush images skipLogUpload ;;;
         setRelease "status" (VStr "success"))
        (fun _ => setRelease "status" (VStr "failed")))
     saveRelease ;;;
   gets release)%M.

End WithEnv.

(** The releases the backend was asked to store. *)
Definition savedReleases (t : list event) : list (gmap string jsval) :=
  omap (fun e => match e with UpdateRelease _ r => Some r | _ => None end) t.

(** The attempts to push the image at [index]. *)
Definition pushesOf (index : nat) (t : list event) : list nat :=
  omap (fun e => match e with
                 | Push i _ attempt => if (i =? index)%nat then Some attempt else None
                 | _ => None
                 end) t.

(** The entries into the callback for the image at [index]. *)
Definition callbacksOf (index : nat) (t : list event) : nat :=
  length (List.filter (fun e => match e with
                                | Callback i => (i =? index)%nat
                                | _ => false
                                end) t).

End Deploy.

(** ** lib/utils/qemu.ts: the emulator inside a build context *)

Module QemuContext.
Import JS Qemu.

Section WithEnv.
Variable E : env.

(** [path.relative] of Node's path module. *)
Variable relative : string -> string -> string.

Definition qemuPathInContext (context : string) : string :=
  let binDir := pathJoin E context ".balena" in
  let binPath := pathJoin E binDir QEMU_BIN_NAME in
  relative context binPath.

(** [fs.createReadStream(p)], read to its end: a file that was opened for
    writing and never written is empty; a missing file is an error, as is
    whatever else the host fails the open with. *)
Definition readStream (p : string) : M world string :=
  fun w =>
    match fsError E (OpenRead p) with
    | Some e => (Throw e, w)
    | None =>
        match files w !! p with
        | Some f => (Ok (content f), w)
        | None =>
            (Throw ("Error: ENOENT: no such file or directory, open '" +:+ p +:+ "'"), w)
        end
    end.

(** [copyQemu(context, arch)].  Both streams are opened before either can
    fail, so the target exists from then on when the host lets it be
    opened; each stream's error rejects, the read stream's first.  When the
    copy has finished the target is made executable. *)
Definition copyQemu (context arch : string) : M world string :=
  let binDir := pathJoin E context ".balena" in
  let binPath := pathJoin E binDir QEMU_BIN_NAME in
  (mkdirp E binDir ;;;
   qemu <- getQemuPath E arch ;;
   failed <- createWriteStream E binPath ;;
   data <- readStream qemu ;;
   match failed with
   | Some e => throw e
   | None =>
       writeFile binPath (Written data) ;;;
       chmod E binPath "755" ;;;
       ret (relative context binPath)
   end)%M.

End WithEnv.
End QemuContext.

(** ** lib/utils/compose.js: from the build output to the built images *)

Module Build.
Import JS Compose.

(** [task.streamHook] for a build without emulation, one line of the log
    stream: lines that are blank are dropped; the others are captured in
    the task's buffer, then turned into an event for the task's renderer
    stream.  The result is the buffer, the adapter's closure and the events
    that reach the renderer. *)
Definition streamHook (inline : bool) (buffer : list jsval) (a : adapter) (line : string)
  : res (list jsval * adapter * list jsval) :=
  match dropEmptyLinesStream line with
  | None => Ok (buffer, a, [])
  | Some str =>
      match buildLogCapture buffer (VStr str) with
      | Throw e => Throw e
      | Ok (buffer, data) =>
          let '(a, event) :=
            buildProgressAdapter inline a
              (match data with VStr s => Some s | _ => None end) in
          Ok (buffer, a, [event])
      end
  end.

(** The lines of a log stream, one after the other. *)
Fixpoint streamLines (inline : bool) (buffer : list jsval) (a : adapter) (lines : list string)
  : res (list jsval * adapter * list jsval) :=
  match lines with
  | [] => Ok (buffer, a, [])
  | line :: rest =>
      match streamHook inline buffer a line with
      | Throw e => Throw e
      | Ok (buffer, a, events) =>
          match streamLines inline buffer a rest with
          | Throw e => Throw e
          | Ok (buffer, a, events') => Ok (buffer, a, (events ++ events')%list)
          end
      end
  end.

(** [task.progressHook] of an image that is pulled: the adapter writes the
    event into the capture stream, which logs it and hands it on to the
    task's renderer stream.  The result is the buffer and that event. *)
Definition progressHook (buffer : list jsval) (ev : jsval) : res (list jsval * jsval) :=
  match pullProgressAdapter ev with
  | Throw e => Throw e
  | Ok written => buildLogCapture buffer written
  end.

(** [buffer.join('\n')]: [undefined] and [null] are joined as empty
    strings. *)
Definition joinBuffer (buffer : list jsval) : string :=
  joinLines (map (fun v => if isNullish v then "" else toString v) buffer).

(** What [builder.performBuilds] reports for a service. *)
Record localImage : Type := mkLocal {
  l_serviceName : string;
  successful : bool;
  error : option string;
  dockerfile : jsval;
  projectType : jsval;
  startTime : jsval;
  endTime : jsval
}.

(** An image as [buildProject] returns it. *)
Record image : Type := mkImage {
  serviceName : string;
  name : jsval;
  logs : string;
  props : gmap string jsval
}.

Section WithLibs.
(** [new Date(v)], [humanize.filesize] and the daemon's answer to
    [getImage(name).inspect()], its [Size]. *)
Variable newDate : jsval -> jsval.
Variable filesize : jsval -> string.
Variable inspectSize : jsval -> res jsval.

(** [_.find(tasks, { serviceName })] *)
Definition findTask (tasks : list BuildOptions.buildTask) (sn : string)
  : option BuildOptions.buildTask :=
  List.find (fun task => String.eqb (BuildOptions.serviceName task) sn) tasks.

(** The callback that [buildProject] maps over the results of the builds.
    An error is known by its message; the service name that the callback
    attaches to it is not part of that. *)
Definition describeImage (descriptors : gmap string BuildOptions.image)
    (tasks : list BuildOptions.buildTask) (builtImage : localImage) : res image :=
  if negb (successful builtImage) then Throw (default "Error" (error builtImage))
  else
    match descriptors !! l_serviceName builtImage with
    | None => Throw "TypeError: Cannot read property 'serviceName' of undefined"
    | Some d =>
        match findTask tasks (l_serviceName builtImage) with
        | None => Throw "TypeError: Cannot read property 'logBuffer' of undefined"
        | Some task =>
            match BuildOptions.logBuffer task with
            | None => Throw "TypeError: Cannot read property 'join' of undefined"
            | Some buffer =>
                let name := match d with
                            | BuildOptions.ImageName n => VStr n
                            | BuildOptions.ImageBuild spec => field spec "tag"
                            end in
                let logs := truncateString (joinBuffer buffer) LOG_LENGTH_MAX in
                let props : gmap string jsval :=
                  {[ "dockerfile" := dockerfile builtImage;
                     "projectType" := projectType builtImage ]} in
                (* Times here are timestamps, so test whether they're null
                   before creating a date out of them *)
                let props := if truthy (startTime builtImage)
                             then <["startTime" := newDate (startTime builtImage)]> props
                             else props in
                let props := if truthy (endTime builtImage)
                             then <["endTime" := newDate (endTime builtImage)]> props
                             else props in
                match inspectSize name with
                | Throw e => Throw e
                | Ok size =>
                    Ok (mkImage (l_serviceName builtImage) name logs
                                (<["size" := size]> props))
                end
            end
        end
    end.

(** The summary [buildProject] hands to [renderer.end]: a line per
    service; of two images of one service the later one counts. *)
Definition summary (images : list image) : gmap string jsval :=
  list_to_map
    (rev (map (fun i => (serviceName i,
                         VStr ("Image size: " +:+ filesize (field (props i) "size"))))
              images)).

End WithLibs.

(** A composition once it is parsed. *)
Record project : Type := mkProject {
  path : string;
  p_name : string;
  composition : jsval;
  descriptors : list (string * BuildOptions.image)
}.

Section WithParser.
(** [yml.safeLoad] followed by [compose.normalize], [compose.parse] (the
    descriptors, each a service name and its image) and [path.basename].
    The library calls may throw. *)
Variable load : string -> res jsval.
Variable parse : jsval -> res (list (string * BuildOptions.image)).
Variable basename : string -> string.

(** The callback [createProject] maps over the descriptors: generate an
    image name based on the project and service names if one is not given
    and the service requires a build. *)
Definition nameImage (projectName : string) (descr : string * BuildOptions.image)
  : string * BuildOptions.image :=
  match snd descr with
  | BuildOptions.ImageName _ => descr
  | BuildOptions.ImageBuild spec =>
      if negb (isNullish (field spec "context")) && isNullish (field spec "tag")
      then (fst descr,
            BuildOptions.ImageBuild
              (<["tag" := VStr (BuildOptions.defaultTag projectName (fst descr))]> spec))
      else descr
  end.

Definition createProject (composePath composeStr : string) (projectName : option string)
  : res project :=
  (* both methods below may throw. *)
  match load composeStr with
  | Throw e => Throw e
  | Ok composition =>
      let projectName := match projectName with
                         | Some n => n
                         | None => basename composePath
                         end in
      match parse composition with
      | Throw e => Throw e
      | Ok parsed =>
          Ok (mkProject composePath projectName composition
                        (map (nameImage projectName) parsed))
      end
  end.

End WithParser.

End Build.

(** ** Vocabulary of the statements, and sample data *)

Module Samples.
Import JS.

(** [s] holds no [c]. *)
Definition lacks (c : ascii) (s : string) : bool :=
  allChars (fun a => negb (Ascii.eqb a c)) s.

(** Where the emulator for [arch] is cached. *)
Definition cachePath (E : Qemu.env) (arch : string) : string :=
  Qemu.pathJoin E (Qemu.binDirectory E)
                (Qemu.QEMU_BIN_NAME +:+ "-" +:+ arch +:+ "-" +:+ Qemu.QEMU_VERSION).

(** The entries of an archive whose name mentions the static emulator. *)
Definition emulatorEntries (qemuArch : string) (entries : list (string * string))
  : list (string * string) :=
  List.filter (fun entry => Qemu.includes ("qemu-" +:+ qemuArch +:+ "-static") (fst entry))
              entries.

(** What the first of them holds; nothing when there is none. *)
Definition staticEmulator (qemuArch : string) (entries : list (string * string)) : string :=
  match emulatorEntries qemuArch entries with
  | [] => ""
  | entry :: _ => snd entry
  end.

(** No entry after the first of them holds anything. *)
Definition writesOnce (qemuArch : string) (entries : list (string * string)) : bool :=
  match emulatorEntries qemuArch entries with
  | [] => true
  | _ :: later => forallb (fun entry => (snd entry =? "")%string) later
  end.

(** The disk once the binaries directory is made, the cache file of [arch]
    holds [f], and the events [t] have happened. *)
Definition cached (E : Qemu.env) (arch : string) (f : Qemu.file) (t : list Qemu.event)
    (w : Qemu.world) : Qemu.world :=
  Qemu.mkWorld ({[Qemu.binDirectory E]} ∪ Qemu.dirs w)
               (<[cachePath E arch := f]> (Qemu.files w))
               (Qemu.trace w ++ t).

(** [path.join] of POSIX on a directory and a name that need no
    normalisation. *)
Definition joinPlain (dir name : string) : string := dir +:+ "/" +:+ name.

(** A completed layer, as the daemon reports it. *)
Definition layerComplete : gmap string jsval :=
  {[ "status" := VStr "Status: Download complete"; "id" := VStr "6f2b";
     "percentage" := VNum 100 ]}.

(** A Linux host with a plain Docker daemon, an empty cache, a release
    archive that holds the static emulator, and a disk that takes every
    call. *)
Definition linuxHost : Qemu.env :=
  Qemu.mkEnv "/home/user/.balena/bin"
             (Ok ("Ubuntu 18.04.2 LTS", "x86_64"))
             (fun _ => Ok [("qemu-4.0.0+balena2-arm/qemu-arm-static", "ELF")])
             joinPlain
             (fun _ => None).

Definition emptyDisk : Qemu.world := Qemu.mkWorld ∅ ∅ [].

(** The same host, served an archive that holds the emulator twice. *)
Definition doubleArchive : Qemu.env :=
  Qemu.mkEnv "/home/user/.balena/bin"
             (Ok ("Ubuntu 18.04.2 LTS", "x86_64"))
             (fun _ => Ok [("qemu-4.0.0+balena2-arm/qemu-arm-static", "ELF");
                           ("backup/qemu-arm-static", "ELF")])
             joinPlain
             (fun _ => None).


(** A task that comes with labels, a caller who names a tag and a label,
    and a service built from its own directory. *)
Definition labelledTask : BuildOptions.buildTask :=
  BuildOptions.mkTask "main" None
    (Some {[ "labels" := VObj {[ "a" := VStr "1" ]} ]}) false None None.

Definition callerOpts : gmap string jsval :=
  {[ "t" := VStr "custom"; "labels" := VObj {[ "b" := VStr "2" ]} ]}.

Definition oneService : gmap string BuildOptions.image :=
  {[ "main" := BuildOptions.ImageBuild {[ "context" := VStr "." ]} ]}.








(** A computation of the deploy pipeline that leaves the release object
    alone and asks for no release to be saved. *)
Definition quiet {A} (m : M Deploy.world A) : Prop :=
  forall w,
    Deploy.release (snd (m w)) = Deploy.release w /\
    Deploy.savedReleases (Deploy.trace (snd (m w)))
    = Deploy.savedReleases (Deploy.trace w).

(** The waits of the push stage, in milliseconds. *)
Definition pushDelays : list Q := [2000 # 1; 2800 # 1; 3920 # 1]%Q.

(** What the pushes of one image look like from outside when the first
    [failures] attempts fail: an attempt, then a wait and an attempt for
    every failure, the waits taken from [delays] in order. *)
Fixpoint attempts (index : nat) (name : string) (delays : list Q)
    (failures count : nat) {struct failures} : list Deploy.event :=
  Deploy.Push index name count ::
  match failures, delays with
  | S failures', d :: delays' =>
      Deploy.Delay name d :: attempts index name delays' failures' (S count)
  | _, _ => []
  end.

(** The number of failed attempts before the first success, at most 3. *)
Definition failuresBefore (results : nat -> res string) : nat :=
  if is_ok (results 0%nat) then 0
  else if is_ok (results 1%nat) then 1
  else if is_ok (results 2%nat) then 2
  else 3.

(** What decides the record of the image at [index]: the size the daemon
    reports and the digest of the last push attempt, or the error of the
    inspection or of that attempt. *)
Definition ownOutcome (E : Deploy.env) (index : nat) (img : Deploy.taggedImage)
  : res (Z * string) :=
  match Deploy.inspectSize E (Deploy.localImage img),
        Deploy.pushResult E index (failuresBefore (Deploy.pushResult E index)) with
  | Ok size, Ok digest => Ok (size, digest)
  | Throw e, _ => Throw e
  | Ok _, Throw e => Throw e
  end.

(** What the chain of the image at [index] shows to the outside: the
    inspection, the push attempts with their waits, the entry into the
    callback and the update of the image's record. *)
Definition chainEvents (E : Deploy.env) (index : nat) (img : Deploy.taggedImage)
    (msg : string) (record : gmap string jsval) : list Deploy.event :=
  (Deploy.Inspect (Deploy.localImage img) ::
   attempts index (Deploy.localImage img) pushDelays
            (failuresBefore (Deploy.pushResult E index)) 0 ++
   [Deploy.Callback index; Deploy.Log msg;
    Deploy.UpdateImage (field record "id") record])%list.

(** The final state of a record, as its own outcome decides it. *)
Definition settled (outcome : res (Z * string)) (record : gmap string jsval) : Prop :=
  match outcome with
  | Ok (size, digest) =>
      record !! "status" = Some (VStr "success") /\
      record !! "image_size" = Some (VNum size) /\
      record !! "content_hash" = Some (VStr digest)
  | Throw e =>
      record !! "status" = Some (VStr "failed") /\
      record !! "error_message" = Some (VStr e)
  end.

(** Two services.  The registry refuses every push of the first image and
    takes the second at once; everything else succeeds. *)
Definition twoTagged : list Deploy.taggedImage :=
  [ Deploy.mkTagged "db" "registry.example/v2/db:latest" "registry.example" "v2/db"
                    (VStr "log of db") ∅;
    Deploy.mkTagged "web" "registry.example/v2/web:latest" "registry.example" "v2/web"
                    (VStr "log of web") ∅ ].

Definition flakyRegistry : Deploy.env :=
  Deploy.mkEnv
    (Ok ({[ "id" := VNum 7 ]},
         {[ "db" := {[ "id" := VNum 1;
                       "is_stored_at__image_location" := VStr "registry.example/v2/db" ]};
            "web" := {[ "id" := VNum 2;
                        "is_stored_at__image_location" := VStr "registry.example/v2/web" ]} ]}))
    (fun _ _ _ => Ok tt)
    (Ok None)
    (fun name => Ok name)
    (fun _ _ => Ok (VStr "token"))
    (fun _ => Ok 1024)
    (fun index attempt =>
       match index with
       | O => Throw "Error: unauthorized"
       | _ => Ok "sha256:0a1b"
       end)
    (fun _ _ => Ok tt)
    (fun _ => Ok tt)
    (fun _ _ => Ok tt)
    1600000000000.

(** A registry that takes every push, and a daemon that then refuses to
    remove the local tags. *)
Definition stuckTags : Deploy.env :=
  Deploy.mkEnv
    (Deploy.created flakyRegistry)
    (fun _ _ _ => Ok tt)
    (Ok None)
    (fun name => Ok name)
    (fun _ _ => Ok (VStr "token"))
    (fun _ => Ok 1024)
    (fun _ _ => Ok "sha256:0a1b")
    (fun _ _ => Ok tt)
    (fun _ => Throw "Error: conflict: image is being used")
    (fun _ _ => Ok tt)
    1600000000000.

Definition twoRecords : Deploy.world :=
  Deploy.mkWorld
    {[ "db" := {[ "id" := VNum 1 ]}; "web" := {[ "id" := VNum 2 ]} ]}
    {[ "id" := VNum 7 ]}
    [].

Definition twoBuilt : list Deploy.builtImage :=
  [ Deploy.mkImage "db" "proj_db" (VStr "log of db") ∅;
    Deploy.mkImage "web" "proj_web" (VStr "log of web") ∅ ].

Definition blank : Deploy.world := Deploy.mkWorld ∅ ∅ [].

(** Libraries that leave text as it is, a terminal of 80 columns, and an
    interactive renderer that was started for one service. *)
Definition plainLibs : Renderer.libs :=
  Renderer.mkLibs (fun s => s) (fun s => s) (fun s _ => s) strlen
                  (fun seconds => showZ seconds +:+ " seconds").

Definition idleHost : Renderer.host := Renderer.mkHost [] 0 ∅ 0 1000 80 None.

Definition startedUI : Renderer.BuildProgressUI.ui * Renderer.host :=
  Renderer.BuildProgressUI.start
    (Renderer.BuildProgressUI.new plainLibs ["main"], idleHost).

(** What the last frame of the interactive renderer says of the build. *)
Definition finalStatus (L : Renderer.libs) (u : Renderer.BuildProgressUI.ui)
    (h : Renderer.host) : string :=
  if Renderer.BuildProgressUI._cancelled u then "Build cancelled"
  else "Built " +:+ Renderer.serviceStr (Renderer.BuildProgressUI._services u) +:+ " in "
         +:+ Renderer.durationStr L (Renderer.BuildProgressUI._startTime u) h.

(** What that frame says of a service: the summary's entry or, without a
    summary, the line of the service's last event. *)
Definition finalText (summary : option (gmap string jsval))
    (u : Renderer.BuildProgressUI.ui) (service : string) : string :=
  match summary with
  | Some m => toString (field m service)
  | None =>
      Renderer.BuildProgressUI.summaryLine
        (default (VObj ∅) (Renderer.BuildProgressUI._serviceToDataMap u !! service))
  end.

(** The row of a service in that frame, cut to the width of the window. *)
Definition finalRow (L : Renderer.libs) (summary : option (gmap string jsval))
    (u : Renderer.BuildProgressUI.ui) (h : Renderer.host) (service : string) : string :=
  Renderer.truncate L
    (Renderer.padEnd (Renderer.BuildProgressUI._prefix u +:+ Renderer.bold L service)
                     (Renderer.BuildProgressUI._prefixWidth u)
       +:+ finalText summary u service)
    (Renderer.windowWidth h).

(** What the inline renderer writes for an event of a service. *)
Definition inlineText (event : jsval) : string :=
  if truthy (field (props event) "error") then toString (field (props event) "error")
  else if truthy (field (props event) "status") then toString (field (props event) "status")
  else "Waiting...".

Definition inlineRow (L : Renderer.libs) (i : Renderer.BuildProgressInline.inline)
    (service : string) (event : jsval) : list Renderer.ttyOp :=
  [Renderer.Write (Renderer.padEnd (Renderer.bold L service)
                                   (Renderer.BuildProgressInline._prefixWidth i));
   Renderer.Write (inlineText event);
   Renderer.Write (String newline "")].

(** The line that closes the output of the inline renderer. *)
Definition closingLine (L : Renderer.libs) (i : Renderer.BuildProgressInline.inline)
    (h : Renderer.host) : string :=
  "Built " +:+ Renderer.serviceStr (Renderer.BuildProgressInline._services i) +:+ " in "
    +:+ Renderer.durationStr L (Renderer.BuildProgressInline._startTime i) h
    +:+ String newline "".

End Samples.
Import Samples.

(** ** Vocabulary of the further statements *)

Module Observations.
Import JS.

(** Where [copyQemu] puts the emulator of a build context. *)
Definition contextDir (E : Qemu.env) (context : string) : string :=
  Qemu.pathJoin E context ".balena".

Definition contextBin (E : Qemu.env) (context : string) : string :=
  Qemu.pathJoin E (contextDir E context) Qemu.QEMU_BIN_NAME.

(** What a read of a file yields. *)
Definition contents (f : option Qemu.file) : string :=
  match f with
  | Some f => Qemu.content f
  | None => ""
  end.

(** [path.relative(from, to)] for a target below the directory [from]. *)
Definition below (from to : string) : string :=
  default to (stripPrefix (from +:+ "/") to).

(** A line that [dropEmptyLinesStream] lets through. *)
Definition nonblank (line : string) : bool := negb (allChars isSpace line).

(** The lines a sequence of terminal operations writes. *)
Definition linesWritten (ops : list Renderer.ttyOp) : nat :=
  length (List.filter (fun op => match op with
                                 | Renderer.WriteLine _ => true
                                 | _ => false
                                 end) ops).

(** A line that is neither a step line nor the line of the final tag. *)
Definition plainLine (line : string) : bool :=
  match Compose.stepRegex line with
  | Some _ => false
  | None => negb (startsWith "Successfully tagged " line)
  end.

(** A layer half-way through its download. *)
Definition layerHalf : gmap string jsval :=
  {[ "status" := VStr "Status: Downloading"; "id" := VStr "6f2b";
     "percentage" := VNum 50 ]}.

(** A build cache holding the lines of one service. *)
Definition webTask : BuildOptions.buildTask :=
  BuildOptions.mkTask "web" (Some "proj_web") None false (Some "web")
    (Some [VStr "Step 1/1 : FROM scratch"; VStr "Successfully built 0a1b"]).

Definition webBuilt : Build.localImage :=
  Build.mkLocal "web" true None (VStr "Dockerfile") (VStr "Standard Dockerfile")
                (VNum 1600000000000) (VNum 0).

Definition webService : gmap string BuildOptions.image :=
  {[ "web" := BuildOptions.ImageBuild
                {[ "context" := VStr "."; "tag" := VStr "proj_web" ]} ]}.

(** [new Date(v)] for a timestamp. *)
Definition epochDate (v : jsval) : jsval :=
  match v with
  | VNum ms => VDate ms
  | _ => v
  end.

(** The build of the service [main] as the builder reports it. *)
Definition mainBuilt : Build.localImage :=
  Build.mkLocal "main" true None VUndefined VUndefined VUndefined VUndefined.

Definition webImage : Build.image :=
  Build.mkImage "web" (VStr "proj_web") "" {[ "size" := VNum 1024 ]}.

(** A string without line terminators. *)
Definition oneLine (s : string) : bool :=
  allChars (fun c => negb (isLineTerminator c)) s.

(** A computation of the deploy pipeline that only adds to the trace, and
    only events that satisfy [Q]. *)
Definition emits (Q : Deploy.event -> Prop) {A} (m : M Deploy.world A) : Prop :=
  forall w, exists tail,
    Deploy.trace (snd (m w)) = (Deploy.trace w ++ tail)%list /\ Forall Q tail.

(** The local tags the daemon was asked to remove. *)
Definition removals (t : list Deploy.event) : list string :=
  omap (fun e => match e with Deploy.Remove name => Some name | _ => None end) t.

(** An event that sends no build log to the backend. *)
Definition withoutLog (e : Deploy.event) : Prop :=
  match e with
  | Deploy.UpdateImage _ record => record !! "build_log" = None
  | _ => True
  end.

(** An event of the tagging. *)
Definition isTag (e : Deploy.event) : Prop :=
  match e with
  | Deploy.TagImage _ _ _ => True
  | _ => False
  end.

(** An event that is neither a push nor the removal of a tag. *)
Definition aside (e : Deploy.event) : Prop :=
  match e with
  | Deploy.Push _ _ _ | Deploy.Remove _ => False
  | _ => True
  end.

(** An event of the look-up of the previous release, of the log, or of
    the last update of the release. *)
Definition bookkeeping (e : Deploy.event) : Prop :=
  match e with
  | Deploy.QueryPreviousRelease | Deploy.RegistryAndName _ | Deploy.Log _
  | Deploy.UpdateRelease _ _ => True
  | _ => False
  end.

(** An event that removes no tag. *)
Definition keepsTags (e : Deploy.event) : Prop :=
  match e with
  | Deploy.Remove _ => False
  | _ => True
  end.

(** The records of the two services and of a third that is not deployed. *)
Definition threeRecords : Deploy.world :=
  Deploy.mkWorld
    {[ "db" := {[ "id" := VNum 1 ]}; "web" := {[ "id" := VNum 2 ]};
       "cache" := {[ "id" := VNum 3; "status" := VStr "running" ]} ]}
    {[ "id" := VNum 7 ]}
    [].

(** A composition of a service that is built and one that is pulled. *)
Definition parsedServices (_ : jsval) : res (list (string * BuildOptions.image)) :=
  Ok [ ("main", BuildOptions.ImageBuild {[ "context" := VStr "." ]});
       ("db", BuildOptions.ImageName "postgres:12") ].

(** A daemon that cannot be reached. *)
Definition noDaemon : Deploy.env :=
  Deploy.mkEnv
    (Deploy.created flakyRegistry)
    (fun _ _ _ => Throw "Error: connect ENOENT /var/run/docker.sock")
    (Ok None)
    (fun name => Ok name)
    (fun _ _ => Ok (VStr "token"))
    (fun _ => Ok 1024)
    (fun _ _ => Ok "sha256:0a1b")
    (fun _ _ => Ok tt)
    (fun _ => Ok tt)
    (fun _ _ => Ok tt)
    1600000000000.

(** A daemon, a registry and a backend that grant everything. *)
Definition obliging : Deploy.env :=
  Deploy.mkEnv
    (Deploy.created flakyRegistry)
    (fun _ _ _ => Ok tt)
    (Ok None)
    (fun name => Ok name)
    (fun _ _ => Ok (VStr "token"))
    (fun _ => Ok 1024)
    (fun _ _ => Ok "sha256:0a1b")
    (fun _ _ => Ok tt)
    (fun _ => Ok tt)
    (fun _ _ => Ok tt)
    1600000000000.

(** The world right after the release of [flakyRegistry] was created. *)
Definition released : Deploy.world :=
  snd (Deploy.createRelease flakyRegistry blank).

End Observations.
Import Observations.

(** * Properties *)

(** ** Strings *)

Section StringFacts.
Import JS.

Lemma take_length (n : nat) (s : string) :
  String.length (take n s) = Nat.min n (String.length s).
Proof.
  revert s; induction n as [|n IH]; intros [|a s]; simpl; auto.
Qed.

Lemma take_all (n : nat) (s : string) :
  (String.length s <= n)%nat -> take n s = s.
Proof.
  revert s; induction n as [|n IH]; intros [|a s]; simpl; intros H; auto.
  - lia.
  - f_equal. apply IH. lia.
Qed.

Lemma take_take (n m : nat) (s : string) :
  take n (take m s) = take (Nat.min n m) s.
Proof.
  revert m s; induction n as [|n IH]; intros [|m] [|a s]; simpl; auto.
  f_equal. apply IH.
Qed.

Lemma charAt_take (n k : nat) (s : string) :
  (k < n)%nat -> charAt (take n s) k = charAt s k.
Proof.
  revert k s; induction n as [|n IH]; intros k [|a s] H; simpl; auto.
  - lia.
  - destruct k as [|k]; simpl; auto. apply IH. lia.
Qed.

Lemma slice_from_zero (s : string) (e : Z) :
  0 <= e -> slice s 0 e = take (Z.to_nat e) s.
Proof.
  intros He. unfold slice, clampIndex, strlen.
  assert (H0 : (0 <? 0) = false) by reflexivity.
  rewrite H0.
  destruct (e <? 0) eqn:Hlt; [apply Z.ltb_lt in Hlt; lia|].
  rewrite (Z.min_l 0) by lia. simpl drop.
  destruct (Z.le_ge_cases e (Z.of_nat (String.length s))) as [Hle|Hge].
  - rewrite Z.min_l by lia.
    replace (Z.max (e - 0) 0) with e by lia. reflexivity.
  - rewrite Z.min_r by lia.
    replace (Z.max (Z.of_nat (String.length s) - 0) 0)
      with (Z.of_nat (String.length s)) by lia.
    rewrite Nat2Z.id.
    rewrite !take_all; auto; lia.
Qed.

Lemma slice_drop_last (s : string) :
  slice s 0 (-1) = take (Nat.pred (String.length s)) s.
Proof.
  unfold slice, clampIndex, strlen.
  assert (H0 : (0 <? 0) = false) by reflexivity.
  assert (H1 : (-1 <? 0) = true) by reflexivity.
  rewrite H0, H1. rewrite (Z.min_l 0) by lia. simpl drop.
  f_equal. lia.
Qed.

Lemma lastIndexOfFrom_lacks (c : ascii) (s : string) (i : Z) :
  lacks c s = true -> lastIndexOfFrom c s i = -1.
Proof.
  revert i; induction s as [|a s IH]; intros i H; simpl in *; auto.
  apply andb_true_iff in H as [Ha Hs].
  rewrite (IH _ Hs). simpl.
  apply negb_true_iff in Ha. rewrite Ha. reflexivity.
Qed.

Lemma lastIndexOfFrom_found (c : ascii) (s : string) (i : Z) :
  0 <= i -> lacks c s = false ->
  i <= lastIndexOfFrom c s i < i + strlen s /\
  charAt s (Z.to_nat (lastIndexOfFrom c s i - i)) = Some c.
Proof.
  revert i; induction s as [|a s IH]; intros i Hi H; [discriminate|].
  assert (Hl : lacks c (String a s) = negb (Ascii.eqb a c) && lacks c s)
    by reflexivity.
  rewrite Hl in H. clear Hl.
  assert (Hlen : strlen (String a s) = 1 + strlen s).
  { unfold strlen. simpl String.length. lia. }
  rewrite Hlen. cbn [lastIndexOfFrom].
  destruct (lacks c s) eqn:Hs.
  - rewrite (lastIndexOfFrom_lacks _ _ _ Hs).
    rewrite andb_true_r in H. apply negb_false_iff in H.
    change (0 <=? -1) with false. cbv iota. rewrite H.
    apply Ascii.eqb_eq in H. subst a.
    replace (i - i) with 0 by lia.
    split; [unfold strlen; lia|reflexivity].
  - destruct (IH (i + 1) ltac:(lia) eq_refl) as [Hr Hc].
    destruct (0 <=? lastIndexOfFrom c s (i + 1)) eqn:Hpos;
      [|apply Z.leb_gt in Hpos; lia].
    split; [lia|].
    replace (Z.to_nat (lastIndexOfFrom c s (i + 1) - i))
      with (S (Z.to_nat (lastIndexOfFrom c s (i + 1) - (i + 1)))) by lia.
    exact Hc.
Qed.

Lemma repeatChar_length (c : ascii) (n : nat) : String.length (repeatChar c n) = n.
Proof. induction n; simpl; auto. Qed.

Lemma repeatChar_take (c : ascii) (n m : nat) :
  (n <= m)%nat -> take n (repeatChar c m) = repeatChar c n.
Proof.
  revert m; induction n as [|n IH]; intros [|m] H; simpl; auto.
  - lia.
  - f_equal. apply IH. lia.
Qed.

Lemma repeatChar_lacks (c d : ascii) (n : nat) :
  Ascii.eqb d c = false -> lacks c (repeatChar d n) = true.
Proof.
  intros H. unfold lacks. induction n; simpl; auto. rewrite H. exact IHn.
Qed.

Lemma repeatChar_charAt (c : ascii) (n k : nat) :
  (k < n)%nat -> charAt (repeatChar c n) k = Some c.
Proof.
  revert k; induction n as [|n IH]; intros k H; [lia|].
  destruct k; simpl; auto. apply IH. lia.
Qed.

End StringFacts.

(** ** Log truncation *)

Section Truncation.
Import JS Compose.

(** A log shorter than the cap is kept as it is. *)
Lemma truncateString_short (str : string) (len : Z) :
  strlen str < len -> truncateString str len = str.
Proof.
  intros H. unfold truncateString.
  apply Z.ltb_lt in H. rewrite H. reflexivity.
Qed.

(** The result is always a prefix of the log, no longer than the cap. *)
Lemma truncateString_prefix (str : string) (len : Z) :
  0 <= len ->
  exists n : nat, truncateString str len = take n str /\
                  (strlen str < len \/ Z.of_nat n <= len).
Proof.
  intros Hlen. unfold truncateString.
  destruct (strlen str <? len) eqn:Hs.
  - exists (String.length str). apply Z.ltb_lt in Hs.
    split; [symmetry; apply take_all; lia | left; exact Hs].
  - apply Z.ltb_ge in Hs. rewrite (slice_from_zero str len Hlen).
    set (s1 := take (Z.to_nat len) str).
    assert (Hl1 : String.length s1 = Z.to_nat len).
    { unfold s1. rewrite take_length. unfold strlen in Hs. lia. }
    destruct (lacks newline s1) eqn:Hn.
    + unfold lastIndexOf. rewrite (lastIndexOfFrom_lacks _ _ _ Hn).
      rewrite slice_drop_last. unfold s1 at 2. rewrite take_take.
      eexists; split; [reflexivity|right; lia].
    + destruct (lastIndexOfFrom_found newline s1 0 ltac:(lia) Hn) as [Hr _].
      unfold lastIndexOf. rewrite slice_from_zero by lia.
      unfold s1 at 2. rewrite take_take.
      eexists; split; [reflexivity|right]. unfold strlen in Hr. lia.
Qed.

(** When the first [len] characters of a log at or over the cap hold a
    newline, the log is cut at the last of them: the character that
    follows the result is that newline. *)
Lemma truncateString_at_newline (str : string) (len : Z) :
  0 <= len <= strlen str ->
  lacks newline (take (Z.to_nat len) str) = false ->
  let k := lastIndexOf (take (Z.to_nat len) str) newline in
  0 <= k < len /\
  truncateString str len = take (Z.to_nat k) str /\
  charAt str (Z.to_nat k) = Some newline.
Proof.
  intros [Hlen Hs] Hn k. unfold truncateString.
  destruct (strlen str <? len) eqn:Hlt; [apply Z.ltb_lt in Hlt; lia|].
  rewrite (slice_from_zero str len Hlen). fold k.
  set (s1 := take (Z.to_nat len) str) in *.
  assert (Hl1 : String.length s1 = Z.to_nat len).
  { unfold s1. rewrite take_length. unfold strlen in Hs. lia. }
  destruct (lastIndexOfFrom_found newline s1 0 ltac:(lia) Hn) as [Hr Hc].
  fold (lastIndexOf s1 newline) in Hr, Hc. fold k in Hr, Hc.
  unfold strlen in Hr. rewrite Z.sub_0_r in Hc.
  split; [lia|]. split.
  - rewrite slice_from_zero by lia. unfold s1. rewrite take_take. f_equal. lia.
  - rewrite <- Hc. unfold s1. symmetry. apply charAt_take. lia.
Qed.

(** When they hold none, the last of them is dropped, whatever it is. *)
Lemma truncateString_without_newline (str : string) (len : Z) :
  0 <= len <= strlen str ->
  lacks newline (take (Z.to_nat len) str) = true ->
  truncateString str len = take (Nat.pred (Z.to_nat len)) str.
Proof.
  intros [Hlen Hs] Hn. unfold truncateString.
  destruct (strlen str <? len) eqn:Hlt; [apply Z.ltb_lt in Hlt; lia|].
  rewrite (slice_from_zero str len Hlen).
  unfold lastIndexOf. rewrite (lastIndexOfFrom_lacks _ _ _ Hn).
  rewrite slice_drop_last, take_take, take_length.
  unfold strlen in Hs. f_equal. lia.
Qed.

(** A log of [len + 1] copies of one character that is no newline loses
    its last two characters. *)
Lemma truncateString_repeat (c : ascii) (len : Z) :
  1 <= len -> Ascii.eqb c newline = false ->
  let log := repeatChar c (Z.to_nat (len + 1)) in
  let cut := truncateString log len in
  cut = repeatChar c (Z.to_nat (len - 1)) /\
  strlen cut = len - 1 /\
  charAt log (Z.to_nat (strlen cut)) = Some c.
Proof.
  intros Hlen Hc.
  assert (Hcut : truncateString (repeatChar c (Z.to_nat (len + 1))) len
                 = repeatChar c (Z.to_nat (len - 1))).
  { rewrite truncateString_without_newline.
    - rewrite repeatChar_take by lia. f_equal. lia.
    - unfold strlen. rewrite repeatChar_length. lia.
    - rewrite repeatChar_take by lia. apply repeatChar_lacks. exact Hc. }
  cbv zeta. rewrite Hcut. split; [reflexivity|].
  unfold strlen. rewrite repeatChar_length. split; [lia|].
  apply repeatChar_charAt. lia.
Qed.

(** C2, on the code: a log of 512 KiB + 1 characters without a newline is
    cut one character short of the cap, in the middle of its only line:
    the character after the cut is a letter, not a newline. *)
Theorem truncateString_cuts_mid_line :
  let log := repeatChar "a" (Z.to_nat (LOG_LENGTH_MAX + 1)) in
  let cut := truncateString log LOG_LENGTH_MAX in
  cut = repeatChar "a" (Z.to_nat (LOG_LENGTH_MAX - 1)) /\
  strlen cut = LOG_LENGTH_MAX - 1 /\
  charAt log (Z.to_nat (strlen cut)) = Some "a"%char.
Proof.
  apply (truncateString_repeat "a" LOG_LENGTH_MAX).
  - unfold LOG_LENGTH_MAX. lia.
  - reflexivity.
Qed.

End Truncation.

(** ** Emulator provisioning *)

Section QemuFacts.
Import JS Qemu.

(** C4: the architecture mapping is closed.  [armv7hf], [rpi] and [armhf]
    are served by the [arm] emulator and by nothing else, [aarch64] by the
    [aarch64] emulator, a different one; every other name throws, so the
    mapping returns exactly on these four names. *)
Theorem balenaArchToQemuArch_closed (arch : string) :
  (balenaArchToQemuArch arch = Ok "arm"
   <-> arch = "armv7hf" \/ arch = "rpi" \/ arch = "armhf") /\
  (balenaArchToQemuArch arch = Ok "aarch64" <-> arch = "aarch64") /\
  (balenaArchToQemuArch arch = Throw ("Cannot install emulator for architecture " +:+ arch)
   <-> ~ (arch = "armv7hf" \/ arch = "rpi" \/ arch = "armhf" \/ arch = "aarch64")) /\
  (is_ok (balenaArchToQemuArch arch) = true
   <-> arch = "armv7hf" \/ arch = "rpi" \/ arch = "armhf" \/ arch = "aarch64") /\
  "arm" <> "aarch64".
Proof.
  unfold balenaArchToQemuArch.
  destruct (String.eqb_spec arch "armv7hf") as [->|H1]; simpl.
  { intuition (try discriminate; try congruence). }
  destruct (String.eqb_spec arch "rpi") as [->|H2]; simpl.
  { intuition (try discriminate; try congruence). }
  destruct (String.eqb_spec arch "armhf") as [->|H3]; simpl.
  { intuition (try discriminate; try congruence). }
  destruct (String.eqb_spec arch "aarch64") as [->|H4]; simpl.
  { intuition (try discriminate; try congruence). }
  intuition (try discriminate; try congruence).
Qed.

Lemma requests_app (t u : list event) :
  requests (t ++ u) = (requests t ++ requests u)%list.
Proof. unfold requests. apply omap_app. Qed.

Ltac step := cbn [fst snd files dirs trace negb orb andb] in *.

Ltac run :=
  unfold installQemuIfNeeded, platformNeedsQemu, getQemuPath,
    exists_, mkdirp, writeFile, emit, bind, ret, throw, lift, modify, gets in *;
  step.

(** The install stream after the entries of an archive went by: it holds
    what the first entry that mentions the emulator held, and a later such
    entry that holds anything was an error. *)
Lemma pipeEntries_piped (q : string) (entries : list (string * string)) (data : string) :
  pipeEntries q entries (Some data)
  = (if forallb (fun entry => (snd entry =? "")%string) (emulatorEntries q entries)
     then Ok tt
     else Throw "Error [ERR_STREAM_WRITE_AFTER_END]: write after end",
     Some data).
Proof.
  unfold emulatorEntries.
  induction entries as [|[name d] rest IH]; [reflexivity|].
  cbn [pipeEntries List.filter fst snd].
  destruct (includes ("qemu-" +:+ q +:+ "-static") name).
  - unfold bind at 1. unfold bind at 1. unfold gets at 1. cbn [id forallb snd].
    destruct (d =? "")%string.
    + unfold ret at 1. cbn [andb]. exact IH.
    + reflexivity.
  - unfold bind at 1. unfold ret at 1. exact IH.
Qed.

Lemma pipeEntries_run (q : string) (entries : list (string * string)) :
  pipeEntries q entries None
  = (if writesOnce q entries
     then Ok tt
     else Throw "Error [ERR_STREAM_WRITE_AFTER_END]: write after end",
     match emulatorEntries q entries with
     | [] => None
     | entry :: _ => Some (snd entry)
     end).
Proof.
  unfold writesOnce, emulatorEntries.
  induction entries as [|[name d] rest IH]; [reflexivity|].
  cbn [pipeEntries List.filter fst snd].
  destruct (includes ("qemu-" +:+ q +:+ "-static") name).
  - unfold bind at 1. unfold bind at 1. unfold gets at 1. cbn [id].
    unfold modify at 1. apply pipeEntries_piped.
  - unfold bind at 1. unfold ret at 1. exact IH.
Qed.

(** [installQemu], outcome by outcome, on a disk that lets the binaries
    directory be made. *)
Lemma installQemu_run (E : env) (arch : string) (w : world) :
  fsError E (Mkdir (binDirectory E)) = None ->
  installQemu E arch w
  = match fsError E (OpenWrite (cachePath E arch)), balenaArchToQemuArch arch with
    | Some _, Throw e =>
        (Throw e, mkWorld ({[binDirectory E]} ∪ dirs w) (files w) (trace w))
    | Some e, Ok q =>
        (Throw e,
         mkWorld ({[binDirectory E]} ∪ dirs w) (files w) (trace w ++ [Request (archiveUrl q)]))
    | None, Throw e => (Throw e, cached E arch Created [] w)
    | None, Ok q =>
        match fetch E (archiveUrl q) with
        | Throw e => (Throw e, cached E arch Created [Request (archiveUrl q)] w)
        | Ok entries =>
            let piped := match emulatorEntries q entries with
                         | [] => Created
                         | entry :: _ => Written (snd entry)
                         end in
            if writesOnce q entries
            then match fsError E (Chmod (cachePath E arch)) with
                 | Some e => (Throw e, cached E arch piped [Request (archiveUrl q)] w)
                 | None =>
                     (Ok tt,
                      cached E arch (Extracted (staticEmulator q entries) "755")
                             [Request (archiveUrl q)] w)
                 end
            else (Throw "Error [ERR_STREAM_WRITE_AFTER_END]: write after end",
                  cached E arch piped [Request (archiveUrl q)] w)
        end
    end.
Proof.
  intros Hmk. unfold installQemu, getQemuPath, mkdirp, createWriteStream, cached.
  rewrite Hmk. fold (cachePath E arch).
  unfold bind at 1. unfold bind at 1. unfold modify at 1. unfold ret at 1.
  unfold bind at 1.
  destruct (fsError E (OpenWrite (cachePath E arch))) as [e0|].
  - unfold ret at 1. unfold bind at 1. unfold lift at 1.
    destruct (balenaArchToQemuArch arch) as [q|e1]; reflexivity.
  - unfold bind at 1. unfold writeFile at 1. unfold modify at 1. unfold ret at 1.
    unfold bind at 1. unfold lift at 1. step.
    destruct (balenaArchToQemuArch arch) as [q|e1]; [|rewrite app_nil_r; reflexivity].
    unfold bind at 1. unfold emit at 1. unfold modify at 1. step.
    unfold bind at 1. unfold lift at 1.
    destruct (fetch E (archiveUrl q)) as [entries|e2]; [|reflexivity].
    rewrite pipeEntries_run. unfold staticEmulator. cbv zeta.
    destruct (emulatorEntries q entries) as [|entry later] eqn:Hentries.
    + unfold bind at 1. unfold ret at 1. unfold bind at 1. unfold lift at 1.
      destruct (writesOnce q entries); [|reflexivity].
      unfold chmod, writeFile, modify. step.
      destruct (fsError E (Chmod (cachePath E arch))) as [e3|]; [reflexivity|].
      rewrite lookup_insert_eq. step. cbn [content]. rewrite insert_insert_eq. reflexivity.
    + unfold bind at 1. unfold writeFile at 1. unfold modify at 1. step.
      rewrite insert_insert_eq.
      unfold bind at 1. unfold lift at 1.
      destruct (writesOnce q entries); [|reflexivity].
      unfold chmod, writeFile, modify. step.
      destruct (fsError E (Chmod (cachePath E arch))) as [e3|]; [reflexivity|].
      rewrite lookup_insert_eq. step. cbn [content]. rewrite insert_insert_eq. reflexivity.
Qed.

(** Provisioning, outcome by outcome. *)
Lemma installQemuIfNeeded_run (E : env) (emulated : bool) (arch : string) (w : world) :
  installQemuIfNeeded E emulated arch w
  = match dockerInfo E with
    | Throw e => (Throw e, w)
    | Ok (os, a) =>
        if isDockerDesktop os
        then (Ok false,
              mkWorld (dirs w) (files w)
                (trace w ++ [LogInfo ("Docker Desktop detected (daemon architecture: "
                                        +:+ a +:+ ")")]))
        else if negb emulated then (Ok false, w)
        else
          match fsError E (Mkdir (binDirectory E)) with
          | Some e => (Throw e, w)
          | None =>
              let w' := mkWorld ({[binDirectory E]} ∪ dirs w) (files w) (trace w) in
              if bool_decide (is_Some (files w !! cachePath E arch)) then (Ok true, w')
              else
                match installQemu E arch
                        (mkWorld (dirs w') (files w)
                           (trace w ++ [LogInfo ("Installing qemu for " +:+ arch
                                                   +:+ " emulation...")])) with
                | (Ok _, w'') => (Ok true, w'')
                | (Throw e, w'') => (Throw e, w'')
                end
          end
    end.
Proof.
  run. fold (cachePath E arch).
  destruct (dockerInfo E) as [[os a]|e0]; step; [|reflexivity].
  destruct (isDockerDesktop os); step.
  { destruct emulated; reflexivity. }
  destruct emulated; step; [|reflexivity].
  destruct (fsError E (Mkdir (binDirectory E))) as [e1|]; step; [reflexivity|].
  destruct (bool_decide (is_Some (files w !! cachePath E arch))); step; [reflexivity|].
  match goal with |- context [installQemu E arch ?w0] => destruct (installQemu E arch w0) as [[[]|e] w1] end;
    reflexivity.
Qed.

(** With the binary in the cache, provisioning touches no file and asks for
    no download, whatever else happens. *)
Lemma installQemuIfNeeded_cached (E : env) (emulated : bool) (arch : string) (w : world) :
  is_Some (files w !! cachePath E arch) ->
  files (snd (installQemuIfNeeded E emulated arch w)) = files w /\
  requests (trace (snd (installQemuIfNeeded E emulated arch w))) = requests (trace w) /\
  (forall e, fst (installQemuIfNeeded E emulated arch w) = Throw e ->
             dockerInfo E = Throw e \/ fsError E (Mkdir (binDirectory E)) = Some e).
Proof.
  intros Hc. rewrite installQemuIfNeeded_run.
  destruct (dockerInfo E) as [[os a]|e0]; step.
  2:{ repeat split; auto. intros e [= ->]. left. reflexivity. }
  destruct (isDockerDesktop os); step.
  { rewrite requests_app. cbn [requests omap list_omap]. rewrite app_nil_r.
    repeat split; auto; discriminate. }
  destruct emulated; step; [|repeat split; auto; discriminate].
  destruct (fsError E (Mkdir (binDirectory E))) as [e1|]; step.
  { repeat split; auto. intros e [= ->]. right. reflexivity. }
  rewrite bool_decide_eq_true_2 by exact Hc. step.
  repeat split; auto; discriminate.
Qed.

(** C6: provisioning is idempotent once it has succeeded.  With the
    versioned file in the cache no file changes and nothing is downloaded,
    whatever comes of the call.  When a call returns, a second call returns
    the same answer and leaves files and downloads as they are.  When the
    emulator was needed and the cache was empty at first, the first call
    requested the archive of the emulator and left in the cache,
    executable, what the archive's first entry of the emulator's name
    holds; the two calls together download exactly once. *)
Theorem installQemuIfNeeded_idempotent
    (E : env) (emulated : bool) (arch : string) (w : world) :
  let run := installQemuIfNeeded E emulated arch w in
  (is_Some (files w !! cachePath E arch) ->
   files (snd run) = files w /\ requests (trace (snd run)) = requests (trace w)) /\
  (forall (r : bool) (w1 : world),
      run = (Ok r, w1) ->
      (r = true -> files w !! cachePath E arch = None ->
       exists qemuArch entries,
         balenaArchToQemuArch arch = Ok qemuArch /\
         fetch E (archiveUrl qemuArch) = Ok entries /\
         requests (trace w1) = (requests (trace w) ++ [archiveUrl qemuArch])%list /\
         files w1
         = <[cachePath E arch := Extracted (staticEmulator qemuArch entries) "755"]>
             (files w)) /\
      exists w2,
        installQemuIfNeeded E emulated arch w1 = (Ok r, w2) /\
        files w2 = files w1 /\
        requests (trace w2) = requests (trace w1) /\
        (r = true -> files w !! cachePath E arch = None ->
         exists url, requests (trace w2) = (requests (trace w) ++ [url])%list)).
Proof.
  cbv zeta. split.
  { intros Hc. destruct (installQemuIfNeeded_cached E emulated arch w Hc) as (Hf & Ht & _).
    auto. }
  intros r w1. rewrite !installQemuIfNeeded_run.
  destruct (dockerInfo E) as [[os a]|e0]; [|discriminate].
  destruct (isDockerDesktop os) eqn:Hos.
  { intros [= <- <-]. step. split; [discriminate|].
    eexists; split; [reflexivity|]. step.
    rewrite !requests_app. cbn [requests omap list_omap]. rewrite !app_nil_r.
    repeat split; auto; discriminate. }
  destruct emulated; cbn [negb].
  2:{ intros [= <- <-]. split; [discriminate|].
      eexists; split; [reflexivity|]. repeat split; auto; discriminate. }
  destruct (fsError E (Mkdir (binDirectory E))) as [e1|] eqn:Hmk; [discriminate|].
  cbv zeta. step.
  destruct (files w !! cachePath E arch) as [f|] eqn:Hfile.
  - rewrite bool_decide_eq_true_2 by (eexists; reflexivity).
    intros [= <- <-]. step. rewrite Hfile.
    rewrite bool_decide_eq_true_2 by (eexists; reflexivity).
    split; [discriminate|].
    eexists; split; [reflexivity|]. step. repeat split; auto; discriminate.
  - rewrite bool_decide_eq_false_2 by (intros [? ?]; discriminate).
    rewrite (installQemu_run E arch _ Hmk). unfold cached. step.
    destruct (fsError E (OpenWrite (cachePath E arch))) as [e2|];
      [destruct (balenaArchToQemuArch arch); discriminate|].
    destruct (balenaArchToQemuArch arch) as [q|e3]; [|discriminate].
    destruct (fetch E (archiveUrl q)) as [entries|e4] eqn:Hfetch; [|discriminate].
    cbv zeta. destruct (writesOnce q entries); [|discriminate].
    destruct (fsError E (Chmod (cachePath E arch))) as [e5|]; [discriminate|].
    intros [= <- <-]. step.
    rewrite lookup_insert_eq.
    rewrite bool_decide_eq_true_2 by (eexists; reflexivity).
    assert (Hreq : requests ((trace w ++ [LogInfo ("Installing qemu for " +:+ arch
                                                     +:+ " emulation...")])
                             ++ [Request (archiveUrl q)])
                   = (requests (trace w) ++ [archiveUrl q])%list).
    { rewrite !requests_app. cbn [requests omap list_omap]. rewrite app_nil_r. reflexivity. }
    split.
    { intros _ _. exists q, entries. repeat split; auto. }
    eexists; split; [reflexivity|]. step. repeat split; auto.
    intros _ _. exists (archiveUrl q). exact Hreq.
Qed.

(** The theorem on a Linux host with an empty cache: the first call
    installs the emulator of the archive, the second finds it. *)
Lemma installQemuIfNeeded_idempotent_witness :
  let w1 := snd (installQemuIfNeeded linuxHost true "armv7hf" emptyDisk) in
  installQemuIfNeeded linuxHost true "armv7hf" emptyDisk = (Ok true, w1) /\
  files emptyDisk !! cachePath linuxHost "armv7hf" = None /\
  files w1 !! cachePath linuxHost "armv7hf" = Some (Extracted "ELF" "755") /\
  exists w2,
    installQemuIfNeeded linuxHost true "armv7hf" w1 = (Ok true, w2) /\
    files w2 = files w1 /\
    requests (trace w2) = requests (trace w1) /\
    exists url, requests (trace w2) = (requests (trace emptyDisk) ++ [url])%list.
Proof.
  cbv zeta.
  assert (Hrun : installQemuIfNeeded linuxHost true "armv7hf" emptyDisk
                 = (Ok true, snd (installQemuIfNeeded linuxHost true "armv7hf" emptyDisk)))
    by (vm_compute; reflexivity).
  assert (Hnone : files emptyDisk !! cachePath linuxHost "armv7hf" = None)
    by reflexivity.
  split; [exact Hrun|]. split; [exact Hnone|].
  destruct (installQemuIfNeeded_idempotent linuxHost true "armv7hf" emptyDisk)
    as (_ & Hreturned).
  destruct (Hreturned true _ Hrun) as (Hinst & w2 & H2 & Hf & Hr & Hone).
  split.
  { destruct (Hinst eq_refl Hnone) as (q & entries & Hq & Hfetch & _ & Hfiles).
    rewrite Hfiles, lookup_insert_eq.
    injection Hq as <-. injection Hfetch as <-. reflexivity. }
  exists w2. repeat split; auto.
Defined.

(** C6, on the code: two calls, no installation.  On a Linux host asked for
    an architecture that has no emulator, the first call fails after it has
    opened the cache file; the second call finds the file, answers [true]
    without an error, and nothing was downloaded or installed by either:
    the cache file is empty. *)
Lemma installQemuIfNeeded_twice_without_install :
  let first := installQemuIfNeeded linuxHost true "i386" emptyDisk in
  let second := installQemuIfNeeded linuxHost true "i386" (snd first) in
  fst first = Throw "Cannot install emulator for architecture i386" /\
  fst second = Ok true /\
  requests (trace (snd second)) = [] /\
  files (snd second) !! cachePath linuxHost "i386" = Some Created.
Proof. vm_compute. repeat split; reflexivity. Qed.

End QemuFacts.

(** ** The progress pipeline *)

Section Adapters.
Import JS Compose.

Lemma stripPrefix_app (p s : string) : stripPrefix p (p +:+ s) = Some s.
Proof.
  induction p as [|a p IH]; simpl; auto.
  rewrite Ascii.eqb_refl. exact IH.
Qed.

Lemma takeWhile_app (f : ascii -> bool) (s : string) (c : ascii) (r : string) :
  allChars f s = true -> f c = false -> takeWhile f (s +:+ String c r) = s.
Proof.
  intros Hs Hc. induction s as [|a s IH]; simpl in *.
  - rewrite Hc. reflexivity.
  - apply andb_true_iff in Hs as [Ha Hs]. rewrite Ha. f_equal. auto.
Qed.

Lemma dropWhile_app (f : ascii -> bool) (s : string) (c : ascii) (r : string) :
  allChars f s = true -> f c = false -> dropWhile f (s +:+ String c r) = String c r.
Proof.
  intros Hs Hc. induction s as [|a s IH]; simpl in *.
  - rewrite Hc. reflexivity.
  - apply andb_true_iff in Hs as [Ha Hs]. rewrite Ha. auto.
Qed.

Lemma digit_not_space (c : ascii) : isDigit c = true -> isSpace c = false.
Proof.
  unfold isDigit, isSpace. intros H.
  apply andb_true_iff in H as [H1 H2].
  apply Z.leb_le in H1, H2.
  repeat (apply orb_false_iff; split).
  - apply andb_false_iff. right. apply Z.leb_gt. lia.
  - apply Z.eqb_neq. lia.
  - apply Z.eqb_neq. lia.
Qed.

Lemma eqb_empty (s : string) : s <> "" -> String.eqb s "" = false.
Proof. intros H. apply String.eqb_neq. exact H. Qed.

Lemma dropWhile_stop (f : ascii -> bool) (c : ascii) (r : string) :
  f c = false -> dropWhile f (String c r) = String c r.
Proof. intros H. simpl. rewrite H. reflexivity. Qed.

Lemma takeWhile_stop (f : ascii -> bool) (c : ascii) (r : string) :
  f c = false -> takeWhile f (String c r) = "".
Proof. intros H. simpl. rewrite H. reflexivity. Qed.

(** A line in the canonical form [Step N/M: text] is matched, with the
    groups [N], [M] and [text]. *)
Lemma stepRegex_canonical (n m text : string) :
  n <> "" -> allChars isDigit n = true ->
  m <> "" -> allChars isDigit m = true ->
  text <> "" -> allChars (fun c => negb (isLineTerminator c)) text = true ->
  stepRegex ("Step " +:+ n +:+ "/" +:+ m +:+ ": " +:+ text) = Some (n, m, text).
Proof.
  intros Hn Dn Hm Dm Ht Lt.
  set (tail := n +:+ String "/" (m +:+ String ":" (String " " text))).
  change ("Step " +:+ n +:+ "/" +:+ m +:+ ": " +:+ text)
    with (String "S" (String "t" (String "e" (String "p" (String " " tail))))).
  unfold stepRegex.
  rewrite (dropWhile_stop isSpace "S") by reflexivity.
  change (stripPrefix "Step" (String "S" (String "t" (String "e" (String "p" (String " " tail))))))
    with (Some (String " " tail)).
  cbv iota.
  assert (Htail : dropWhile isSpace tail = tail /\ takeWhile isSpace tail = "").
  { unfold tail. destruct n as [|d n']; [congruence|].
    simpl in Dn. apply andb_true_iff in Dn as [Dd _].
    change (String d n' +:+ ?x) with (String d (n' +:+ x)).
    rewrite dropWhile_stop, takeWhile_stop by (apply digit_not_space; exact Dd). auto. }
  destruct Htail as [Hdrop Htake].
  change (takeWhile isSpace (String " " tail)) with (String " " (takeWhile isSpace tail)).
  change (dropWhile isSpace (String " " tail)) with (dropWhile isSpace tail).
  rewrite Htake, Hdrop.
  change (String.eqb " " "") with false. cbv iota.
  unfold tail.
  rewrite (takeWhile_app isDigit n "/") by (auto; reflexivity).
  rewrite (eqb_empty n Hn).
  rewrite (dropWhile_app isDigit n "/") by (auto; reflexivity).
  change (stripPrefix "/" (String "/" ?x)) with (Some x).
  cbv iota.
  rewrite (takeWhile_app isDigit m ":") by (auto; reflexivity).
  rewrite (eqb_empty m Hm).
  rewrite (dropWhile_app isDigit m ":") by (auto; reflexivity).
  rewrite (dropWhile_stop isSpace ":") by reflexivity.
  change (stripPrefix ": " (String ":" (String " " text))) with (Some text).
  cbv iota. rewrite (eqb_empty text Ht), Lt. reflexivity.
Qed.

Lemma takeWhile_all (f : ascii -> bool) (s : string) : allChars f (takeWhile f s) = true.
Proof.
  induction s as [|a s IH]; simpl; auto.
  destruct (f a) eqn:Ha; simpl; auto. rewrite Ha. exact IH.
Qed.

Lemma parseDigits_nonneg (s : string) (acc : Z) :
  allChars isDigit s = true -> 0 <= acc -> 0 <= parseDigits acc s.
Proof.
  revert acc; induction s as [|a s IH]; intros acc Hs Hacc; simpl in *; auto.
  apply andb_true_iff in Hs as [Ha Hs]. apply IH; auto.
  unfold isDigit in Ha. apply andb_true_iff in Ha as [H1 H2].
  apply Z.leb_le in H1, H2. lia.
Qed.

Lemma parseInt_digits (s : string) :
  s <> "" -> allChars isDigit s = true -> parseInt s = VNum (parseDigits 0 s).
Proof.
  intros Hs Hd. destruct s as [|a s]; [congruence|].
  unfold parseInt. rewrite Hd. reflexivity.
Qed.

(** What the step pattern captures: two non-empty runs of digits. *)
Lemma stepRegex_groups (str n m text : string) :
  stepRegex str = Some (n, m, text) ->
  n <> "" /\ allChars isDigit n = true /\ m <> "" /\ allChars isDigit m = true.
Proof.
  unfold stepRegex.
  destruct (stripPrefix "Step" (dropWhile isSpace str)) as [s2|]; [|discriminate].
  destruct (String.eqb (takeWhile isSpace s2) ""); [discriminate|].
  destruct (String.eqb_spec (takeWhile isDigit (dropWhile isSpace s2)) "") as [|Hn];
    [discriminate|].
  destruct (stripPrefix "/" (dropWhile isDigit (dropWhile isSpace s2))) as [s4|];
    [|discriminate].
  destruct (String.eqb_spec (takeWhile isDigit s4) "") as [|Hm]; [discriminate|].
  destruct (stripPrefix ": " (dropWhile isSpace (dropWhile isDigit s4))) as [t|];
    [|discriminate].
  destruct (String.eqb t ""); [discriminate|].
  destruct (allChars _ t); [|discriminate].
  intros [= <- <- <-]. auto using takeWhile_all.
Qed.

Lemma startsWith_app (p s : string) :
  startsWith p s = true -> exists r, s = p +:+ r.
Proof.
  revert s; induction p as [|a p IH]; intros s H; simpl in *.
  - exists s. reflexivity.
  - destruct s as [|b s]; [discriminate|].
    apply andb_true_iff in H as [Hab Hp].
    apply Ascii.eqb_eq in Hab. subst b.
    destruct (IH s Hp) as [r ->]. exists r. reflexivity.
Qed.

(** The closing line of a build is no step line. *)
Lemma stepRegex_tagged (str : string) :
  startsWith "Successfully tagged " str = true -> stepRegex str = None.
Proof.
  intros H. destruct (startsWith_app _ _ H) as [r ->]. reflexivity.
Qed.

(** C3, on the code: the total of a step line is read from the first step
    line only.  After [Step 1/2], the line [Step 1/4: b] is matched with
    [N = 1] and [M = 4], yet it is shown as step 1 of 2 with progress 50,
    not floor(1 * 100 / 4) = 25. *)
Lemma buildProgressAdapter_keeps_first_total :
  let a1 := fst (buildProgressAdapter false newAdapter (Some "Step 1/2: a")) in
  stepRegex "Step 1/4: b" = Some ("1", "4", "b") /\
  snd (buildProgressAdapter false a1 (Some "Step 1/4: b"))
  = VObj (<["progress" := VNum 50]> {[ "status" := VStr "Step 1/2: b" ]}) /\
  1 * 100 / 4 = 25 /\
  VNum 50 <> VNum 25.
Proof.
  cbv zeta. repeat split; try reflexivity. discriminate.
Qed.

(** C3, as the code has it.  In non-inline mode a line that the step
    pattern matches with groups [N], [M] and [text] is shown as
    [Step N/T: text] with progress floor(N * 100 / T), where the total [T]
    is the one the adapter read from the first step line it saw ([M] itself
    on that first line); a line that begins [Successfully tagged ] goes
    out unchanged with its progress undefined; in inline mode every line is
    a status without a progress field.  The line [Step 3/10: RUN foo] on a
    new adapter comes out unchanged with progress 30.  (Totals and
    products are taken below 2^53, where the arithmetic of doubles is that
    of integers.) *)
Theorem buildProgressAdapter_events (a : adapter) (str : string) :
  (forall n m text T,
     stepRegex str = Some (n, m, text) ->
     parseInt (default m (numSteps a)) = VNum T ->
     0 < T < 2 ^ 53 -> parseDigits 0 n * 100 < 2 ^ 53 ->
     buildProgressAdapter false a (Some str)
     = (mkAdapter (Some n) (Some (default m (numSteps a)))
                  (VNum (parseDigits 0 n * 100 / T)),
        VObj (<["progress" := VNum (parseDigits 0 n * 100 / T)]>
                {[ "status" := VStr ("Step " +:+ n +:+ "/" +:+ default m (numSteps a)
                                       +:+ ": " +:+ text) ]})) /\
     (numSteps a = None -> default m (numSteps a) = m)) /\
  (startsWith "Successfully tagged " str = true ->
   snd (buildProgressAdapter false a (Some str))
   = VObj (<["progress" := VUndefined]> {[ "status" := VStr str ]})) /\
  snd (buildProgressAdapter true a (Some str)) = VObj {[ "status" := VStr str ]} /\
  snd (buildProgressAdapter false newAdapter (Some "Step 3/10: RUN foo"))
  = VObj (<["progress" := VNum 30]> {[ "status" := VStr "Step 3/10: RUN foo" ]}).
Proof.
  split; [|split; [|split]].
  - intros n m text T Hre HT HT0 _.
    split; [|intros ->; reflexivity].
    destruct (stepRegex_groups _ _ _ _ Hre) as (Hn & Dn & _).
    unfold buildProgressAdapter.
    destruct (startsWith "Successfully tagged " str) eqn:Htag.
    { rewrite (stepRegex_tagged _ Htag) in Hre. discriminate. }
    rewrite Hre. cbn [step numSteps progress].
    assert (Hshow : showNullable (match numSteps a with
                                  | Some k => Some k
                                  | None => Some m
                                  end) = default m (numSteps a))
      by (destruct (numSteps a); reflexivity).
    assert (Hnum : match numSteps a with Some k => Some k | None => Some m end
                   = Some (default m (numSteps a)))
      by (destruct (numSteps a); reflexivity).
    rewrite Hshow, Hnum, HT, (parseInt_digits n Hn Dn).
    unfold floorPercent.
    destruct (Z.eqb_spec T 0) as [->|_]; [lia|]. reflexivity.
  - intros Htag. unfold buildProgressAdapter. rewrite Htag. reflexivity.
  - reflexivity.
  - reflexivity.
Qed.

(** The theorem at the document's example: the first step line of a build. *)
Lemma buildProgressAdapter_events_witness :
  stepRegex "Step 3/10: RUN foo" = Some ("3", "10", "RUN foo") /\
  parseInt (default "10" (numSteps newAdapter)) = VNum 10 /\
  buildProgressAdapter false newAdapter (Some "Step 3/10: RUN foo")
  = (mkAdapter (Some "3") (Some "10") (VNum 30),
     VObj (<["progress" := VNum 30]> {[ "status" := VStr "Step 3/10: RUN foo" ]})).
Proof.
  split; [reflexivity|]. split; [reflexivity|].
  apply (proj1 (proj1 (buildProgressAdapter_events newAdapter "Step 3/10: RUN foo")
                      "3" "10" "RUN foo" 10 eq_refl eq_refl
                      ltac:(lia) ltac:(vm_compute; reflexivity))).
Defined.

(** C8, on the code: the shapes are told apart by truthiness.  A pull
    event at 0 percent carries both a progress and a status, and is logged
    as its status alone. *)
Lemma buildLogCapture_zero_progress :
  let data := VObj {[ "status" := VStr "Downloading"; "progress" := VNum 0 ]} in
  props data !! "error" = None /\
  props data !! "progress" = Some (VNum 0) /\
  props data !! "status" = Some (VStr "Downloading") /\
  buildLogCapture [] data = Ok ([VStr "Downloading"], data) /\
  toString (VNum 0) +:+ "% " +:+ toString (VStr "Downloading") = "0% Downloading" /\
  VStr "Downloading" <> VStr "0% Downloading".
Proof.
  cbv zeta. repeat split; try reflexivity. discriminate.
Qed.

(** C8, as the code has it.  Every chunk adds exactly one entry to the
    buffer and goes on downstream as it came.  The entry is chosen in a
    fixed order by the truthiness of the chunk's fields: a truthy [error]
    is logged as its string; else a truthy [progress] with a truthy
    [status] as [progress% status]; else a truthy [status] as its string;
    else the chunk itself. *)
Theorem buildLogCapture_classifies (buffer : list jsval) (data : jsval) :
  isNullish data = false ->
  let error := field (props data) "error" in
  let progress := field (props data) "progress" in
  let status := field (props data) "status" in
  (exists entry, buildLogCapture buffer data = Ok ((buffer ++ [entry])%list, data)) /\
  (truthy error = true ->
   buildLogCapture buffer data = Ok ((buffer ++ [VStr (toString error)])%list, data)) /\
  (truthy error = false -> truthy progress = true -> truthy status = true ->
   buildLogCapture buffer data
   = Ok ((buffer ++ [VStr (toString progress +:+ "% " +:+ toString status)])%list, data)) /\
  (truthy error = false -> truthy progress = false -> truthy status = true ->
   buildLogCapture buffer data = Ok ((buffer ++ [VStr (toString status)])%list, data)) /\
  (truthy error = false -> truthy status = false ->
   buildLogCapture buffer data = Ok ((buffer ++ [data])%list, data)).
Proof.
  intros Hdata. cbv zeta.
  assert (Hget : getProp data "error" = Ok (field (props data) "error")).
  { destruct data; try discriminate; reflexivity. }
  unfold buildLogCapture. rewrite Hget.
  destruct (truthy (field (props data) "error")) eqn:He;
    destruct (truthy (field (props data) "progress")) eqn:Hp;
    destruct (truthy (field (props data) "status")) eqn:Hs;
    cbn [andb]; repeat split; eauto; intros; congruence.
Qed.

Lemma buildLogCapture_classifies_witness :
  let data := VObj {[ "status" := VStr "Pulling fs layer"; "progress" := VNum 42 ]} in
  isNullish data = false /\
  buildLogCapture [] data = Ok ([VStr "42% Pulling fs layer"], data).
Proof.
  cbv zeta. split; [reflexivity|].
  pose proof (proj1 (proj2 (proj2 (buildLogCapture_classifies
                                     []
                                     (VObj {[ "status" := VStr "Pulling fs layer";
                                              "progress" := VNum 42 ]})
                                     eq_refl)))) as H.
  cbv zeta in H. etransitivity; [apply H; vm_compute; reflexivity|].
  vm_compute. reflexivity.
Defined.

(** C10: the pull adapter.  For a pull event whose status is a string (or
    is missing), the event written downstream has the three fields
    [status], [progress] and [error]: a leading [Status: ] is removed from
    the status, the status is prefixed with [id: ] when the event has an
    id, and a percentage of exactly 100 becomes an undefined progress while
    any other percentage is passed on; the error is the message of
    [errorDetail] when there is one, and the event's [error] otherwise. *)
Theorem pullProgressAdapter_event (m : gmap string jsval) :
  (isNullish (field m "status") = true \/ exists s, field m "status" = VStr s) ->
  let bare := match field m "status" with
              | VStr s => VStr (default s (stripPrefix "Status: " s))
              | v => v
              end in
  let status := if isNullish (field m "id") then bare
                else VStr (toString (field m "id") +:+ ": " +:+ toString bare) in
  let progress := if is100 (field m "percentage") then VUndefined
                  else field m "percentage" in
  let message := if isNullish (field m "errorDetail") then VUndefined
                 else field (props (field m "errorDetail")) "message" in
  let error := if isNullish message then field m "error" else message in
  pullProgressAdapter (VObj m)
  = Ok (VObj (<["error" := error]> (<["progress" := progress]> {[ "status" := status ]}))) /\
  (forall rest, field m "status" = VStr ("Status: " +:+ rest) -> bare = VStr rest) /\
  (forall s, field m "status" = VStr s -> startsWith "Status: " s = false -> bare = VStr s) /\
  (is100 (field m "percentage") = true <-> field m "percentage" = VNum 100).
Proof.
  intros Hst. cbv zeta. split; [|split; [|split]].
  - unfold pullProgressAdapter. cbn [isNullish props].
    assert (Hs : (if isNullish (field m "status") then Ok (field m "status")
                  else stripStatus (field m "status"))
                 = Ok (match field m "status" with
                       | VStr s => VStr (default s (stripPrefix "Status: " s))
                       | v => v
                       end)).
    { destruct Hst as [Hn|[s Hs]].
      - rewrite Hn. destruct (field m "status"); try discriminate; reflexivity.
      - rewrite Hs. reflexivity. }
    rewrite Hs.
    assert (Hm : (if isNullish (field m "errorDetail") then Ok VUndefined
                  else getProp (field m "errorDetail") "message")
                 = Ok (if isNullish (field m "errorDetail") then VUndefined
                       else field (props (field m "errorDetail")) "message")).
    { destruct (field m "errorDetail"); reflexivity. }
    rewrite Hm. reflexivity.
  - intros rest ->. rewrite stripPrefix_app. reflexivity.
  - intros s -> Hp. f_equal.
    destruct (stripPrefix "Status: " s) as [r|] eqn:Hr; [|reflexivity].
    exfalso.
    assert (H : forall p s r, stripPrefix p s = Some r -> startsWith p s = true).
    { clear. induction p as [|a p IH]; intros [|b s] r'; simpl; auto; try discriminate.
      destruct (Ascii.eqb a b); [|discriminate]. intros H. simpl. eauto. }
    rewrite (H _ _ _ Hr) in Hp. discriminate.
  - unfold is100. destruct (field m "percentage"); split; try discriminate.
    + intros H. apply Z.eqb_eq in H. congruence.
    + intros [= ->]. reflexivity.
Qed.

Lemma pullProgressAdapter_event_witness :
  (isNullish (field layerComplete "status") = true
   \/ exists s, field layerComplete "status" = VStr s) /\
  pullProgressAdapter (VObj layerComplete)
  = Ok (VObj (<["error" := VUndefined]>
               (<["progress" := VUndefined]>
                  {[ "status" := VStr "6f2b: Download complete" ]}))).
Proof.
  assert (Hst : isNullish (field layerComplete "status") = true
                \/ exists s, field layerComplete "status" = VStr s)
    by (right; eexists; reflexivity).
  split; [exact Hst|].
  pose proof (proj1 (pullProgressAdapter_event layerComplete Hst)) as H.
  cbv zeta in H. etransitivity; [exact H|].
  vm_compute. reflexivity.
Defined.

End Adapters.

(** ** Build options *)

Section BuildOptionsFacts.
Import JS BuildOptions.

(** What a merge leaves under each key of the destination and the source. *)
Lemma baseMerge_lookup (sm object : gmap string jsval) (k : string) :
  baseMerge (VObj sm) object !! k
  = match sm !! k with
    | Some srcValue => Some (merged (object !! k) srcValue)
    | None => object !! k
    end.
Proof.
  cbn [baseMerge]. revert k.
  apply (map_fold_weak_ind
           (fun (r : gmap string jsval) (m : gmap string jsval) =>
              forall k, r !! k = match m !! k with
                                 | Some srcValue => Some (merged (object !! k) srcValue)
                                 | None => object !! k
                                 end)).
  - intros k. rewrite lookup_empty. reflexivity.
  - intros i x m r Hi IH k.
    destruct (decide (i = k)) as [->|Hne].
    + rewrite lookup_insert_eq.
      pose proof (IH k) as Hk. rewrite Hi in Hk.
      destruct x; cbn [merged]; rewrite ?lookup_insert_eq, ?Hk; try reflexivity.
      destruct (object !! k) as [y|] eqn:Hr.
      * rewrite Hk. reflexivity.
      * rewrite lookup_insert_eq. reflexivity.
    + rewrite (lookup_insert_ne m) by exact Hne. rewrite <- IH.
      destruct x; rewrite ?lookup_insert_ne by exact Hne; try reflexivity.
      destruct (r !! i); rewrite ?lookup_insert_ne by exact Hne; reflexivity.
Qed.





Lemma merge_one (object : gmap string jsval) (source : jsval) :
  merge object [source] = if truthy source then baseMerge source object else object.
Proof. reflexivity. Qed.


Lemma mergeBuildArgs_other (opts : gmap string jsval) (args : jsval) (k : string) :
  k <> "buildargs" -> mergeBuildArgs opts args !! k = opts !! k.
Proof.
  intros Hk. unfold mergeBuildArgs.
  destruct (isNullish (field opts "buildargs"));
    destruct (field _ "buildargs");
    rewrite ?lookup_insert_ne by congruence; reflexivity.
Qed.







End BuildOptionsFacts.

(** ** The renderers *)

Section RendererFacts.
Import JS Renderer.
Variable L : libs.

(** An ended interactive renderer ignores [end]. *)
Lemma ui_end_ended (summary : option (gmap string jsval)) (u : BuildProgressUI.ui) (h : host) :
  BuildProgressUI._ended u = true ->
  BuildProgressUI.end_ L summary (u, h) = (u, h).
Proof. intros H. unfold BuildProgressUI.end_. rewrite H. reflexivity. Qed.

(** The first [end] of an interactive renderer: the handler is taken off
    the process, the interval is cleared, and the terminal receives the
    final frame: the window is cleared, the status line says how the build
    ended, every service gets its row, and the cursor is shown again. *)
Lemma ui_end_first (summary : option (gmap string jsval)) (u : BuildProgressUI.ui) (h : host) :
  BuildProgressUI._ended u = false ->
  let r := BuildProgressUI.end_ L summary (u, h) in
  BuildProgressUI._ended (fst r) = true /\
  BuildProgressUI._runloop (fst r) = None /\
  sigint (snd r) = Nat.pred (sigint h) /\
  timers (snd r) = match BuildProgressUI._runloop u with
                   | Some timerId => timers h ∖ {[timerId]}
                   | None => timers h
                   end /\
  exists status rows,
    out (snd r) = (out h ++ [DeleteToEnd; ClearLine; Write (BuildProgressUI._prefix u);
                             WriteLine status] ++ rows ++ [ShowCursor])%list /\
    (BuildProgressUI._cancelled u = true -> status = "Build cancelled") /\
    length rows = (2 * length (BuildProgressUI._services u))%nat.
Proof.
  intros H.
  assert (Hrows : forall (rows : list string),
             length (flat_map (fun row => [ClearLine; WriteLine row]) rows)
             = (2 * length rows)%nat).
  { induction rows; simpl; auto. rewrite IHrows. lia. }
  destruct u as [services data prefix pw mlw lw st ended cancelled sp rl].
  destruct h as [o sg tm nt ck ww ex].
  cbn [BuildProgressUI._ended] in H. subst ended.
  unfold BuildProgressUI.end_, BuildProgressUI._clear, BuildProgressUI._renderStatus,
    BuildProgressUI._renderSummary, print, prints, removeListener, runloopEnd.
  cbn [andb fst snd BuildProgressUI._cancelled BuildProgressUI._services
       BuildProgressUI._prefix BuildProgressUI._startTime
       BuildProgressUI._ended BuildProgressUI._runloop
       BuildProgressUI._serviceToDataMap BuildProgressUI._prefixWidth
       BuildProgressUI._maxLineWidth BuildProgressUI._lineWidths BuildProgressUI._spinner
       out sigint timers nextTimer clock windowWidth exited].
  destruct cancelled, rl;
    cbn [andb fst snd BuildProgressUI._cancelled BuildProgressUI._services
         BuildProgressUI._prefix BuildProgressUI._startTime
         BuildProgressUI._ended BuildProgressUI._runloop
         BuildProgressUI._serviceToDataMap BuildProgressUI._prefixWidth
         BuildProgressUI._maxLineWidth BuildProgressUI._lineWidths BuildProgressUI._spinner
         out sigint timers nextTimer clock windowWidth exited].
  all: (split; [reflexivity|]).
  all: (split; [reflexivity|]).
  all: (split; [reflexivity|]).
  all: (split; [reflexivity|]).
  all: rewrite <- !app_assoc; cbn [app].
  all: eexists _, _.
  all: (split; [reflexivity|]).
  all: (split; [intros; try reflexivity; discriminate|]).
  all: rewrite Hrows, length_map; reflexivity.
Qed.

Lemma ui_end_twice (summary summary' : option (gmap string jsval))
    (s : BuildProgressUI.ui * host) :
  BuildProgressUI.end_ L summary' (BuildProgressUI.end_ L summary s)
  = BuildProgressUI.end_ L summary s.
Proof.
  destruct s as [u h]. destruct (BuildProgressUI._ended u) eqn:H.
  - rewrite !ui_end_ended by exact H. reflexivity.
  - destruct (ui_end_first summary u h H) as (He & _).
    destruct (BuildProgressUI.end_ L summary (u, h)) as [u' h'].
    apply ui_end_ended. exact He.
Qed.

(** An ended inline renderer ignores [end]. *)
Lemma inline_end_ended (summary : option (gmap string jsval))
    (i : BuildProgressInline.inline) (h : host) :
  BuildProgressInline._ended i = true ->
  BuildProgressInline.end_ L summary i h = (Ok tt, i, h).
Proof. intros H. unfold BuildProgressInline.end_. rewrite H. reflexivity. Qed.

(** Whatever its first [end] does, an inline renderer is ended after it. *)
Lemma inline_end_sets (summary : option (gmap string jsval))
    (i : BuildProgressInline.inline) (h : host) :
  BuildProgressInline._ended (snd (fst (BuildProgressInline.end_ L summary i h))) = true.
Proof.
  unfold BuildProgressInline.end_.
  destruct (BuildProgressInline._ended i) eqn:H; [exact H|].
  match goal with |- context [let '(r, h0) := ?m h in _] => destruct (m h) end.
  reflexivity.
Qed.

(** The first [end] of an inline renderer without a summary writes the
    closing line. *)
Lemma inline_end_first (i : BuildProgressInline.inline) (h : host) :
  BuildProgressInline._ended i = false ->
  BuildProgressInline.end_ L None i h
  = (Ok tt,
     BuildProgressInline.mkInline (BuildProgressInline._services i)
       (BuildProgressInline._prefixWidth i) (BuildProgressInline._startTime i) true,
     print (Write ("Built " +:+ serviceStr (BuildProgressInline._services i) +:+ " in "
                     +:+ durationStr L (BuildProgressInline._startTime i) h
                     +:+ String newline "")) h).
Proof. intros H. unfold BuildProgressInline.end_. rewrite H. reflexivity. Qed.

Lemma prints_prints (a b : list ttyOp) (h : host) :
  prints b (prints a h) = prints (a ++ b) h.
Proof. destruct h. unfold prints. cbn. rewrite app_assoc. reflexivity. Qed.

Lemma prints_nil (h : host) : prints [] h = h.
Proof. destruct h. unfold prints. cbn. rewrite app_nil_r. reflexivity. Qed.

(** What the interactive renderer has to say of each of its services. *)
Lemma getServiceSummary_lookup (u : BuildProgressUI.ui) (service : string) :
  BuildProgressUI._getServiceSummary u !! service
  = if decide (service ∈ BuildProgressUI._services u)
    then Some (VStr (BuildProgressUI.summaryLine
                       (default (VObj ∅) (BuildProgressUI._serviceToDataMap u !! service))))
    else None.
Proof.
  unfold BuildProgressUI._getServiceSummary.
  set (line := fun service : string =>
                 (service,
                  VStr (BuildProgressUI.summaryLine
                          (default (VObj ∅) (BuildProgressUI._serviceToDataMap u !! service))))).
  assert (Hin : forall k v, (k, v) ∈ rev (map line (BuildProgressUI._services u))
                            <-> k ∈ BuildProgressUI._services u /\ v = snd (line k)).
  { intros k v. rewrite !list_elem_of_In, <- in_rev, in_map_iff. split.
    - intros (s & [= <- <-] & Hs). auto.
    - intros [Hk ->]. exists k. auto. }
  destruct (decide (service ∈ BuildProgressUI._services u)) as [Hs|Hs].
  - apply elem_of_list_to_map_1'.
    + intros y Hy. apply Hin in Hy as [_ ->]. reflexivity.
    + apply Hin. auto.
  - apply not_elem_of_list_to_map_1. intros Hk.
    apply list_elem_of_fmap in Hk as ([k v] & -> & Hkv).
    apply Hin in Hkv as [Hk _]. contradiction.
Qed.

(** The first [end] of an interactive renderer, in full. *)
Lemma ui_end_run (summary : option (gmap string jsval)) (u : BuildProgressUI.ui) (h : host) :
  BuildProgressUI._ended u = false ->
  let rows := map (finalRow L summary u h) (BuildProgressUI._services u) in
  BuildProgressUI.end_ L summary (u, h)
  = (BuildProgressUI.mkUI
       (BuildProgressUI._services u) (BuildProgressUI._serviceToDataMap u)
       (BuildProgressUI._prefix u) (BuildProgressUI._prefixWidth u)
       (Some (windowWidth h))
       (map (stringWidth L) rows ++ List.skipn (length rows) (BuildProgressUI._lineWidths u))
       (BuildProgressUI._startTime u) true (BuildProgressUI._cancelled u)
       (BuildProgressUI._spinner u) None,
     mkHost (out h ++ [DeleteToEnd; ClearLine; Write (BuildProgressUI._prefix u);
                       WriteLine (finalStatus L u h)]
                   ++ flat_map (fun row => [ClearLine; WriteLine row]) rows
                   ++ [ShowCursor])
            (Nat.pred (sigint h))
            (match BuildProgressUI._runloop u with
             | Some timerId => timers h ∖ {[timerId]}
             | None => timers h
             end)
            (nextTimer h) (clock h) (windowWidth h) (exited h)).
Proof.
  intros H. cbv zeta.
  assert (Hrows : forall u' : BuildProgressUI.ui,
             BuildProgressUI._services u' = BuildProgressUI._services u ->
             BuildProgressUI._serviceToDataMap u' = BuildProgressUI._serviceToDataMap u ->
             BuildProgressUI._prefix u' = BuildProgressUI._prefix u ->
             BuildProgressUI._prefixWidth u' = BuildProgressUI._prefixWidth u ->
             BuildProgressUI._maxLineWidth u' = Some (windowWidth h) ->
             map (BuildProgressUI.summaryRow L u'
                    (match summary with
                     | Some m => m
                     | None => BuildProgressUI._getServiceSummary u'
                     end))
                 (BuildProgressUI._services u)
             = map (finalRow L summary u h) (BuildProgressUI._services u)).
  { intros u' Hs Hd Hp Hw Hm. apply map_ext_in. intros service Hin.
    unfold BuildProgressUI.summaryRow, finalRow, finalText. rewrite Hp, Hw, Hm.
    destruct summary as [m|]; [reflexivity|].
    unfold field. rewrite getServiceSummary_lookup, Hs, Hd.
    rewrite decide_True by (apply list_elem_of_In; exact Hin). reflexivity. }
  destruct u as [services data prefix pw mlw lw st ended cancelled sp rl].
  destruct h as [o sg tm nt ck ww ex].
  cbn [BuildProgressUI._ended] in H. subst ended.
  unfold BuildProgressUI.end_, BuildProgressUI._clear, BuildProgressUI._renderStatus,
    BuildProgressUI._renderSummary, finalStatus, print, prints, removeListener, runloopEnd.
  cbn [andb fst snd BuildProgressUI._cancelled BuildProgressUI._services
       BuildProgressUI._prefix BuildProgressUI._startTime
       BuildProgressUI._ended BuildProgressUI._runloop
       BuildProgressUI._serviceToDataMap BuildProgressUI._prefixWidth
       BuildProgressUI._maxLineWidth BuildProgressUI._lineWidths BuildProgressUI._spinner
       out sigint timers nextTimer clock windowWidth exited] in *.
  destruct cancelled, rl;
    cbn [andb fst snd BuildProgressUI._cancelled BuildProgressUI._services
         BuildProgressUI._prefix BuildProgressUI._startTime
         BuildProgressUI._ended BuildProgressUI._runloop
         BuildProgressUI._serviceToDataMap BuildProgressUI._prefixWidth
         BuildProgressUI._maxLineWidth BuildProgressUI._lineWidths BuildProgressUI._spinner
         out sigint timers nextTimer clock windowWidth exited].
  all: rewrite Hrows by reflexivity.
  all: rewrite <- !app_assoc; reflexivity.
Qed.

(** The rows an inline renderer writes for a summary that knows every
    service, in full. *)
Lemma inline_rows_run (i : BuildProgressInline.inline) (m : gmap string jsval)
    (services : list string) (h : host) :
  (forall service, service ∈ services -> isNullish (field m service) = false) ->
  BuildProgressInline.forEach
    (fun service => BuildProgressInline._renderEvent L i service (field m service))
    services h
  = (Ok tt,
     prints (flat_map (fun service => inlineRow L i service (field m service)) services) h).
Proof.
  revert h. induction services as [|service rest IH]; intros h Hall.
  - cbn [BuildProgressInline.forEach flat_map]. rewrite prints_nil. reflexivity.
  - cbn [BuildProgressInline.forEach flat_map]. unfold bind.
    unfold BuildProgressInline._renderEvent at 1.
    rewrite (Hall service) by (apply elem_of_cons; auto).
    unfold modify at 1.
    rewrite IH by (intros s Hs; apply Hall, elem_of_cons; auto).
    rewrite prints_prints. reflexivity.
Qed.

(** C9: [end] is idempotent for both renderers.  The first call on a
    renderer that has not ended marks it ended and renders the final frame.
    The interactive renderer takes its interrupt handler off the process,
    stops its interval, clears the window, and writes the status line
    ([Build cancelled], or the number of services and the time the build
    took), a row for every service (the summary's text or, without a
    summary, the line of the service's last event) and the cursor.  The
    inline renderer writes a row per service when it is given a summary,
    and the closing line.  Every later call returns without touching the
    renderer, the process or the terminal. *)
Theorem renderer_end_idempotent :
  (forall summary summary' s,
      BuildProgressUI.end_ L summary' (BuildProgressUI.end_ L summary s)
      = BuildProgressUI.end_ L summary s) /\
  (forall summary u h,
      BuildProgressUI._ended u = true -> BuildProgressUI.end_ L summary (u, h) = (u, h)) /\
  (forall summary u h,
      BuildProgressUI._ended u = false ->
      let rows := map (finalRow L summary u h) (BuildProgressUI._services u) in
      BuildProgressUI.end_ L summary (u, h)
      = (BuildProgressUI.mkUI
           (BuildProgressUI._services u) (BuildProgressUI._serviceToDataMap u)
           (BuildProgressUI._prefix u) (BuildProgressUI._prefixWidth u)
           (Some (windowWidth h))
           (map (stringWidth L) rows
              ++ List.skipn (length rows) (BuildProgressUI._lineWidths u))
           (BuildProgressUI._startTime u) true (BuildProgressUI._cancelled u)
           (BuildProgressUI._spinner u) None,
         mkHost (out h ++ [DeleteToEnd; ClearLine; Write (BuildProgressUI._prefix u);
                           WriteLine (finalStatus L u h)]
                       ++ flat_map (fun row => [ClearLine; WriteLine row]) rows
                       ++ [ShowCursor])
                (Nat.pred (sigint h))
                (match BuildProgressUI._runloop u with
                 | Some timerId => timers h ∖ {[timerId]}
                 | None => timers h
                 end)
                (nextTimer h) (clock h) (windowWidth h) (exited h))) /\
  (forall summary summary' i h,
      let '(_, i', h') := BuildProgressInline.end_ L summary i h in
      BuildProgressInline._ended i' = true /\
      BuildProgressInline.end_ L summary' i' h' = (Ok tt, i', h')) /\
  (forall summary i h,
      BuildProgressInline._ended i = true ->
      BuildProgressInline.end_ L summary i h = (Ok tt, i, h)) /\
  (forall i h,
      BuildProgressInline._ended i = false ->
      BuildProgressInline.end_ L None i h
      = (Ok tt,
         BuildProgressInline.mkInline (BuildProgressInline._services i)
           (BuildProgressInline._prefixWidth i) (BuildProgressInline._startTime i) true,
         prints [Write (closingLine L i h)] h)) /\
  (forall m i h,
      BuildProgressInline._ended i = false ->
      (forall service, service ∈ BuildProgressInline._services i ->
                       isNullish (field m service) = false) ->
      BuildProgressInline.end_ L (Some m) i h
      = (Ok tt,
         BuildProgressInline.mkInline (BuildProgressInline._services i)
           (BuildProgressInline._prefixWidth i) (BuildProgressInline._startTime i) true,
         prints (flat_map (fun service => inlineRow L i service (field m service))
                          (BuildProgressInline._services i)
                   ++ [Write (closingLine L i h)]) h)).
Proof.
  split; [|split; [|split; [|split; [|split; [|split]]]]].
  - intros. apply ui_end_twice.
  - intros. apply ui_end_ended. assumption.
  - intros summary u h H. apply ui_end_run. exact H.
  - intros summary summary' i h.
    pose proof (inline_end_sets summary i h) as He.
    destruct (BuildProgressInline.end_ L summary i h) as [[r i'] h'].
    split; [exact He|]. apply inline_end_ended. exact He.
  - intros. apply inline_end_ended. assumption.
  - intros i h H. rewrite (inline_end_first i h H). reflexivity.
  - intros m i h H Hall. unfold BuildProgressInline.end_. rewrite H.
    cbn [BuildProgressInline._services BuildProgressInline._startTime].
    unfold bind at 1.
    rewrite (inline_rows_run
               (BuildProgressInline.mkInline (BuildProgressInline._services i)
                  (BuildProgressInline._prefixWidth i)
                  (BuildProgressInline._startTime i) true)
               m (BuildProgressInline._services i) h Hall).
    unfold modify, closingLine. rewrite <- prints_prints.
    destruct h. reflexivity.
Qed.

End RendererFacts.

(** The theorem on a renderer that was started for one service: the first
    [end] takes the handler off, writes the closing frame and ends the
    renderer, the second changes nothing. *)
Lemma renderer_end_idempotent_witness :
  Renderer.BuildProgressUI._ended (fst startedUI) = false /\
  Renderer.sigint (snd startedUI) = 1%nat /\
  Renderer.sigint (snd (Renderer.BuildProgressUI.end_ plainLibs None startedUI)) = 0%nat /\
  Renderer.out (snd (Renderer.BuildProgressUI.end_ plainLibs None startedUI))
  = [Renderer.HideCursor; Renderer.DeleteToEnd; Renderer.ClearLine;
     Renderer.Write "[Build]   ";
     Renderer.WriteLine "Built 1 service in 0 seconds";
     Renderer.ClearLine;
     Renderer.WriteLine "[Build]   main          Preparing...";
     Renderer.ShowCursor] /\
  Renderer.BuildProgressUI._ended
    (fst (Renderer.BuildProgressUI.end_ plainLibs None startedUI)) = true /\
  Renderer.BuildProgressUI.end_ plainLibs None
    (Renderer.BuildProgressUI.end_ plainLibs None startedUI)
  = Renderer.BuildProgressUI.end_ plainLibs None startedUI.
Proof.
  assert (Hfresh : Renderer.BuildProgressUI._ended (fst startedUI) = false)
    by reflexivity.
  split; [exact Hfresh|]. split; [reflexivity|].
  destruct (renderer_end_idempotent plainLibs) as (Htwice & _ & Hfirst & _).
  destruct startedUI as [u h] eqn:Hs. cbn [fst snd] in *.
  pose proof (Hfirst None u h Hfresh) as Hrun. cbv zeta in Hrun.
  assert (Hu : u = fst startedUI) by (rewrite Hs; reflexivity).
  assert (Hh : h = snd startedUI) by (rewrite Hs; reflexivity).
  rewrite Hrun. cbn [fst snd Renderer.sigint Renderer.out Renderer.BuildProgressUI._ended].
  split; [|split; [|split]].
  - rewrite Hh. reflexivity.
  - rewrite Hu, Hh. vm_compute. reflexivity.
  - reflexivity.
  - rewrite <- Hrun. apply Htwice.
Defined.

(** ** Release and push *)

Section DeployFacts.
Import JS Deploy.
Variable E : env.

(** *** Computations that leave the release alone *)

Lemma savedReleases_app (t u : list event) :
  savedReleases (t ++ u) = (savedReleases t ++ savedReleases u)%list.
Proof. unfold savedReleases. apply omap_app. Qed.

Lemma quiet_ret {A} (a : A) : quiet (ret a).
Proof. intros w. split; reflexivity. Qed.

Lemma quiet_throw {A} (e : string) : quiet (@throw world A e).
Proof. intros w. split; reflexivity. Qed.

Lemma quiet_lift {A} (r : res A) : quiet (lift r).
Proof. intros w. split; reflexivity. Qed.

Lemma quiet_gets {A} (f : world -> A) : quiet (gets f).
Proof. intros w. split; reflexivity. Qed.

Lemma quiet_bind {A B} (m : M world A) (k : A -> M world B) :
  quiet m -> (forall a, quiet (k a)) -> quiet (bind m k).
Proof.
  intros Hm Hk w. unfold bind. specialize (Hm w).
  destruct (m w) as [[a|e] w1]; cbn [snd] in *.
  - destruct (Hk a w1) as [H1 H2]. destruct Hm as [H3 H4]. split; congruence.
  - exact Hm.
Qed.

Lemma quiet_catch {A} (m : M world A) (h : string -> M world A) :
  quiet m -> (forall e, quiet (h e)) -> quiet (catch m h).
Proof.
  intros Hm Hh w. unfold catch. specialize (Hm w).
  destruct (m w) as [[a|e] w1]; cbn [snd] in *.
  - exact Hm.
  - destruct (Hh e w1) as [H1 H2]. destruct Hm as [H3 H4]. split; congruence.
Qed.

Lemma quiet_tapCatch {A} (m : M world A) (h : string -> M world unit) :
  quiet m -> (forall e, quiet (h e)) -> quiet (tapCatch m h).
Proof.
  intros Hm Hh w. unfold tapCatch. specialize (Hm w).
  destruct (m w) as [[a|e] w1]; cbn [snd] in *.
  - exact Hm.
  - specialize (Hh e w1). destruct (h e w1) as [[u|e'] w2]; cbn [snd] in *;
      destruct Hh as [H1 H2]; destruct Hm as [H3 H4]; split; congruence.
Qed.

Lemma quiet_finally {A} (m : M world A) (h : M world unit) :
  quiet m -> quiet h -> quiet (finally m h).
Proof.
  intros Hm Hh w. unfold finally. specialize (Hm w).
  destruct (m w) as [r w1]; cbn [snd] in *.
  specialize (Hh w1). destruct (h w1) as [[u|e'] w2]; cbn [snd] in *;
    destruct Hh as [H1 H2]; destruct Hm as [H3 H4]; split; congruence.
Qed.

Lemma quiet_tap {A} (m : M world A) (h : A -> M world unit) :
  quiet m -> (forall a, quiet (h a)) -> quiet (tap m h).
Proof.
  intros Hm Hh. unfold tap. apply quiet_bind; [exact Hm|].
  intros a. apply quiet_bind; [apply Hh|]. intros _. apply quiet_ret.
Qed.

Lemma quiet_emit (e : event) :
  (forall id r, e <> UpdateRelease id r) -> quiet (emit e).
Proof.
  intros He w. unfold emit, modify. cbn [snd release trace].
  split; [reflexivity|]. rewrite savedReleases_app.
  destruct e; cbn; rewrite ?app_nil_r; try reflexivity.
  exfalso. eapply He. reflexivity.
Qed.

Lemma quiet_setField (sn key : string) (v : jsval) : quiet (setField sn key v).
Proof. intros w. split; reflexivity. Qed.

Lemma quiet_deleteField (sn key : string) : quiet (deleteField sn key).
Proof. intros w. split; reflexivity. Qed.

Lemma quiet_promiseMap {A B} (f : nat -> A -> M world B) (l : list A) (i : nat) :
  (forall i a, quiet (f i a)) -> quiet (promiseMap f i l).
Proof.
  intros Hf. revert i. induction l as [|a l IH]; intros i w; cbn [promiseMap].
  - split; reflexivity.
  - specialize (Hf i a w). destruct (f i a w) as [ra w1]; cbn [snd] in *.
    specialize (IH (S i) w1). destruct (promiseMap f (S i) l w1) as [rr w2].
    cbn [snd] in *. destruct Hf, IH. split; congruence.
Qed.

Lemma quiet_promiseJoin {A B C} (p : M world A) (q : M world B) (handler : A -> B -> M world C) :
  quiet p -> quiet q -> (forall a b, quiet (handler a b)) -> quiet (promiseJoin p q handler).
Proof.
  intros Hp Hq Hh w. unfold promiseJoin.
  specialize (Hp w). destruct (p w) as [ra w1]; cbn [snd] in *.
  specialize (Hq w1). destruct (q w1) as [rb w2]; cbn [snd] in *.
  destruct Hp, Hq.
  destruct ra as [a|e]; [destruct rb as [b|e]|]; cbn [snd];
    try (split; congruence).
  destruct (Hh a b w2). split; congruence.
Qed.

Lemma quiet_retry {A} (func : nat -> M world A) (times : nat) (label : string)
    (delayMs backoffScaler : Q) (count : nat) :
  (forall n, quiet (func n)) -> quiet (retry func times label delayMs backoffScaler count).
Proof.
  intros Hf. revert count. induction times as [|t IH]; intros count; cbn [retry].
  - apply Hf.
  - apply quiet_catch; [apply Hf|]. intros _.
    apply quiet_bind; [apply quiet_emit; discriminate|]. intros _. apply IH.
Qed.

Ltac quiet_step :=
  first
    [ apply quiet_ret | apply quiet_throw | apply quiet_lift | apply quiet_gets
    | apply quiet_setField | apply quiet_deleteField
    | apply quiet_emit; discriminate
    | apply quiet_bind | apply quiet_catch | apply quiet_tapCatch
    | apply quiet_finally | apply quiet_tap | apply quiet_promiseMap
    | apply quiet_promiseJoin | apply quiet_retry
    | progress intros
    | match goal with
      | |- quiet (match ?x with _ => _ end) => destruct x
      | |- quiet (if ?b then _ else _) => destruct b
      | |- quiet (let '(_, _) := ?x in _) => destruct x
      end ].

Lemma quiet_promiseMapThrowing {A B} (f : A -> world -> res (M world B)) (l : list A) :
  (forall a w chain, f a w = Ok chain -> quiet chain) -> quiet (promiseMapThrowing f l).
Proof.
  intros Hf w. unfold promiseMapThrowing.
  assert (Hchains : Forall (fun chain => quiet chain) (fst (startAll f l w))).
  { induction l as [|a l IH]; cbn [startAll]; [constructor|].
    destruct (f a w) as [chain|e] eqn:Hfa; [|constructor].
    destruct (startAll f l w) as [chains thrown]. cbn [fst] in *.
    constructor; [exact (Hf a w chain Hfa)|exact IH]. }
  destruct (startAll f l w) as [chains thrown]. cbn [fst] in Hchains.
  assert (Hrun : forall i w0, release (snd (promiseMap (fun _ chain => chain) i chains w0))
                              = release w0 /\
                              savedReleases (trace (snd (promiseMap (fun _ chain => chain)
                                                           i chains w0)))
                              = savedReleases (trace w0)).
  { induction Hchains as [|chain chains Hchain _ IH]; intros i w0; cbn [promiseMap].
    - split; reflexivity.
    - specialize (Hchain w0). destruct (chain w0) as [ra w1]; cbn [snd] in *.
      specialize (IH (S i) w1).
      destruct (promiseMap (fun _ chain0 => chain0) (S i) chains w1) as [rr w2].
      cbn [snd] in *. destruct Hchain, IH. split; congruence. }
  specialize (Hrun 0%nat w).
  destruct (promiseMap (fun _ chain => chain) 0 chains w) as [r w']. exact Hrun.
Qed.

Lemma quiet_tagServiceImages (images : list builtImage) : quiet (tagServiceImages E images).
Proof.
  unfold tagServiceImages. apply quiet_promiseMapThrowing.
  intros d w chain. unfold tagServiceImage.
  destruct (serviceImages w !! serviceName d) as [serviceImage|]; [|discriminate].
  destruct (parseImageName _) as [[[registry repo] tag]|]; [|discriminate].
  intros [= <-]. repeat quiet_step.
Qed.

Lemma quiet_getPreviousRepos : quiet (getPreviousRepos E).
Proof. unfold getPreviousRepos. repeat quiet_step. Qed.

Lemma quiet_authorizePush (registry : string) (images previousRepos : list string) :
  quiet (authorizePush E registry images previousRepos).
Proof. unfold authorizePush. repeat quiet_step. Qed.

Lemma quiet_saveImage (skipLogUpload : bool) (img : taggedImage) :
  quiet (saveImage E skipLogUpload img).
Proof. unfold saveImage. repeat quiet_step. Qed.

Lemma quiet_pushAndUpdateServiceImages (token : jsval) (images : list taggedImage)
    (skipLogUpload : bool) :
  quiet (pushAndUpdateServiceImages E token images (Some (saveImage E skipLogUpload))).
Proof.
  unfold pushAndUpdateServiceImages, pushAndUpdateServiceImage, recordSuccess,
    recordFailure, pushAttempt.
  apply quiet_promiseMap. intros i img.
  apply quiet_finally; [|apply quiet_bind; [apply quiet_emit; discriminate|];
                         intros _; apply quiet_saveImage].
  repeat quiet_step.
Qed.

(** The stage between the creation of the release and its last update
    does not touch the release. *)
Lemma quiet_tagAndPush (images : list builtImage) (skipLogUpload : bool) :
  quiet (tagAndPush E images skipLogUpload).
Proof.
  unfold tagAndPush.
  apply quiet_tap; [apply quiet_tagServiceImages|]. intros tagged.
  apply quiet_finally.
  - apply quiet_bind; [apply quiet_getPreviousRepos|]. intros previousRepos.
    apply quiet_bind.
    { destruct tagged; [apply quiet_throw|apply quiet_authorizePush]. }
    intros token.
    apply quiet_bind; [apply quiet_emit; discriminate|]. intros _.
    apply quiet_bind; [apply quiet_pushAndUpdateServiceImages|]. intros _.
    apply quiet_ret.
  - repeat quiet_step.
Qed.

(** *** The chain of one image *)

Lemma delay_first : Qred (2000 * (14 # 10) ^ Z.of_nat 0) = (2000 # 1)%Q.
Proof. vm_compute. reflexivity. Qed.

Lemma delay_second : Qred (2000 * (14 # 10) ^ Z.of_nat 1) = (2800 # 1)%Q.
Proof. vm_compute. reflexivity. Qed.

Lemma delay_third : Qred (2000 * (14 # 10) ^ Z.of_nat 2) = (3920 # 1)%Q.
Proof. vm_compute. reflexivity. Qed.

(** The retried push: the outcome is that of the first attempt that
    succeeds, or of the fourth; the waits are 2000, 2800 and 3920 ms. *)
Lemma retry_push_run (index : nat) (img : taggedImage) (w : world) :
  retry (pushAttempt E index img) 3 (localImage img) 2000 (14 # 10) 0 w
  = (pushResult E index (failuresBefore (pushResult E index)),
     mkWorld (serviceImages w) (release w)
             (trace w ++ attempts index (localImage img) pushDelays
                                  (failuresBefore (pushResult E index)) 0)).
Proof.
  unfold failuresBefore.
  cbn [retry]. unfold catch, pushAttempt, bind, emit, lift, modify.
  cbn [fst snd serviceImages release trace].
  rewrite delay_first, delay_second, delay_third.
  destruct (pushResult E index 0) as [d0|e0] eqn:H0; cbn [is_ok];
    [rewrite ?H0; reflexivity|].
  cbn [fst snd serviceImages release trace].
  destruct (pushResult E index 1) as [d1|e1] eqn:H1; cbn [is_ok];
    [rewrite ?H1, <- !app_assoc; reflexivity|].
  cbn [fst snd serviceImages release trace].
  destruct (pushResult E index 2) as [d2|e2] eqn:H2; cbn [is_ok];
    [rewrite ?H2, <- !app_assoc; reflexivity|].
  cbn [fst snd serviceImages release trace].
  destruct (pushResult E index 3) as [d3|e3] eqn:H3;
    rewrite ?H3, <- !app_assoc; reflexivity.
Qed.

Lemma alter_twice (f g : gmap string jsval -> gmap string jsval) (sn : string)
    (store : gmap string (gmap string jsval)) :
  alter f sn (alter g sn store) = alter (f ∘ g) sn store.
Proof. apply alter_alter_eq. Qed.

Lemma recordSuccess_run (img : taggedImage) (size : Z) (digest : string) (w : world) :
  exists f,
    recordSuccess E img size digest w
    = (Ok tt, mkWorld (alter f (t_serviceName img) (serviceImages w)) (release w) (trace w)) /\
    forall old, settled (Ok (size, digest)) (f old).
Proof.
  unfold recordSuccess, bind, setField, modify, ret.
  cbn [fst snd serviceImages release trace].
  destruct (truthy (field (t_props img) "startTime"));
    destruct (truthy (field (t_props img) "endTime"));
    cbn [fst snd serviceImages release trace];
    rewrite !alter_twice;
    (eexists; split; [reflexivity|]);
    intros old; cbn [settled compose];
    rewrite lookup_insert_eq;
    rewrite !(lookup_insert_ne _ _ "image_size") by discriminate;
    rewrite !(lookup_insert_ne _ _ "content_hash") by discriminate;
    rewrite !lookup_insert_eq; auto.
Qed.

Lemma recordFailure_run (img : taggedImage) (e : string) (w : world) :
  exists f,
    recordFailure img e w
    = (Ok tt, mkWorld (alter f (t_serviceName img) (serviceImages w)) (release w) (trace w)) /\
    forall old, settled (Throw e) (f old).
Proof.
  unfold recordFailure, bind, setField, modify.
  cbn [fst snd serviceImages release trace].
  rewrite alter_twice. eexists; split; [reflexivity|].
  intros old. cbn [settled compose]. rewrite lookup_insert_eq.
  rewrite lookup_insert_ne by discriminate. rewrite lookup_insert_eq. auto.
Qed.

Lemma saveImage_run (skipLogUpload : bool) (img : taggedImage) (w : world) :
  exists f msg,
    let store := alter f (t_serviceName img) (serviceImages w) in
    let record := default ∅ (store !! t_serviceName img) in
    saveImage E skipLogUpload img w
    = (updateImageResult E (field record "id") record,
       mkWorld store (release w)
               (trace w ++ [Log msg; UpdateImage (field record "id") record])) /\
    forall old key, key <> "build_log" -> f old !! key = old !! key.
Proof.
  unfold saveImage, deleteField, bind, gets, emit, lift, ret, modify.
  destruct skipLogUpload; cbn [fst snd serviceImages release trace].
  - exists (delete "build_log"). eexists. cbv zeta.
    split; [rewrite <- !app_assoc; reflexivity|].
    intros old key Hk. apply lookup_delete_ne. congruence.
  - exists (fun r => r). eexists. cbv zeta.
    rewrite alter_id by reflexivity.
    split; [rewrite <- !app_assoc; reflexivity|].
    intros old key Hk. reflexivity.
Qed.

Lemma settled_frame (outcome : res (Z * string)) (f : gmap string jsval -> gmap string jsval)
    (record : gmap string jsval) :
  (forall old key, key <> "build_log" -> f old !! key = old !! key) ->
  settled outcome record -> settled outcome (f record).
Proof.
  intros Hf. destruct outcome as [[size digest]|e]; cbn [settled];
    rewrite !Hf by discriminate; auto.
Qed.

(** The chain of one image, run to its end: what it writes to the image's
    record, what it shows, and when it fulfils. *)
Lemma pushAndUpdateServiceImage_run (skipLogUpload : bool) (index : nat)
    (img : taggedImage) (w : world) :
  exists f msg r,
    let store := alter f (t_serviceName img) (serviceImages w) in
    pushAndUpdateServiceImage E (Some (saveImage E skipLogUpload)) index img w
    = (r, mkWorld store (release w)
                  (trace w ++ chainEvents E index img msg
                                          (default ∅ (store !! t_serviceName img)))) /\
    (forall old, settled (ownOutcome E index img) (f old)) /\
    (is_ok r = true -> is_ok (ownOutcome E index img) = true).
Proof.
  unfold pushAndUpdateServiceImage, finally, tapCatch, promiseJoin.
  unfold bind at 1. unfold emit at 1. unfold modify at 1. unfold lift at 1.
  cbn [fst snd serviceImages release trace].
  rewrite retry_push_run. cbn [fst snd serviceImages release trace].
  unfold ownOutcome, chainEvents.
  set (k := failuresBefore (pushResult E index)).
  destruct (inspectSize E (localImage img)) as [size|e1];
    [destruct (pushResult E index k) as [digest|e2]|].
  - (* the image was inspected and pushed *)
    match goal with |- context [recordSuccess E img size digest ?w1] =>
      destruct (recordSuccess_run img size digest w1) as (f1 & -> & Hf1) end.
    unfold bind at 1. unfold emit at 1. unfold modify at 1.
    cbn [fst snd serviceImages release trace].
    match goal with |- context [saveImage E skipLogUpload img ?w2] =>
      destruct (saveImage_run skipLogUpload img w2) as (f2 & msg & Hrun & Hf2) end.
    cbv zeta in Hrun. cbn [fst snd serviceImages release trace] in Hrun.
    rewrite Hrun. clear Hrun. rewrite alter_twice.
    exists (f2 ∘ f1), msg.
    destruct (updateImageResult E _ _) as [u|e'];
      (eexists; split; [cbv zeta; rewrite <- !app_assoc; reflexivity|]);
      (split; [intros old; apply (settled_frame _ f2 (f1 old)); [exact Hf2|apply Hf1]|reflexivity]).
  - (* every push attempt failed *)
    match goal with |- context [recordFailure img e2 ?w1] =>
      destruct (recordFailure_run img e2 w1) as (f1 & -> & Hf1) end.
    unfold bind at 1. unfold emit at 1. unfold modify at 1.
    cbn [fst snd serviceImages release trace].
    match goal with |- context [saveImage E skipLogUpload img ?w2] =>
      destruct (saveImage_run skipLogUpload img w2) as (f2 & msg & Hrun & Hf2) end.
    cbv zeta in Hrun. cbn [fst snd serviceImages release trace] in Hrun.
    rewrite Hrun. clear Hrun. rewrite alter_twice.
    exists (f2 ∘ f1), msg.
    destruct (updateImageResult E _ _) as [u|e'];
      (eexists; split; [cbv zeta; rewrite <- !app_assoc; reflexivity|]);
      (split; [intros old; apply (settled_frame _ f2 (f1 old)); [exact Hf2|apply Hf1]|discriminate]).
  - (* the inspection failed *)
    match goal with |- context [recordFailure img e1 ?w1] =>
      destruct (recordFailure_run img e1 w1) as (f1 & -> & Hf1) end.
    unfold bind at 1. unfold emit at 1. unfold modify at 1.
    cbn [fst snd serviceImages release trace].
    match goal with |- context [saveImage E skipLogUpload img ?w2] =>
      destruct (saveImage_run skipLogUpload img w2) as (f2 & msg & Hrun & Hf2) end.
    cbv zeta in Hrun. cbn [fst snd serviceImages release trace] in Hrun.
    rewrite Hrun. clear Hrun. rewrite alter_twice.
    exists (f2 ∘ f1), msg.
    destruct (updateImageResult E _ _) as [u|e'];
      (eexists; split; [cbv zeta; rewrite <- !app_assoc; reflexivity|]);
      (split; [intros old; apply (settled_frame _ f2 (f1 old)); [exact Hf2|apply Hf1]|discriminate]).
Qed.

(** *** Counting in traces *)

Lemma callbacksOf_app (c : nat) (t u : list event) :
  callbacksOf c (t ++ u) = (callbacksOf c t + callbacksOf c u)%nat.
Proof. unfold callbacksOf. rewrite List.filter_app, length_app. reflexivity. Qed.

Lemma pushesOf_app (c : nat) (t u : list event) :
  pushesOf c (t ++ u) = (pushesOf c t ++ pushesOf c u)%list.
Proof. unfold pushesOf. apply omap_app. Qed.

Lemma callbacksOf_attempts (c index : nat) (name : string) (delays : list Q)
    (failures count : nat) :
  callbacksOf c (attempts index name delays failures count) = 0%nat.
Proof.
  revert delays count. induction failures as [|k IH]; intros delays count.
  - reflexivity.
  - destruct delays as [|d delays]; [reflexivity|].
    cbn [attempts]. change (callbacksOf c (?a :: ?b :: ?l)) with (callbacksOf c l).
    apply IH.
Qed.

Lemma pushesOf_attempts (c index : nat) (name : string) (delays : list Q)
    (failures count : nat) :
  (failures <= length delays)%nat ->
  pushesOf c (attempts index name delays failures count)
  = if (index =? c)%nat then seq count (S failures) else [].
Proof.
  revert delays count. induction failures as [|k IH]; intros delays count Hk.
  - cbn. destruct (index =? c)%nat; reflexivity.
  - destruct delays as [|d delays]; [cbn in Hk; lia|].
    cbn [attempts]. specialize (IH delays (S count) ltac:(cbn in Hk; lia)).
    unfold pushesOf in *. cbn [omap list_omap]. rewrite IH.
    destruct (index =? c)%nat; reflexivity.
Qed.

Lemma failuresBefore_le (results : nat -> res string) : (failuresBefore results <= 3)%nat.
Proof.
  unfold failuresBefore.
  destruct (is_ok (results 0%nat)), (is_ok (results 1%nat)), (is_ok (results 2%nat)); lia.
Qed.

Lemma callbacksOf_chain (c index : nat) (img : taggedImage) (msg : string)
    (record : gmap string jsval) :
  callbacksOf c (chainEvents E index img msg record) = if (index =? c)%nat then 1%nat else 0%nat.
Proof.
  unfold chainEvents.
  change (callbacksOf c (Inspect ?n :: ?l)) with (callbacksOf c l).
  rewrite callbacksOf_app, callbacksOf_attempts.
  cbn. destruct (index =? c)%nat; reflexivity.
Qed.

Lemma pushesOf_chain (c index : nat) (img : taggedImage) (msg : string)
    (record : gmap string jsval) :
  pushesOf c (chainEvents E index img msg record)
  = if (index =? c)%nat then seq 0 (S (failuresBefore (pushResult E index))) else [].
Proof.
  unfold chainEvents.
  change (pushesOf c (Inspect ?n :: ?l)) with (pushesOf c l).
  rewrite pushesOf_app, pushesOf_attempts by apply failuresBefore_le.
  cbn [pushesOf omap list_omap app]. rewrite app_nil_r. reflexivity.
Qed.

(** *** All images *)

Lemma window_head (i0 c n : nat) :
  ((if (i0 =? c)%nat then 1 else 0)
   + (if bool_decide (S i0 <= c < S i0 + n)%nat then 1 else 0)
   = if bool_decide (i0 <= c < i0 + S n)%nat then 1 else 0)%nat.
Proof.
  destruct (Nat.eqb_spec i0 c); repeat case_bool_decide; lia.
Qed.

(** The chains of all images, run one after the other from index [i0]. *)
Lemma pushAll_run (skipLogUpload : bool) (images : list taggedImage) :
  forall (i0 : nat) (w : world),
    NoDup (t_serviceName <$> images) ->
    (forall img, img ∈ images -> is_Some (serviceImages w !! t_serviceName img)) ->
    let run := promiseMap (pushAndUpdateServiceImage E (Some (saveImage E skipLogUpload)))
                          i0 images w in
    (exists tail, trace (snd run) = (trace w ++ tail)%list) /\
    (forall s, s ∉ t_serviceName <$> images ->
               serviceImages (snd run) !! s = serviceImages w !! s) /\
    (forall s, is_Some (serviceImages w !! s) -> is_Some (serviceImages (snd run) !! s)) /\
    (forall c, callbacksOf c (trace (snd run))
               = (callbacksOf c (trace w)
                  + if bool_decide (i0 <= c < i0 + length images)%nat then 1 else 0)%nat) /\
    (forall c, pushesOf c (trace (snd run))
               = (pushesOf c (trace w)
                  ++ if bool_decide (i0 <= c < i0 + length images)%nat
                     then seq 0 (S (failuresBefore (pushResult E c))) else [])%list) /\
    (forall j img,
        images !! j = Some img ->
        exists before after msg record,
          trace (snd run)
          = (trace w ++ before ++ chainEvents E (i0 + j) img msg record ++ after)%list /\
          serviceImages (snd run) !! t_serviceName img = Some record /\
          settled (ownOutcome E (i0 + j) img) record) /\
    (is_ok (fst run) = true ->
     forall j img, images !! j = Some img -> is_ok (ownOutcome E (i0 + j) img) = true).
Proof.
  induction images as [|img rest IH]; intros i0 w Hnd Hin; cbv zeta.
  - cbn [promiseMap ret fst snd length].
    split; [exists []; rewrite app_nil_r; reflexivity|].
    repeat split; auto.
    + intros c. rewrite bool_decide_eq_false_2 by lia. lia.
    + intros c. rewrite bool_decide_eq_false_2 by lia. rewrite app_nil_r. reflexivity.
    + intros j img Hj. rewrite lookup_nil in Hj. discriminate.
    + intros _ j img Hj. rewrite lookup_nil in Hj. discriminate.
  - rewrite fmap_cons in Hnd. apply NoDup_cons in Hnd as [Hfresh Hnd].
    cbn [promiseMap].
    destruct (pushAndUpdateServiceImage_run skipLogUpload i0 img w)
      as (f & msg & r & Hrun & Hset & Hok).
    cbv zeta in Hrun. rewrite Hrun.
    set (store1 := alter f (t_serviceName img) (serviceImages w)) in *.
    set (rec1 := default ∅ (store1 !! t_serviceName img)) in *.
    set (w1 := mkWorld store1 (release w) (trace w ++ chainEvents E i0 img msg rec1)).
    assert (Hin1 : forall img', img' ∈ rest ->
                                is_Some (serviceImages w1 !! t_serviceName img')).
    { intros img' Hi. cbn [serviceImages w1]. unfold store1.
      apply lookup_alter_is_Some. apply Hin. apply elem_of_cons. auto. }
    specialize (IH (S i0) w1 Hnd Hin1). cbv zeta in IH.
    destruct (promiseMap _ (S i0) rest w1) as [rr w2].
    cbn [fst snd] in *.
    destruct IH as ([tail Htail] & Hframe & Hkeep & Hcb & Hpush & Hseg & Hres).
    destruct (Hin img ltac:(apply elem_of_cons; auto)) as [old Hold].
    assert (Hrec1 : store1 !! t_serviceName img = Some (f old)).
    { unfold store1. rewrite lookup_alter_eq. rewrite Hold. reflexivity. }
    assert (Hrec1' : rec1 = f old) by (unfold rec1; rewrite Hrec1; reflexivity).
    split; [|split; [|split; [|split; [|split; [|split]]]]].
    + eexists. rewrite Htail. cbn [trace w1]. rewrite <- app_assoc. reflexivity.
    + intros s Hs. rewrite fmap_cons in Hs. apply not_elem_of_cons in Hs as [Hne Hs].
      rewrite (Hframe s Hs). cbn [serviceImages w1]. unfold store1.
      apply lookup_alter_ne. intros Heq. apply Hne. symmetry. exact Heq.
    + intros s Hs. apply Hkeep. cbn [serviceImages w1]. unfold store1.
      apply lookup_alter_is_Some. exact Hs.
    + intros c. rewrite Hcb. cbn [trace w1 length].
      rewrite callbacksOf_app, callbacksOf_chain, <- Nat.add_assoc, window_head.
      reflexivity.
    + intros c. rewrite Hpush. cbn [trace w1 length].
      rewrite pushesOf_app, pushesOf_chain, <- app_assoc. f_equal.
      destruct (Nat.eqb_spec i0 c) as [->|Hne]; repeat case_bool_decide;
        try lia; rewrite ?app_nil_r; reflexivity.
    + intros j img' Hj. destruct j as [|j].
      * cbn in Hj. injection Hj as <-.
        exists [], tail, msg, rec1.
        rewrite Nat.add_0_r. split; [|split].
        -- cbn [app]. rewrite Htail. cbn [trace w1]. rewrite <- app_assoc. reflexivity.
        -- rewrite (Hframe _ Hfresh), Hrec1'. exact Hrec1.
        -- rewrite Hrec1'. apply Hset.
      * cbn in Hj. destruct (Hseg j img' Hj) as (before & after & msg' & record & Ht & Hr & Hs).
        exists (chainEvents E i0 img msg rec1 ++ before)%list, after, msg', record.
        replace (i0 + S j)%nat with (S i0 + j)%nat by lia.
        split; [|auto]. rewrite Ht. cbn [trace w1]. rewrite <- !app_assoc. reflexivity.
    + intros Hall j img' Hj.
      assert (Hboth : is_ok r = true /\ is_ok rr = true).
      { destruct r, rr; cbn in Hall; auto; discriminate. }
      destruct Hboth as [Hr Hrr]. destruct j as [|j].
      * cbn in Hj. injection Hj as <-. rewrite Nat.add_0_r. apply Hok. exact Hr.
      * cbn in Hj. replace (i0 + S j)%nat with (S i0 + j)%nat by lia.
        apply (Hres Hrr j img' Hj).
Qed.

Lemma pushAll_ok (skipLogUpload : bool) (images : list taggedImage) :
  forall (i0 : nat) (w : world),
    is_ok (fst (promiseMap (pushAndUpdateServiceImage E (Some (saveImage E skipLogUpload)))
                           i0 images w)) = true ->
    forall j img, images !! j = Some img -> is_ok (ownOutcome E (i0 + j) img) = true.
Proof.
  induction images as [|img rest IH]; intros i0 w Hall j img' Hj.
  - rewrite lookup_nil in Hj. discriminate.
  - cbn [promiseMap] in Hall.
    destruct (pushAndUpdateServiceImage_run skipLogUpload i0 img w)
      as (f & msg & r & Hrun & _ & Hok).
    cbv zeta in Hrun. rewrite Hrun in Hall.
    match type of Hall with context [promiseMap ?g (S i0) rest ?w1] =>
      specialize (IH (S i0) w1); destruct (promiseMap g (S i0) rest w1) as [rr w2] end.
    cbn [fst] in *.
    assert (Hboth : is_ok r = true /\ is_ok rr = true).
    { destruct r, rr; cbn in Hall; auto; discriminate. }
    destruct Hboth as [Hr Hrr]. destruct j as [|j].
    + cbn in Hj. injection Hj as <-. rewrite Nat.add_0_r. apply Hok. exact Hr.
    + cbn in Hj. replace (i0 + S j)%nat with (S i0 + j)%nat by lia.
      apply (IH Hrr j img' Hj).
Qed.

(** C5: the push stage.  Let the tagged images have distinct service names
    and their records exist.  Then for every image, whatever happens to
    the others:
    - its push is tried through [retry] with 3 retries, a first wait of
      2000 ms and a factor of 1.4: the attempts are numbered 0 to the
      number of failures, at most 3, and the chain shows the waits 2000,
      2800 and 3920 ms between them ([chainEvents], [pushDelays]);
    - its record is settled by its own outcome alone: [success] with size
      and digest when the inspection and a push attempt succeeded,
      [failed] with the error as [error_message] otherwise;
    - the callback is entered exactly once, after the record is settled,
      and asks the backend to store that record;
    - in particular, when all four attempts fail the record is [failed]
      and carries an error message. *)
Theorem pushAndUpdateServiceImages_isolated
    (skipLogUpload : bool) (token : jsval) (images : list taggedImage) (w : world) :
  NoDup (t_serviceName <$> images) ->
  (forall img, img ∈ images -> is_Some (serviceImages w !! t_serviceName img)) ->
  let w' := snd (pushAndUpdateServiceImages E token images
                   (Some (saveImage E skipLogUpload)) w) in
  forall index img,
    images !! index = Some img ->
    let failures := failuresBefore (pushResult E index) in
    (failures <= 3)%nat /\
    pushesOf index (trace w') = (pushesOf index (trace w) ++ seq 0 (S failures))%list /\
    callbacksOf index (trace w') = S (callbacksOf index (trace w)) /\
    (exists before after msg record,
        trace w' = (trace w ++ before ++ chainEvents E index img msg record ++ after)%list /\
        serviceImages w' !! t_serviceName img = Some record /\
        settled (ownOutcome E index img) record) /\
    ((forall n, (n <= 3)%nat -> is_ok (pushResult E index n) = false) ->
     exists record e,
       serviceImages w' !! t_serviceName img = Some record /\
       record !! "status" = Some (VStr "failed") /\
       record !! "error_message" = Some (VStr e)).
Proof.
  intros Hnd Hin w' index img Hidx failures.
  destruct (pushAll_run skipLogUpload images 0 w Hnd Hin)
    as (_ & _ & _ & Hcb & Hpush & Hseg & _).
  fold (pushAndUpdateServiceImages E token images (Some (saveImage E skipLogUpload)) w)
    in Hcb, Hpush, Hseg.
  fold w' in Hcb, Hpush, Hseg.
  assert (Hlt : (index < length images)%nat) by (eapply lookup_lt_Some; eauto).
  destruct (Hseg index img Hidx) as (before & after & msg & record & Ht & Hr & Hs).
  cbn [Nat.add] in Ht, Hs.
  split; [apply failuresBefore_le|]. split; [|split; [|split]].
  - rewrite Hpush. rewrite bool_decide_eq_true_2 by lia. reflexivity.
  - rewrite Hcb. rewrite bool_decide_eq_true_2 by lia. lia.
  - exists before, after, msg, record. auto.
  - intros Hfail. unfold ownOutcome in Hs.
    pose proof (Hfail failures (failuresBefore_le _)) as Hlast. fold failures in Hs.
    destruct (inspectSize E (localImage img)) as [size|e1];
      [destruct (pushResult E index failures) as [digest|e2]; [discriminate|]|];
      cbn [settled] in Hs; destruct Hs as [Hst Herr]; eauto.
Qed.

(** *** The release *)

Lemma bind_ok {A B} (m : M world A) (k : A -> M world B) (w : world) :
  is_ok (fst (bind m k w)) = true ->
  exists a w1, m w = (Ok a, w1) /\ is_ok (fst (k a w1)) = true.
Proof.
  unfold bind. destruct (m w) as [[a|e] w1]; [eauto|discriminate].
Qed.

Lemma finally_ok {A} (m : M world A) (h : M world unit) (w : world) :
  is_ok (fst (finally m h w)) = true -> is_ok (fst (m w)) = true.
Proof.
  unfold finally. destruct (m w) as [r w1]. destruct (h w1) as [[u|e] w2]; auto.
  discriminate.
Qed.

Lemma promiseMap_length {A B} (f : nat -> A -> M world B) (l : list A) :
  forall i w bs w', promiseMap f i l w = (Ok bs, w') -> length bs = length l.
Proof.
  induction l as [|a l IH]; intros i w bs w' H; cbn [promiseMap] in H.
  - injection H as <- _. reflexivity.
  - destruct (f i a w) as [ra w1].
    destruct (promiseMap f (S i) l w1) as [rr w2] eqn:Hrest.
    destruct ra as [b|e]; [destruct rr as [bs'|e]|]; try discriminate.
    injection H as <- _. cbn. f_equal. eapply IH. exact Hrest.
Qed.

Lemma startAll_length {A B} (f : A -> world -> res (M world B)) (l : list A) (w : world) :
  snd (startAll f l w) = None -> length (fst (startAll f l w)) = length l.
Proof.
  induction l as [|a l IH]; cbn [startAll]; [reflexivity|].
  destruct (f a w) as [chain|e]; [|discriminate].
  destruct (startAll f l w) as [chains thrown]. cbn [fst snd] in *.
  intros H. cbn [length]. f_equal. exact (IH H).
Qed.

(** When the tagging fulfils, every image was tagged. *)
Lemma tagServiceImages_length (images : list builtImage) (w w' : world)
    (tagged : list taggedImage) :
  tagServiceImages E images w = (Ok tagged, w') -> length tagged = length images.
Proof.
  unfold tagServiceImages, promiseMapThrowing.
  pose proof (startAll_length (tagServiceImage E) images w) as Hlen.
  destruct (startAll (tagServiceImage E) images w) as [chains thrown]. cbn [fst snd] in Hlen.
  destruct (promiseMap (fun _ chain => chain) 0 chains w) as [r w1] eqn:Hrun.
  destruct thrown as [e|]; [discriminate|].
  intros [= -> <-].
  transitivity (length chains); [|apply Hlen; reflexivity].
  eapply promiseMap_length. exact Hrun.
Qed.

(** When the stage fulfils, every image was pushed: one of its (at most
    four) attempts succeeded. *)
Lemma tagAndPush_ok (images : list builtImage) (skipLogUpload : bool) (w : world) :
  is_ok (fst (tagAndPush E images skipLogUpload w)) = true ->
  forall j, (j < length images)%nat ->
            exists n, (n <= 3)%nat /\ is_ok (pushResult E j n) = true.
Proof.
  unfold tagAndPush, tap. intros H j Hj.
  apply bind_ok in H as (tagged & wa & Htag & H).
  apply bind_ok in H as (u & wb & H & _).
  assert (Hbody : is_ok (fst (finally
            (previousRepos <- getPreviousRepos E;;
             token <- match tagged with
                      | [] => throw "TypeError: Cannot read property 'registry' of undefined"
                      | first :: _ =>
                          authorizePush E (registry first) (map repo tagged) previousRepos
                      end;;
             emit (Log "Pushing images to registry...");;;
             pushAndUpdateServiceImages E token tagged (Some (saveImage E skipLogUpload));;;
             ret ())%M
            (emit (Log "Untagging images...");;;
             promiseMap (fun _ img =>
                           emit (Remove (localImage img));;;
                           lift (removeResult E (localImage img))) 0 tagged;;;
             ret ())%M wa)) = true) by (rewrite H; reflexivity).
  apply finally_ok in Hbody.
  apply bind_ok in Hbody as (prev & w1 & _ & Hbody).
  apply bind_ok in Hbody as (token & w2 & _ & Hbody).
  apply bind_ok in Hbody as (u1 & w3 & _ & Hbody).
  apply bind_ok in Hbody as (us & w4 & Hpush & _).
  assert (Hlen : length tagged = length images)
    by (eapply tagServiceImages_length; exact Htag).
  destruct (lookup_lt_is_Some_2 tagged j ltac:(lia)) as [img Himg].
  assert (Hown : is_ok (ownOutcome E (0 + j) img) = true).
  { eapply (pushAll_ok skipLogUpload tagged 0 w3); [|exact Himg].
    unfold pushAndUpdateServiceImages in Hpush. rewrite Hpush. reflexivity. }
  cbn [Nat.add] in Hown. unfold ownOutcome in Hown.
  exists (failuresBefore (pushResult E j)). split; [apply failuresBefore_le|].
  destruct (inspectSize E (localImage img)); [|discriminate].
  destruct (pushResult E j (failuresBefore (pushResult E j))); [reflexivity|discriminate].
Qed.

Lemma omit_other (keys : list string) (m : gmap string jsval) (k : string) :
  k ∉ keys -> omit keys m !! k = m !! k.
Proof.
  unfold omit. revert m. induction keys as [|key keys IH]; intros m Hk; cbn; auto.
  apply not_elem_of_cons in Hk as [Hne Hk].
  rewrite IH by exact Hk. apply lookup_delete_ne. congruence.
Qed.

(** The world a deploy leaves behind, given what the stage did. *)
Lemma deployProject_run
    (images : list builtImage) (skipLogUpload : bool) (w : world)
    (rel : gmap string jsval) (imgs : gmap string (gmap string jsval))
    (r : res (list taggedImage)) (w1 : world) :
  created E = Ok (rel, imgs) ->
  tagAndPush E images skipLogUpload
    (mkWorld (omit ["created_at"; "is_a_build_of__service"; "__metadata"] <$> imgs)
             (omit ["created_at"; "belongs_to__application"; "is_created_by__user";
                    "__metadata"] rel)
             (trace w)) = (r, w1) ->
  release w1 = omit ["created_at"; "belongs_to__application"; "is_created_by__user";
                     "__metadata"] rel ->
  snd (deployProject E images skipLogUpload w)
  = let final :=
      <["end_timestamp" := VDate (now E)]>
        (<["status" := VStr (if is_ok r then "success" else "failed")]>
           (omit ["created_at"; "belongs_to__application"; "is_created_by__user";
                  "__metadata"] rel)) in
    mkWorld (serviceImages w1) final
            (trace w1 ++ if isNullish (field final "id") then []
                         else [UpdateRelease (field final "id") final]).
Proof.
  intros Hcreated Hstage Hrel.
  unfold deployProject, createRelease.
  unfold bind at 1. unfold bind at 1. unfold lift at 1. rewrite Hcreated.
  unfold modify at 1. cbn [fst snd].
  unfold bind at 1. unfold finally, tapCatch. unfold bind at 1.
  rewrite Hstage.
  unfold saveRelease, setRelease, bind, modify, gets, emit, lift, ret.
  destruct r as [tagged|e]; cbn [is_ok fst snd release trace serviceImages];
    rewrite Hrel; cbv zeta;
    match goal with |- context [isNullish ?x] => destruct (isNullish x) end;
    cbn [fst snd release trace serviceImages];
    try match goal with |- context [updateReleaseResult E ?a ?b] =>
          destruct (updateReleaseResult E a b) end;
    cbn [fst snd release trace serviceImages]; rewrite ?app_nil_r; reflexivity.
Qed.

(** C1, as the code has it.  Once the release is created, the stage that
    tags, authorizes, pushes and untags decides its status: [success]
    exactly when the stage fulfils, and then every image was pushed;
    [failed] when anything in it throws.  Either way the last step runs: it
    stamps the release with the end time, and, when the release has an
    identity, asks the backend once to store it, with that status and that
    time; without an identity nothing is stored. *)
Theorem deployProject_release
    (images : list builtImage) (skipLogUpload : bool) (w : world)
    (rel : gmap string jsval) (imgs : gmap string (gmap string jsval)) :
  created E = Ok (rel, imgs) ->
  let rel0 := omit ["created_at"; "belongs_to__application"; "is_created_by__user";
                    "__metadata"] rel in
  let w0 := mkWorld (omit ["created_at"; "is_a_build_of__service"; "__metadata"] <$> imgs)
                    rel0 (trace w) in
  let stage := fst (tagAndPush E images skipLogUpload w0) in
  let status := VStr (if is_ok stage then "success" else "failed") in
  let final := <["end_timestamp" := VDate (now E)]> (<["status" := status]> rel0) in
  let w' := snd (deployProject E images skipLogUpload w) in
  release w' = final /\
  savedReleases (trace w')
  = (savedReleases (trace w) ++ if isNullish (field rel "id") then [] else [final])%list /\
  final !! "status" = Some status /\
  final !! "end_timestamp" = Some (VDate (now E)) /\
  (final !! "status" = Some (VStr "success") <-> is_ok stage = true) /\
  (is_ok stage = true ->
   forall j, (j < length images)%nat ->
             exists n, (n <= 3)%nat /\ is_ok (pushResult E j n) = true).
Proof.
  intros Hcreated rel0 w0 stage status final w'.
  assert (Hid : field final "id" = field rel "id").
  { unfold final, field. rewrite !lookup_insert_ne by discriminate.
    unfold rel0. rewrite omit_other; [reflexivity|].
    intros Hin. repeat (apply elem_of_cons in Hin as [Hin|Hin]; [discriminate|]).
    apply elem_of_nil in Hin. exact Hin. }
  assert (Hstatus : final !! "status" = Some status).
  { unfold final. rewrite lookup_insert_ne by discriminate. apply lookup_insert_eq. }
  assert (Hrun : release w' = final /\
                 savedReleases (trace w')
                 = (savedReleases (trace w)
                    ++ if isNullish (field rel "id") then [] else [final])%list).
  { pose proof (quiet_tagAndPush images skipLogUpload w0) as [Hq1 Hq2].
    cbn [release trace w0] in Hq1, Hq2.
    unfold w'. rewrite (deployProject_run images skipLogUpload w rel imgs
                          stage (snd (tagAndPush E images skipLogUpload w0)) Hcreated);
      [|unfold stage; apply surjective_pairing|exact Hq1].
    fold rel0. fold status. fold final. cbn [release trace]. rewrite Hid.
    split; [reflexivity|].
    rewrite savedReleases_app, Hq2.
    destruct (isNullish (field rel "id")); reflexivity. }
  destruct Hrun as [Hrel Hsaved].
  split; [exact Hrel|]. split; [exact Hsaved|]. split; [exact Hstatus|].
  split; [unfold final; apply lookup_insert_eq|]. split.
  - rewrite Hstatus. unfold status. destruct (is_ok stage); split; auto;
      intros; discriminate.
  - intros Hok. apply (tagAndPush_ok images skipLogUpload w0). exact Hok.
Qed.

End DeployFacts.

(** The theorem on two services of which the registry refuses the first:
    four attempts, one update, a failed record; the second image is
    recorded as pushed all the same. *)
Lemma pushAndUpdateServiceImages_isolated_witness :
  let w' := snd (Deploy.pushAndUpdateServiceImages flakyRegistry (JS.VStr "token") twoTagged
                   (Some (Deploy.saveImage flakyRegistry false)) twoRecords) in
  NoDup (Deploy.t_serviceName <$> twoTagged) /\
  (forall img, img ∈ twoTagged ->
               is_Some (Deploy.serviceImages twoRecords !! Deploy.t_serviceName img)) /\
  Deploy.pushesOf 0 (Deploy.trace w') = [0; 1; 2; 3]%nat /\
  Deploy.callbacksOf 0 (Deploy.trace w') = 1%nat /\
  (exists record e,
      Deploy.serviceImages w' !! "db" = Some record /\
      record !! "status" = Some (JS.VStr "failed") /\
      record !! "error_message" = Some (JS.VStr e)) /\
  (exists record,
      Deploy.serviceImages w' !! "web" = Some record /\
      record !! "status" = Some (JS.VStr "success")).
Proof.
  cbv zeta.
  assert (Hnd : NoDup (Deploy.t_serviceName <$> twoTagged)).
  { cbn. repeat constructor; rewrite ?elem_of_cons, ?elem_of_nil; intuition discriminate. }
  assert (Hin : forall img, img ∈ twoTagged ->
                            is_Some (Deploy.serviceImages twoRecords
                                       !! Deploy.t_serviceName img)).
  { intros img Hi. unfold twoTagged in Hi.
    repeat (apply elem_of_cons in Hi as [->|Hi]; [eexists; reflexivity|]).
    apply elem_of_nil in Hi. contradiction. }
  split; [exact Hnd|]. split; [exact Hin|].
  pose proof (pushAndUpdateServiceImages_isolated flakyRegistry false (JS.VStr "token")
                twoTagged twoRecords Hnd Hin) as H.
  cbv zeta in H.
  destruct (H 0%nat _ eq_refl) as (_ & Hpush & Hcb & _ & Hfail).
  destruct (H 1%nat _ eq_refl) as (_ & _ & _ & (b & a & m & record & _ & Hrec & Hset) & _).
  split; [exact Hpush|]. split; [exact Hcb|]. split.
  - apply Hfail. intros n Hn. reflexivity.
  - exists record. split; [exact Hrec|]. apply Hset.
Defined.

(** C1, on the code: a release can fail although every push succeeded.
    Both images are pushed at the first attempt and recorded as pushed;
    the daemon then refuses to remove the local tags, the stage throws, and
    the release is stored as failed. *)
Lemma deployProject_fails_on_untag :
  let w' := snd (Deploy.deployProject stuckTags twoBuilt false blank) in
  is_ok (Deploy.pushResult stuckTags 0 0) = true /\
  is_ok (Deploy.pushResult stuckTags 1 0) = true /\
  Deploy.pushesOf 0 (Deploy.trace w') = [0%nat] /\
  Deploy.pushesOf 1 (Deploy.trace w') = [0%nat] /\
  (Deploy.serviceImages w' !! "db") ≫= (fun record => record !! "status")
  = Some (JS.VStr "success") /\
  (Deploy.serviceImages w' !! "web") ≫= (fun record => record !! "status")
  = Some (JS.VStr "success") /\
  (fun saved : gmap string JS.jsval => saved !! "status")
    <$> Deploy.savedReleases (Deploy.trace w')
  = [Some (JS.VStr "failed")].
Proof.
  cbv zeta. repeat split; vm_compute; reflexivity.
Qed.

(** The theorem on two services of which the registry refuses the first:
    the stage throws, and the release is stored once, as failed, with its
    end time. *)
Lemma deployProject_release_witness :
  let w' := snd (Deploy.deployProject flakyRegistry twoBuilt false blank) in
  is_ok (Deploy.created flakyRegistry) = true /\
  exists final,
    Deploy.release w' = final /\
    Deploy.savedReleases (Deploy.trace w') = [final] /\
    final !! "status" = Some (JS.VStr "failed") /\
    final !! "end_timestamp" = Some (JS.VDate 1600000000000).
Proof.
  cbv zeta. split; [reflexivity|].
  destruct (deployProject_release flakyRegistry twoBuilt false blank _ _ eq_refl)
    as (Hrel & Hsaved & Hstatus & Hend & _ & _).
  match type of Hstatus with
  | context [is_ok ?s] =>
      assert (Hstage : is_ok s = false) by (vm_compute; reflexivity);
      rewrite Hstage in Hrel, Hsaved, Hstatus, Hend
  end.
  eexists. split; [exact Hrel|]. split; [exact Hsaved|]. split; [exact Hstatus|].
  exact Hend.
Defined.

(** ** Emulator provisioning, continued *)

Section QemuMore.
Import JS Qemu QemuContext.

Ltac qstep := cbn [fst snd files dirs trace negb orb andb] in *.

Lemma append_nil_l (t : string) : "" +:+ t = t.
Proof. reflexivity. Qed.

Lemma append_cons (a : ascii) (s t : string) : String a s +:+ t = String a (s +:+ t).
Proof. reflexivity. Qed.

Lemma append_length (s t : string) :
  String.length (s +:+ t) = (String.length s + String.length t)%nat.
Proof.
  induction s as [|a s IH]; [reflexivity|].
  rewrite append_cons. cbn [String.length]. rewrite IH. reflexivity.
Qed.

(** X1: provisioning does nothing where it is not asked for or not needed.
    Without the [emulated] flag, and on Docker Desktop whatever the flag,
    the answer is [false]; no directory is made, no file is written and
    nothing is downloaded.  The daemon is asked in every case, so its
    failure is the one error there can be. *)
Theorem installQemuIfNeeded_not_needed
    (E : env) (emulated : bool) (arch : string) (w : world) :
  emulated = false \/
  (exists os a, dockerInfo E = Ok (os, a) /\ isDockerDesktop os = true) ->
  let run := installQemuIfNeeded E emulated arch w in
  files (snd run) = files w /\
  dirs (snd run) = dirs w /\
  requests (trace (snd run)) = requests (trace w) /\
  (fst run = Ok false \/ exists e, fst run = Throw e /\ dockerInfo E = Throw e).
Proof.
  intros H. cbv zeta. rewrite installQemuIfNeeded_run.
  destruct (dockerInfo E) as [[os a]|e0] eqn:Hinfo; qstep.
  2:{ repeat split; auto. right. exists e0. auto. }
  destruct (isDockerDesktop os) eqn:Hos; qstep.
  - rewrite requests_app; cbn [requests omap list_omap];
      rewrite app_nil_r; repeat split; auto.
  - destruct H as [->|(os' & a' & [= <- <-] & Hd)]; [|congruence].
    qstep. repeat split; auto.
Qed.

(** The theorem on a Linux host, without the flag. *)
Lemma installQemuIfNeeded_not_needed_witness :
  let run := installQemuIfNeeded linuxHost false "armv7hf" emptyDisk in
  files (snd run) = files emptyDisk /\
  dirs (snd run) = dirs emptyDisk /\
  requests (trace (snd run)) = requests (trace emptyDisk) /\
  (fst run = Ok false \/ exists e, fst run = Throw e /\ dockerInfo linuxHost = Throw e).
Proof.
  exact (installQemuIfNeeded_not_needed linuxHost false "armv7hf" emptyDisk
           (or_introl eq_refl)).
Defined.




(** X3: provisioning keeps to its own file.  Whatever comes of a call for
    an architecture, every file other than the cache file of that
    architecture is as it was, present or absent (the cache file of another
    architecture too, when [path.join] gives it another path), and the one
    directory that may have been made is the binaries directory.  When
    that directory is asked for and cannot be made, the call fails with the
    error of [mkdir] and nothing at all has changed. *)
Theorem installQemuIfNeeded_other_files
    (E : env) (emulated : bool) (arch p : string) (w : world) :
  p <> cachePath E arch ->
  let run := installQemuIfNeeded E emulated arch w in
  files (snd run) !! p = files w !! p /\
  (dirs (snd run) = dirs w \/ dirs (snd run) = {[binDirectory E]} ∪ dirs w) /\
  (forall os a e,
      emulated = true -> dockerInfo E = Ok (os, a) -> isDockerDesktop os = false ->
      fsError E (Mkdir (binDirectory E)) = Some e ->
      run = (Throw e, w)).
Proof.
  intros Hp. cbv zeta.
  assert (Hfail : forall os a e,
             emulated = true -> dockerInfo E = Ok (os, a) -> isDockerDesktop os = false ->
             fsError E (Mkdir (binDirectory E)) = Some e ->
             installQemuIfNeeded E emulated arch w = (Throw e, w)).
  { intros os a e -> Hinfo Hos Hmk. rewrite installQemuIfNeeded_run, Hinfo, Hos, Hmk.
    reflexivity. }
  cut (files (snd (installQemuIfNeeded E emulated arch w)) !! p = files w !! p /\
       (dirs (snd (installQemuIfNeeded E emulated arch w)) = dirs w \/
        dirs (snd (installQemuIfNeeded E emulated arch w)) = {[binDirectory E]} ∪ dirs w)).
  { intros [H1 H2]. split; [exact H1|]. split; [exact H2|exact Hfail]. }
  clear Hfail. rewrite installQemuIfNeeded_run.
  destruct (dockerInfo E) as [[os a]|e0]; qstep; [|auto].
  destruct (isDockerDesktop os); qstep; [auto|].
  destruct emulated; qstep; [|auto].
  destruct (fsError E (Mkdir (binDirectory E))) as [e1|] eqn:Hmk; qstep; [auto|].
  cbv zeta.
  destruct (bool_decide (is_Some (files w !! cachePath E arch))); qstep; [auto|].
  rewrite (installQemu_run E arch _ Hmk). unfold cached. qstep.
  assert (Hdirs : {[binDirectory E]} ∪ ({[binDirectory E]} ∪ dirs w)
                  = {[binDirectory E]} ∪ dirs w).
  { rewrite (assoc_L (∪)), (idemp_L (∪)). reflexivity. }
  rewrite Hdirs.
  destruct (fsError E (OpenWrite (cachePath E arch))) as [e2|];
    destruct (balenaArchToQemuArch arch) as [q|e3]; qstep; auto.
  - destruct (fetch E (archiveUrl q)) as [entries|e4]; qstep.
    + cbv zeta. destruct (writesOnce q entries);
        [destruct (fsError E (Chmod (cachePath E arch))) as [e5|]|];
        qstep; rewrite lookup_insert_ne by (intros H; apply Hp; symmetry; exact H); auto.
    + rewrite lookup_insert_ne by (intros H; apply Hp; symmetry; exact H). auto.
  - rewrite lookup_insert_ne by (intros H; apply Hp; symmetry; exact H). auto.
Qed.

(** The theorem for the two emulators there are: installing the one leaves
    the other's cache file absent. *)
Lemma installQemuIfNeeded_other_files_witness :
  cachePath linuxHost "aarch64" <> cachePath linuxHost "armv7hf" /\
  is_Some (files (snd (installQemuIfNeeded linuxHost true "armv7hf" emptyDisk))
             !! cachePath linuxHost "armv7hf") /\
  files (snd (installQemuIfNeeded linuxHost true "armv7hf" emptyDisk))
    !! cachePath linuxHost "aarch64"
  = None.
Proof.
  assert (Hp : cachePath linuxHost "aarch64" <> cachePath linuxHost "armv7hf")
    by (vm_compute; discriminate).
  split; [exact Hp|]. split; [vm_compute; eexists; reflexivity|].
  destruct (installQemuIfNeeded_other_files linuxHost true "armv7hf"
              (cachePath linuxHost "aarch64") emptyDisk Hp) as (H & _).
  rewrite H. reflexivity.
Defined.

(** What [copyQemu] does on a disk that takes every call of it: the
    context's [.balena] directory exists afterwards, nothing is downloaded,
    the cache is left alone, and the target is a copy of the cache file or,
    without one, an empty file. *)
Lemma copyQemu_run
    (E : env) (relative : string -> string -> string) (context arch : string) (w : world) :
  contextBin E context <> cachePath E arch ->
  fsError E (Mkdir (contextDir E context)) = None ->
  fsError E (Mkdir (binDirectory E)) = None ->
  fsError E (OpenWrite (contextBin E context)) = None ->
  fsError E (OpenRead (cachePath E arch)) = None ->
  fsError E (Chmod (contextBin E context)) = None ->
  copyQemu E relative context arch w
  = match files w !! cachePath E arch with
    | Some f =>
        (Ok (qemuPathInContext E relative context),
         mkWorld ({[binDirectory E]} ∪ ({[contextDir E context]} ∪ dirs w))
                 (<[contextBin E context := Extracted (content f) "755"]> (files w))
                 (trace w))
    | None =>
        (Throw ("Error: ENOENT: no such file or directory, open '"
                  +:+ cachePath E arch +:+ "'"),
         mkWorld ({[binDirectory E]} ∪ ({[contextDir E context]} ∪ dirs w))
                 (<[contextBin E context := Created]> (files w))
                 (trace w))
    end.
Proof.
  intros Hne Hmk1 Hmk2 Hopen Hread Hchmod.
  unfold copyQemu, qemuPathInContext, getQemuPath, mkdirp, createWriteStream.
  fold (contextDir E context). fold (contextBin E context). fold (cachePath E arch).
  rewrite Hmk1, Hmk2, Hopen.
  unfold writeFile, bind, ret, throw, modify. qstep.
  unfold readStream. rewrite Hread. qstep.
  rewrite (lookup_insert_ne _ _ _ _ Hne).
  destruct (files w !! cachePath E arch) as [f|] eqn:Hfile; qstep; [|reflexivity].
  unfold chmod. rewrite Hchmod. qstep. rewrite lookup_insert_eq.
  unfold writeFile, modify. qstep. cbn [content]. rewrite !insert_insert_eq. reflexivity.
Qed.

(** When provisioning answers [true], the cache holds the file and the
    binaries directory could be made. *)
Lemma installQemuIfNeeded_present
    (E : env) (emulated : bool) (arch : string) (w0 w : world) :
  installQemuIfNeeded E emulated arch w0 = (Ok true, w) ->
  is_Some (files w !! cachePath E arch) /\ fsError E (Mkdir (binDirectory E)) = None.
Proof.
  rewrite installQemuIfNeeded_run.
  destruct (dockerInfo E) as [[os a]|e0]; [|discriminate].
  destruct (isDockerDesktop os); [discriminate|].
  destruct emulated; cbn [negb]; [|discriminate].
  destruct (fsError E (Mkdir (binDirectory E))) as [e1|] eqn:Hmk; [discriminate|].
  cbv zeta.
  destruct (files w0 !! cachePath E arch) as [f|] eqn:Hfile.
  - rewrite bool_decide_eq_true_2 by (eexists; reflexivity).
    intros [= <-]. qstep. rewrite Hfile. split; [eexists|]; reflexivity.
  - rewrite bool_decide_eq_false_2 by (intros [? ?]; discriminate).
    rewrite (installQemu_run E arch _ Hmk). unfold cached. qstep.
    destruct (fsError E (OpenWrite (cachePath E arch))) as [e2|];
      destruct (balenaArchToQemuArch arch) as [q|e3]; try discriminate.
    destruct (fetch E (archiveUrl q)) as [entries|e4]; [|discriminate].
    cbv zeta. destruct (writesOnce q entries); [|discriminate].
    destruct (fsError E (Chmod (cachePath E arch))) as [e5|]; [discriminate|].
    intros [= <-]. qstep. rewrite lookup_insert_eq. split; [eexists|]; reflexivity.
Qed.

(** X4: the emulator reaches the build context.  After a provisioning
    that answered [true], for a target that is another file than the cache
    file: on a disk that lets the context's [.balena] directory be made,
    the cache file be read and the target be written and made executable,
    [copyQemu] succeeds: it makes the directory, writes there what the
    cache file holds, executable, changes no other file, downloads nothing,
    and returns the path that [qemuPathInContext] names for the context.
    When the directory cannot be made, for another reason than its being
    there, [copyQemu] fails with the error of [mkdir] and has changed
    nothing. *)
Theorem copyQemu_after_provisioning
    (E : env) (relative : string -> string -> string) (emulated : bool)
    (context arch : string) (w0 w : world) :
  installQemuIfNeeded E emulated arch w0 = (Ok true, w) ->
  contextBin E context <> cachePath E arch ->
  let run := copyQemu E relative context arch w in
  (fsError E (Mkdir (contextDir E context)) = None ->
   fsError E (OpenWrite (contextBin E context)) = None ->
   fsError E (OpenRead (cachePath E arch)) = None ->
   fsError E (Chmod (contextBin E context)) = None ->
   fst run = Ok (qemuPathInContext E relative context) /\
   files (snd run)
   = <[contextBin E context := Extracted (contents (files w !! cachePath E arch)) "755"]>
       (files w) /\
   contextDir E context ∈ dirs (snd run) /\
   requests (trace (snd run)) = requests (trace w)) /\
  (forall e, fsError E (Mkdir (contextDir E context)) = Some e -> run = (Throw e, w)).
Proof.
  intros Hrun Hne. cbv zeta. split.
  - intros Hmk Hopen Hread Hchmod.
    destruct (installQemuIfNeeded_present E emulated arch w0 w Hrun) as [[f Hf] Hmk2].
    rewrite (copyQemu_run E relative context arch w Hne Hmk Hmk2 Hopen Hread Hchmod), Hf.
    qstep. cbn [contents]. repeat split; auto.
    apply elem_of_union_r, elem_of_union_l, elem_of_singleton. reflexivity.
  - intros e Hmk. unfold copyQemu, mkdirp. fold (contextDir E context). rewrite Hmk.
    reflexivity.
Qed.

(** The theorem on a Linux host: the emulator that was downloaded for
    [armv7hf] is copied into the context [/src/app]. *)
Lemma copyQemu_after_provisioning_witness :
  let w := snd (installQemuIfNeeded linuxHost true "armv7hf" emptyDisk) in
  let run := copyQemu linuxHost below "/src/app" "armv7hf" w in
  installQemuIfNeeded linuxHost true "armv7hf" emptyDisk = (Ok true, w) /\
  fst run = Ok ".balena/qemu-execve" /\
  files (snd run) !! "/src/app/.balena/qemu-execve" = Some (Extracted "ELF" "755").
Proof.
  cbv zeta.
  assert (Hrun : installQemuIfNeeded linuxHost true "armv7hf" emptyDisk
                 = (Ok true, snd (installQemuIfNeeded linuxHost true "armv7hf" emptyDisk)))
    by (vm_compute; reflexivity).
  split; [exact Hrun|].
  assert (Hne : contextBin linuxHost "/src/app" <> cachePath linuxHost "armv7hf")
    by (vm_compute; discriminate).
  destruct (copyQemu_after_provisioning linuxHost below true
              "/src/app" "armv7hf" emptyDisk _ Hrun Hne) as [H _].
  destruct (H eq_refl eq_refl eq_refl eq_refl) as (H1 & H2 & _).
  split.
  - etransitivity; [exact H1|]. vm_compute. reflexivity.
  - rewrite H2. vm_compute. reflexivity.
Defined.

(** The archive of an emulator is a file of the pinned release. *)
Lemma archiveUrl_release (arch q : string) :
  balenaArchToQemuArch arch = Ok q ->
  archiveUrl q
  = "https://github.com/balena-io/qemu/releases/download/v4.0.0%2Bbalena2/qemu-4.0.0.balena2-"
      +:+ q +:+ ".tar.gz".
Proof.
  unfold balenaArchToQemuArch.
  destruct (_ || _); [intros [= <-]; vm_compute; reflexivity|].
  destruct (arch =? "aarch64")%string; [intros [= <-]; vm_compute; reflexivity|].
  discriminate.
Qed.

(** X5: a first installation.  On a daemon that needs the emulator, with
    nothing in the cache for an architecture that has one, on a disk that
    lets the binaries directory be made and the cache file be opened and
    made executable, provisioning with the flag makes the directory and
    requests one file, the archive of the pinned release for that emulator.
    Every entry of the archive whose name holds [qemu-<arch>-static] is
    piped into the one cache file, and the first of them ends it.  When no
    later one holds anything the call answers [true] and the cache holds
    the first one's content, executable; nothing of it is looked at, and
    without any such entry the file is empty.  When a later one holds
    something the call fails on the write after the end, and the cache
    keeps the first one's content, not executable. *)
Theorem installQemuIfNeeded_installs
    (E : env) (arch os a q : string) (entries : list (string * string)) (w : world) :
  dockerInfo E = Ok (os, a) ->
  isDockerDesktop os = false ->
  files w !! cachePath E arch = None ->
  balenaArchToQemuArch arch = Ok q ->
  fetch E (archiveUrl q) = Ok entries ->
  fsError E (Mkdir (binDirectory E)) = None ->
  fsError E (OpenWrite (cachePath E arch)) = None ->
  fsError E (Chmod (cachePath E arch)) = None ->
  let run := installQemuIfNeeded E true arch w in
  binDirectory E ∈ dirs (snd run) /\
  requests (trace (snd run)) = (requests (trace w) ++ [archiveUrl q])%list /\
  archiveUrl q
  = "https://github.com/balena-io/qemu/releases/download/v4.0.0%2Bbalena2/qemu-4.0.0.balena2-"
      +:+ q +:+ ".tar.gz" /\
  (writesOnce q entries = true ->
   fst run = Ok true /\
   files (snd run)
   = <[cachePath E arch := Extracted (staticEmulator q entries) "755"]> (files w)) /\
  (writesOnce q entries = false ->
   fst run = Throw "Error [ERR_STREAM_WRITE_AFTER_END]: write after end" /\
   files (snd run) = <[cachePath E arch := Written (staticEmulator q entries)]> (files w)) /\
  (Forall (fun entry => includes ("qemu-" +:+ q +:+ "-static") (fst entry) = false) entries ->
   writesOnce q entries = true /\ staticEmulator q entries = "").
Proof.
  intros Hinfo Hos Hnone Hq Hfetch Hmk Hopen Hchmod. cbv zeta.
  rewrite installQemuIfNeeded_run, Hinfo, Hos, Hmk.
  cbn [negb]. cbv zeta. rewrite Hnone.
  rewrite bool_decide_eq_false_2 by (intros [? ?]; discriminate).
  rewrite (installQemu_run E arch _ Hmk), Hopen, Hq, Hfetch, Hchmod. unfold cached.
  cbv zeta. qstep.
  assert (Hreq : requests ((trace w ++ [LogInfo ("Installing qemu for " +:+ arch
                                                   +:+ " emulation...")])
                           ++ [Request (archiveUrl q)])
                 = (requests (trace w) ++ [archiveUrl q])%list).
  { rewrite !requests_app. cbn [requests omap list_omap]. rewrite app_nil_r. reflexivity. }
  split; [|split; [|split; [exact (archiveUrl_release arch q Hq)|split; [|split]]]].
  - destruct (writesOnce q entries); qstep;
      apply elem_of_union_l, elem_of_singleton; reflexivity.
  - destruct (writesOnce q entries); qstep; exact Hreq.
  - intros ->. qstep. split; reflexivity.
  - intros Hw. rewrite Hw. qstep. split; [reflexivity|].
    unfold staticEmulator. unfold writesOnce in Hw.
    destruct (emulatorEntries q entries) as [|entry later] eqn:Hentries;
      [discriminate Hw|reflexivity].
  - intros Hall. unfold writesOnce, staticEmulator, emulatorEntries.
    assert (Hnone' : List.filter
                       (fun entry => includes ("qemu-" +:+ q +:+ "-static") (fst entry))
                       entries = []).
    { clear Hfetch. induction Hall as [|entry rest Hentry _ IH]; [reflexivity|].
      cbn [List.filter]. rewrite Hentry. exact IH. }
    rewrite Hnone'. split; reflexivity.
Qed.

(** The theorem on a Linux host with an empty cache, served the archive
    of the release, and served an archive that holds the emulator twice. *)
Lemma installQemuIfNeeded_installs_witness :
  (let run := installQemuIfNeeded linuxHost true "armv7hf" emptyDisk in
   fst run = Ok true /\
   files (snd run) !! cachePath linuxHost "armv7hf" = Some (Extracted "ELF" "755") /\
   requests (trace (snd run))
   = ["https://github.com/balena-io/qemu/releases/download/v4.0.0%2Bbalena2/qemu-4.0.0.balena2-arm.tar.gz"]) /\
  (let run := installQemuIfNeeded doubleArchive true "armv7hf" emptyDisk in
   fst run = Throw "Error [ERR_STREAM_WRITE_AFTER_END]: write after end" /\
   files (snd run) !! cachePath doubleArchive "armv7hf" = Some (Written "ELF")).
Proof.
  cbv zeta. split.
  - destruct (installQemuIfNeeded_installs linuxHost "armv7hf" "Ubuntu 18.04.2 LTS" "x86_64"
                "arm" [("qemu-4.0.0+balena2-arm/qemu-arm-static", "ELF")] emptyDisk
                eq_refl eq_refl eq_refl eq_refl eq_refl eq_refl eq_refl eq_refl)
      as (_ & H2 & H3 & Hok & _).
    destruct (Hok eq_refl) as [H1 Hfiles].
    split; [exact H1|]. split.
    + rewrite Hfiles. rewrite lookup_insert_eq. reflexivity.
    + rewrite H2, H3. reflexivity.
  - destruct (installQemuIfNeeded_installs doubleArchive "armv7hf" "Ubuntu 18.04.2 LTS"
                "x86_64" "arm"
                [("qemu-4.0.0+balena2-arm/qemu-arm-static", "ELF");
                 ("backup/qemu-arm-static", "ELF")] emptyDisk
                eq_refl eq_refl eq_refl eq_refl eq_refl eq_refl eq_refl eq_refl)
      as (_ & _ & _ & _ & Hfail & _).
    destruct (Hfail eq_refl) as [H1 Hfiles].
    split; [exact H1|]. rewrite Hfiles. rewrite lookup_insert_eq. reflexivity.
Defined.

End QemuMore.
(** ** From the build output to the built images *)

Section BuildFacts.
Import JS Compose Build.

Lemma take_strlen (n : nat) (s : string) :
  strlen (take n s) = Z.min (Z.of_nat n) (strlen s).
Proof. unfold strlen. rewrite take_length. lia. Qed.

(** For a positive cap, the result is shorter than the cap. *)
Lemma truncateString_shorter (str : string) (len : Z) :
  0 < len -> strlen (truncateString str len) < len.
Proof.
  intros Hlen.
  destruct (Z.lt_ge_cases (strlen str) len) as [Hs|Hs].
  - rewrite truncateString_short by exact Hs. exact Hs.
  - destruct (lacks newline (take (Z.to_nat len) str)) eqn:Hn.
    + rewrite truncateString_without_newline by (auto; lia).
      rewrite take_strlen. lia.
    + destruct (truncateString_at_newline str len ltac:(lia) Hn) as (Hk & -> & _).
      rewrite take_strlen. lia.
Qed.

(** X6: the cap on a log holds.  For a positive cap the result of
    [truncateString] is a prefix of the log that is shorter than the cap,
    so truncating once more changes nothing. *)
Theorem truncateString_bounded (str : string) (len : Z) :
  0 < len ->
  strlen (truncateString str len) < len /\
  (exists n : nat, truncateString str len = take n str) /\
  truncateString (truncateString str len) len = truncateString str len.
Proof.
  intros Hlen. split; [apply truncateString_shorter; exact Hlen|]. split.
  - destruct (truncateString_prefix str len ltac:(lia)) as (n & Hn & _).
    exists n. exact Hn.
  - apply truncateString_short. apply truncateString_shorter. exact Hlen.
Qed.

(** The theorem on a log of two lines and a cap inside the second. *)
Lemma truncateString_bounded_witness :
  truncateString ("ab" +:+ String newline "cd") 4 = "ab" /\
  strlen (truncateString ("ab" +:+ String newline "cd") 4) < 4 /\
  truncateString (truncateString ("ab" +:+ String newline "cd") 4) 4
  = truncateString ("ab" +:+ String newline "cd") 4.
Proof.
  split; [reflexivity|].
  destruct (truncateString_bounded ("ab" +:+ String newline "cd") 4 ltac:(lia))
    as (H1 & _ & H2).
  split; [exact H1|exact H2].
Defined.

Lemma space_not_digit (c : ascii) : isSpace c = true -> isDigit c = false.
Proof.
  intros Hs. destruct (isDigit c) eqn:Hd; [|reflexivity].
  rewrite (digit_not_space c Hd) in Hs. discriminate.
Qed.

(** X28: the step lines of the daemon are recognised however they are
    spaced.  A line made of optional blanks, [Step], at least one blank, a
    number, a slash, a number, optional blanks, a colon, a space and a
    text on one line is a step line, with these two numbers and this text;
    a new adapter shows it in the one form [Step N/M: text], at the
    progress of [N] in [M]. *)
Theorem stepRegex_spaced (ws0 ws1 ws2 n m text : string) :
  allChars isSpace ws0 = true ->
  ws1 <> "" -> allChars isSpace ws1 = true ->
  allChars isSpace ws2 = true ->
  n <> "" -> allChars isDigit n = true ->
  m <> "" -> allChars isDigit m = true ->
  text <> "" -> oneLine text = true ->
  let line := ws0 +:+ "Step" +:+ ws1 +:+ n +:+ "/" +:+ m +:+ ws2 +:+ ": " +:+ text in
  stepRegex line = Some (n, m, text) /\
  snd (buildProgressAdapter false newAdapter (Some line))
  = VObj (<["progress" := floorPercent (parseInt n) (parseInt m)]>
            {[ "status" := VStr ("Step " +:+ n +:+ "/" +:+ m +:+ ": " +:+ text) ]}).
Proof.
  intros H0 N1 H1 H2 Hn Dn Hm Dm Ht Lt. cbv zeta.
  assert (Hre : stepRegex (ws0 +:+ "Step" +:+ ws1 +:+ n +:+ "/" +:+ m +:+ ws2
                             +:+ ": " +:+ text) = Some (n, m, text)).
  { destruct n as [|d n']; [congruence|].
    cbn [allChars] in Dn. apply andb_true_iff in Dn as [Dd Dn'].
    set (afterM := ws2 +:+ String ":" (String " " text)).
    set (afterN := String "/" (m +:+ afterM)).
    change (ws0 +:+ "Step" +:+ ws1 +:+ String d n' +:+ "/" +:+ m +:+ ws2 +:+ ": " +:+ text)
      with (ws0 +:+ String "S" (String "t" (String "e" (String "p"
              (ws1 +:+ String d (n' +:+ afterN)))))).
    unfold stepRegex.
    rewrite (dropWhile_app isSpace ws0 "S") by (auto; reflexivity).
    change (stripPrefix "Step" (String "S" (String "t" (String "e" (String "p" ?x)))))
      with (Some x).
    cbv iota.
    rewrite (takeWhile_app isSpace ws1 d) by (auto using digit_not_space).
    rewrite (eqb_empty ws1 N1).
    rewrite (dropWhile_app isSpace ws1 d) by (auto using digit_not_space).
    change (String d (n' +:+ afterN)) with (String d n' +:+ afterN). unfold afterN.
    rewrite (takeWhile_app isDigit (String d n') "/")
      by (cbn [allChars]; try rewrite Dd, Dn'; reflexivity).
    change (String.eqb (String d n') "") with false. cbv iota.
    rewrite (dropWhile_app isDigit (String d n') "/")
      by (cbn [allChars]; try rewrite Dd, Dn'; reflexivity).
    change (stripPrefix "/" (String "/" ?x)) with (Some x).
    cbv iota.
    assert (Hm' : takeWhile isDigit (m +:+ afterM) = m /\
                  dropWhile isDigit (m +:+ afterM) = afterM).
    { unfold afterM. destruct ws2 as [|s ws2'].
      - rewrite append_nil_l.
        rewrite (takeWhile_app isDigit m ":"), (dropWhile_app isDigit m ":")
          by (auto; reflexivity). auto.
      - cbn [allChars] in H2. apply andb_true_iff in H2 as [Hs _].
        rewrite append_cons.
        rewrite (takeWhile_app isDigit m s), (dropWhile_app isDigit m s)
          by (auto using space_not_digit). auto. }
    destruct Hm' as [-> ->].
    rewrite (eqb_empty m Hm). unfold afterM.
    rewrite (dropWhile_app isSpace ws2 ":") by (auto; reflexivity).
    change (stripPrefix ": " (String ":" (String " " text))) with (Some text).
    cbv iota. rewrite (eqb_empty text Ht). unfold oneLine in Lt. rewrite Lt. reflexivity. }
  split; [exact Hre|].
  unfold buildProgressAdapter.
  destruct (startsWith "Successfully tagged " _) eqn:Htag.
  { rewrite (stepRegex_tagged _ Htag) in Hre. discriminate. }
  rewrite Hre. reflexivity.
Qed.

(** The theorem on a line as the daemon writes it. *)
Lemma stepRegex_spaced_witness :
  stepRegex "Step 2/5 : RUN make" = Some ("2", "5", "RUN make") /\
  snd (buildProgressAdapter false newAdapter (Some "Step 2/5 : RUN make"))
  = VObj (<["progress" := VNum 40]> {[ "status" := VStr "Step 2/5: RUN make" ]}).
Proof.
  exact (stepRegex_spaced "" " " " " "2" "5" "RUN make" eq_refl ltac:(discriminate) eq_refl
           eq_refl ltac:(discriminate) eq_refl ltac:(discriminate) eq_refl
           ltac:(discriminate) eq_refl).
Defined.

(** A line of text has none of the fields the capture looks at: it is
    logged as it is. *)
Lemma buildLogCapture_string (buffer : list jsval) (str : string) :
  buildLogCapture buffer (VStr str) = Ok ((buffer ++ [VStr str])%list, VStr str).
Proof. reflexivity. Qed.

Lemma streamHook_line (inline : bool) (buffer : list jsval) (a : adapter) (line : string) :
  streamHook inline buffer a line
  = if nonblank line
    then Ok ((buffer ++ [VStr line])%list,
             fst (buildProgressAdapter inline a (Some line)),
             [snd (buildProgressAdapter inline a (Some line))])
    else Ok (buffer, a, []).
Proof.
  unfold streamHook, dropEmptyLinesStream, nonblank.
  destruct (allChars isSpace line); cbn [negb]; [reflexivity|].
  rewrite buildLogCapture_string.
  destruct (buildProgressAdapter inline a (Some line)); reflexivity.
Qed.

(** X7: what a build's output leaves in the task's log buffer.  Whatever
    the lines are, the pipeline of [task.streamHook] does not fail; it
    appends to the buffer exactly the lines that are not blank, unchanged and
    in order, and hands one event per such line to the renderer: in inline
    mode the line itself as a status. *)
Theorem streamLines_captures
    (inline : bool) (buffer : list jsval) (a : adapter) (lines : list string) :
  exists a' events,
    streamLines inline buffer a lines
    = Ok ((buffer ++ map VStr (List.filter nonblank lines))%list, a', events) /\
    length events = length (List.filter nonblank lines) /\
    (inline = true ->
     events = map (fun line => VObj {[ "status" := VStr line ]})
                  (List.filter nonblank lines)).
Proof.
  revert buffer a. induction lines as [|line rest IH]; intros buffer a.
  - exists a, []. cbn [streamLines List.filter map]. rewrite app_nil_r. auto.
  - cbn [streamLines List.filter]. rewrite streamHook_line.
    destruct (nonblank line) eqn:Hline.
    + destruct (IH (buffer ++ [VStr line])%list
                   (fst (buildProgressAdapter inline a (Some line))))
        as (a' & events & Hrun & Hlen & Hin).
      rewrite Hrun. do 2 eexists. split; [|split].
      * cbn [map]. rewrite <- app_assoc. reflexivity.
      * cbn [length app]. rewrite Hlen. reflexivity.
      * intros ->. cbn [map app]. rewrite (Hin eq_refl). reflexivity.
    + destruct (IH buffer a) as (a' & events & Hrun & Hlen & Hin).
      rewrite Hrun. exists a', events. auto.
Qed.

Lemma buildProgressAdapter_plain (a : adapter) (n t line : string) :
  step a = Some n -> numSteps a = Some t -> plainLine line = true ->
  buildProgressAdapter false a (Some line)
  = (mkAdapter (Some n) (Some t) (floorPercent (parseInt n) (parseInt t)),
     VObj (<["progress" := floorPercent (parseInt n) (parseInt t)]>
             {[ "status" := VStr ("Step " +:+ n +:+ "/" +:+ t +:+ ": " +:+ line) ]})).
Proof.
  intros Hs Hn Hp. unfold plainLine in Hp. unfold buildProgressAdapter.
  destruct (stepRegex line) as [[[? ?] ?]|]; [discriminate|].
  apply negb_true_iff in Hp. rewrite Hp, Hs. cbn [step numSteps progress].
  rewrite Hn. reflexivity.
Qed.

(** X8: a step stays on screen until the next one.  Once the adapter has
    seen a step line, every following line that is no step line and not
    the line of the final tag is shown under that step, [Step N/T: line],
    at that step's progress, and the adapter still knows the step. *)
Theorem buildProgressAdapter_sticky (a : adapter) (n t : string) (lines : list string) :
  step a = Some n -> numSteps a = Some t ->
  Forall (fun line => plainLine line = true) lines ->
  let shown := floorPercent (parseInt n) (parseInt t) in
  snd (feed false a lines)
  = map (fun line =>
           VObj (<["progress" := shown]>
                   {[ "status" := VStr ("Step " +:+ n +:+ "/" +:+ t +:+ ": " +:+ line) ]}))
        lines /\
  step (fst (feed false a lines)) = Some n /\
  numSteps (fst (feed false a lines)) = Some t.
Proof.
  intros Hs Hn Hall. cbv zeta. revert a Hs Hn.
  induction Hall as [|line rest Hline Hrest IH]; intros a Hs Hn.
  - cbn [feed fst snd map]. auto.
  - cbn [feed]. rewrite (buildProgressAdapter_plain a n t line Hs Hn Hline).
    specialize (IH (mkAdapter (Some n) (Some t) (floorPercent (parseInt n) (parseInt t)))
                   eq_refl eq_refl).
    destruct (feed false _ rest) as [a2 evs]. cbn [fst snd map] in *.
    destruct IH as (-> & H1 & H2). auto.
Qed.

(** The theorem on the second step of four and two lines of its output. *)
Lemma buildProgressAdapter_sticky_witness :
  let a := fst (buildProgressAdapter false newAdapter (Some "Step 2/4 : RUN make")) in
  snd (feed false a ["cc -c main.c"; "ld -o main"])
  = [ VObj (<["progress" := VNum 50]> {[ "status" := VStr "Step 2/4: cc -c main.c" ]});
      VObj (<["progress" := VNum 50]> {[ "status" := VStr "Step 2/4: ld -o main" ]}) ].
Proof.
  cbv zeta.
  pose proof (buildProgressAdapter_sticky
                (fst (buildProgressAdapter false newAdapter (Some "Step 2/4 : RUN make")))
                "2" "4" ["cc -c main.c"; "ld -o main"] eq_refl eq_refl
                ltac:(repeat constructor)) as H.
  cbv zeta in H. destruct H as (H & _).
  etransitivity; [exact H|]. reflexivity.
Defined.

Lemma append_nonempty (s : string) (c : ascii) (u t : string) :
  String.eqb (s +:+ String c u +:+ t) "" = false.
Proof. destruct s; reflexivity. Qed.

(** X9: how the progress of a pulled layer is logged.  An event that
    names a layer and carries a status, and no error, adds one line to
    the task's buffer: the layer, a colon, and the status without its
    [Status: ] prefix, preceded by the percentage while there is one and
    it is not 100. *)
Theorem progressHook_layer (buffer : list jsval) (m : gmap string jsval) (s : string) :
  m !! "status" = Some (VStr s) ->
  isNullish (field m "id") = false ->
  truthy (field m "error") = false ->
  isNullish (field m "errorDetail") = true ->
  let label := toString (field m "id") +:+ ": " +:+ default s (stripPrefix "Status: " s) in
  let percentage := field m "percentage" in
  exists written,
    progressHook buffer (VObj m)
    = Ok ((buffer ++ [VStr (if truthy percentage && negb (is100 percentage)
                            then toString percentage +:+ "% " +:+ label
                            else label)])%list,
          written) /\
    pullProgressAdapter (VObj m) = Ok written.
Proof.
  intros Hs Hid Herr Hdet. cbv zeta.
  assert (Hst : field m "status" = VStr s) by (unfold field; rewrite Hs; reflexivity).
  unfold progressHook, pullProgressAdapter. cbn [isNullish JS.props].
  rewrite Hst, Hid, Hdet. cbn [isNullish stripStatus].
  eexists. split; [|reflexivity].
  unfold buildLogCapture. cbn [getProp].
  rewrite lookup_insert_eq. cbn [default from_option id]. rewrite Herr.
  cbn [JS.props].
  set (written := <["error" := _]> _).
  assert (Hp : field written "progress"
               = if is100 (field m "percentage") then VUndefined else field m "percentage").
  { unfold field at 1, written.
    rewrite lookup_insert_ne, lookup_insert_eq by discriminate. reflexivity. }
  assert (Hw : field written "status"
               = VStr (toString (field m "id") +:+ ": "
                         +:+ default s (stripPrefix "Status: " s))).
  { unfold field at 1, written.
    rewrite !lookup_insert_ne, lookup_singleton_eq by discriminate. reflexivity. }
  rewrite Hp, Hw.
  assert (Hl : truthy (VStr (toString (field m "id") +:+ ": "
                               +:+ default s (stripPrefix "Status: " s))) = true).
  { cbn [truthy]. rewrite append_nonempty. reflexivity. }
  cbn [toString]. rewrite Hl, andb_true_r.
  destruct (is100 (field m "percentage")) eqn:H100; cbn [truthy negb andb].
  - rewrite andb_false_r. reflexivity.
  - rewrite andb_true_r. destruct (truthy (field m "percentage")); reflexivity.
Qed.

(** The theorem on a layer half-way through its download. *)
Lemma progressHook_layer_witness :
  exists written,
    progressHook [] (VObj layerHalf) = Ok ([VStr "50% 6f2b: Downloading"], written).
Proof.
  destruct (progressHook_layer [] layerHalf "Status: Downloading"
              eq_refl eq_refl eq_refl eq_refl) as (written & H & _).
  exists written. exact H.
Defined.

Ltac lookups :=
  repeat first
    [ rewrite lookup_insert_eq
    | rewrite lookup_insert_ne by discriminate
    | rewrite lookup_singleton_eq
    | rewrite lookup_singleton_ne by discriminate ].

(** X10: the record of a built image.  A build that did not succeed is an
    error, and the daemon is not asked about its image.  For one that did,
    the record carries the service's name, the task's log joined by
    newlines and cut below 512 KiB, the size the daemon reports, and a start
    and an end time only where the build reported a truthy one: a missing
    or zero timestamp makes no date. *)
Theorem describeImage_record
    (newDate : jsval -> jsval) (inspectSize : jsval -> res jsval)
    (descriptors : gmap string BuildOptions.image) (tasks : list BuildOptions.buildTask)
    (builtImage : localImage) :
  (successful builtImage = false ->
   describeImage newDate inspectSize descriptors tasks builtImage
   = Throw (default "Error" (error builtImage))) /\
  (forall img,
      describeImage newDate inspectSize descriptors tasks builtImage = Ok img ->
      successful builtImage = true /\
      serviceName img = l_serviceName builtImage /\
      strlen (logs img) < LOG_LENGTH_MAX /\
      (exists task buffer,
          findTask tasks (l_serviceName builtImage) = Some task /\
          BuildOptions.logBuffer task = Some buffer /\
          logs img = truncateString (joinBuffer buffer) LOG_LENGTH_MAX) /\
      inspectSize (name img) = Ok (field (props img) "size") /\
      props img !! "startTime"
      = (if truthy (startTime builtImage)
         then Some (newDate (startTime builtImage)) else None) /\
      props img !! "endTime"
      = (if truthy (endTime builtImage)
         then Some (newDate (endTime builtImage)) else None)).
Proof.
  split.
  { intros H. unfold describeImage. rewrite H. reflexivity. }
  intros img. unfold describeImage.
  destruct (successful builtImage); cbn [negb]; [|discriminate].
  destruct (descriptors !! l_serviceName builtImage) as [d|]; [|discriminate].
  destruct (findTask tasks (l_serviceName builtImage)) as [task|]; [|discriminate].
  destruct (BuildOptions.logBuffer task) as [buffer|] eqn:Hbuf; [|discriminate].
  destruct (inspectSize _) as [size|e] eqn:Hsize; [|discriminate].
  intros [= <-]. cbn [serviceName logs name props].
  split; [reflexivity|]. split; [reflexivity|].
  split; [apply truncateString_shorter; reflexivity|].
  split; [exists task, buffer; auto|].
  split; [unfold field; rewrite lookup_insert_eq; exact Hsize|].
  destruct (truthy (startTime builtImage)), (truthy (endTime builtImage));
    split; lookups; reflexivity.
Qed.

(** The theorem on a build that reports its start but no end (a zero
    timestamp): the record has a start time and no end time. *)
Lemma describeImage_record_witness :
  exists img,
    describeImage epochDate (fun _ => Ok (VNum 1024)) webService [webTask] webBuilt = Ok img /\
    logs img = "Step 1/1 : FROM scratch" +:+ String newline "Successfully built 0a1b" /\
    props img !! "startTime" = Some (VDate 1600000000000) /\
    props img !! "endTime" = None.
Proof.
  eexists. split; [vm_compute; reflexivity|].
  split; [vm_compute; reflexivity|].
  pose proof (proj2 (describeImage_record epochDate (fun _ => Ok (VNum 1024))
                       webService [webTask] webBuilt) _ eq_refl) as H.
  destruct H as (_ & _ & _ & _ & _ & Hs & He). auto.
Defined.

(** X11: the image that is deployed is the image that was built.  For a
    service that is built from a context, [buildProject] fixes the task's
    tag, writes it to the descriptor and passes it to the build as the
    option [t]; the record of the built image then carries that tag as the
    image's name.  For a service that names its image, the record carries
    that name. *)
Theorem built_image_name
    (newDate : jsval -> jsval) (inspectSize : jsval -> res jsval)
    (projectName : string) (buildOpts : jsval)
    (descriptors descriptors' : gmap string BuildOptions.image)
    (task task' : BuildOptions.buildTask) (tasks : list BuildOptions.buildTask)
    (builtImage : localImage) (img : image) :
  BuildOptions.configureTask projectName buildOpts descriptors task = Ok (descriptors', task') ->
  l_serviceName builtImage = BuildOptions.serviceName task ->
  describeImage newDate inspectSize descriptors' tasks builtImage = Ok img ->
  let t := default (BuildOptions.defaultTag projectName (BuildOptions.serviceName task))
                   (BuildOptions.tag task) in
  BuildOptions.tag task' = Some t /\
  (exists opts, BuildOptions.dockerOpts task' = Some opts /\ opts !! "t" = Some (VStr t)) /\
  match descriptors !! BuildOptions.serviceName task with
  | Some (BuildOptions.ImageName n) => name img = VStr n
  | Some (BuildOptions.ImageBuild spec) =>
      name img = if isNullish (field spec "context") then field spec "tag" else VStr t
  | None => False
  end.
Proof.
  intros Hconf Hsn Hdesc. cbv zeta.
  unfold BuildOptions.configureTask in Hconf.
  destruct (descriptors !! BuildOptions.serviceName task) as [d|] eqn:Hd; [|discriminate].
  replace (match BuildOptions.tag task with
           | Some t => t
           | None => BuildOptions.defaultTag projectName (BuildOptions.serviceName task)
           end)
    with (default (BuildOptions.defaultTag projectName (BuildOptions.serviceName task))
                  (BuildOptions.tag task)) in Hconf
    by (destruct (BuildOptions.tag task); reflexivity).
  set (t := default _ (BuildOptions.tag task)) in *.
  injection Hconf as <- <-. cbn [BuildOptions.tag BuildOptions.dockerOpts].
  split; [reflexivity|]. split.
  { eexists. split; [reflexivity|].
    match goal with |- ?opts !! "t" = _ =>
      assert (Hother : opts !! "t"
                       = BuildOptions.merge (default ∅ (BuildOptions.dockerOpts task))
                           [buildOpts; VObj {[ "t" := VStr t ]}] !! "t")
    end.
    { destruct d as [n|spec]; [reflexivity|].
      destruct (isNullish (field spec "context")).
      - destruct (isNullish (BuildOptions.contextArgs spec)); [reflexivity|].
        apply mergeBuildArgs_other. discriminate.
      - destruct (isNullish (BuildOptions.contextArgs (<["tag" := VStr t]> spec)));
          [reflexivity|].
        apply mergeBuildArgs_other. discriminate. }
    rewrite Hother. unfold BuildOptions.merge. cbn [fold_left truthy].
    destruct (truthy buildOpts); rewrite baseMerge_lookup, lookup_singleton_eq; reflexivity. }
  unfold describeImage in Hdesc.
  destruct (successful builtImage); cbn [negb] in Hdesc; [|discriminate].
  rewrite Hsn, lookup_insert_eq in Hdesc.
  destruct (findTask tasks _) as [found|]; [|discriminate].
  destruct (BuildOptions.logBuffer found) as [buffer|]; [|discriminate].
  destruct (inspectSize _) as [size|e]; [|discriminate].
  injection Hdesc as <-. cbn [name].
  destruct d as [n|spec]; [reflexivity|].
  destruct (isNullish (field spec "context")); [reflexivity|].
  unfold field. rewrite lookup_insert_eq. reflexivity.
Qed.

(** X29: a generated image name survives the build.  [createProject]
    names the image of a service that is built from a context and has no
    tag after the project and the service, in lower case, and leaves every
    other descriptor as it is; the project is named by the caller or, by
    default, after the directory of the composition.  When the builder
    then hands [buildProject] a task without a tag for such a service, the
    task gets that same name and the descriptors stay as [createProject]
    left them. *)
Theorem createProject_names
    (load : string -> res jsval)
    (parse : jsval -> res (list (string * BuildOptions.image)))
    (basename : string -> string) (composePath composeStr : string)
    (projectName : option string) (p : project) :
  createProject load parse basename composePath composeStr projectName = Ok p ->
  p_name p = default (basename composePath) projectName /\
  load composeStr = Ok (composition p) /\
  exists parsed,
    parse (composition p) = Ok parsed /\
    map fst (descriptors p) = map fst parsed /\
    (forall sn d, (sn, d) ∈ parsed ->
       match d with
       | BuildOptions.ImageName _ => (sn, d) ∈ descriptors p
       | BuildOptions.ImageBuild spec =>
           if negb (isNullish (field spec "context")) && isNullish (field spec "tag")
           then
             let named := BuildOptions.ImageBuild
                            (<["tag" := VStr (BuildOptions.defaultTag (p_name p) sn)]> spec) in
             (sn, named) ∈ descriptors p /\
             forall buildOpts byName task,
               byName !! sn = Some named ->
               BuildOptions.serviceName task = sn -> BuildOptions.tag task = None ->
               exists task',
                 BuildOptions.configureTask (p_name p) buildOpts byName task
                 = Ok (byName, task') /\
                 BuildOptions.tag task' = Some (BuildOptions.defaultTag (p_name p) sn)
           else (sn, d) ∈ descriptors p
       end).
Proof.
  unfold createProject. destruct (load composeStr) as [composition0|e] eqn:Hload;
    [|discriminate].
  destruct (parse composition0) as [parsed|e] eqn:Hparse; [|discriminate].
  intros [= <-]. cbn [p_name composition descriptors].
  replace (match projectName with Some n => n | None => basename composePath end)
    with (default (basename composePath) projectName) by (destruct projectName; reflexivity).
  set (pn := default (basename composePath) projectName).
  split; [reflexivity|]. split; [reflexivity|].
  exists parsed. split; [exact Hparse|]. split.
  { rewrite map_map. apply map_ext. intros [sn d]. unfold nameImage. cbn [fst snd].
    destruct d as [n|spec]; [reflexivity|].
    destruct (negb _ && _); reflexivity. }
  intros sn d Hin.
  assert (Hmap : nameImage pn (sn, d) ∈ map (nameImage pn) parsed).
  { apply list_elem_of_In, in_map, list_elem_of_In. exact Hin. }
  unfold nameImage in Hmap. cbn [fst snd] in Hmap.
  destruct d as [n|spec]; [exact Hmap|].
  destruct (isNullish (field spec "context")) eqn:Hctx; cbn [negb andb] in *; [exact Hmap|].
  destruct (isNullish (field spec "tag")) eqn:Htag; [|exact Hmap].
  cbv zeta. split; [exact Hmap|].
  intros buildOpts byName task Hlook Hsn Hnone. unfold BuildOptions.configureTask.
  rewrite Hsn, Hlook, Hnone.
  assert (Hctx' : isNullish (field (<["tag" := VStr (BuildOptions.defaultTag pn sn)]> spec)
                                   "context") = false).
  { unfold field. rewrite lookup_insert_ne by discriminate. exact Hctx. }
  rewrite Hctx', insert_insert_eq, (insert_id byName sn _ Hlook).
  eexists. split; reflexivity.
Qed.

End BuildFacts.

(** ** Progress bars and the interactive renderer *)

Section RendererMore.
Import JS Renderer Build.

Lemma strlen_append (s t : string) : strlen (s +:+ t) = strlen s + strlen t.
Proof. unfold strlen. rewrite append_length. lia. Qed.

Lemma strlen_repeatChar (c : ascii) (n : nat) : strlen (repeatChar c n) = Z.of_nat n.
Proof. unfold strlen. rewrite repeatChar_length. reflexivity. Qed.

Lemma strlen_spaces (n : Z) : strlen (spaces n) = Z.max n 0.
Proof. unfold spaces. rewrite strlen_repeatChar. lia. Qed.

Lemma strlen_padStart (s : string) (n : Z) : strlen (padStart s n) = Z.max n (strlen s).
Proof.
  unfold padStart. rewrite strlen_append, strlen_spaces.
  assert (0 <= strlen s) by (unfold strlen; lia). lia.
Qed.

(** A percentage has at most three digits. *)
Lemma showZ_percentage (c : Z) : 0 <= c <= 100 -> strlen (showZ c) <= 3.
Proof.
  intros Hc.
  assert (Hall : forallb (fun k => strlen (showZ (Z.of_nat k)) <=? 3) (seq 0 101) = true)
    by (vm_compute; reflexivity).
  rewrite forallb_forall in Hall.
  specialize (Hall (Z.to_nat c)). rewrite Z2Nat.id in Hall by lia.
  apply Z.leb_le, Hall, in_seq. lia.
Qed.

(** The bar of a number: the width is that of the steps plus eight. *)
Lemma renderProgressBar_strlen (z stepCount : Z) :
  0 <= stepCount -> strlen (renderProgressBar (VNum z) stepCount) = stepCount + 8.
Proof.
  intros Hn. unfold renderProgressBar, clamp.
  set (c := Z.min (Z.max z 0) 100).
  assert (Hc : 0 <= c <= 100) by (unfold c; lia).
  assert (Hbar : 0 <= stepCount * c / 100 <= stepCount).
  { split; [apply Z.div_pos; nia|]. apply Z.div_le_upper_bound; nia. }
  rewrite !strlen_append, strlen_repeatChar, strlen_spaces, strlen_padStart.
  pose proof (showZ_percentage c Hc).
  change (strlen "[") with 1. change (strlen ">") with 1.
  change (strlen "] ") with 2. change (strlen "%") with 1.
  lia.
Qed.

(** X12: the progress bar.  For a whole number, whatever it is, the bar of
    [renderProgressBar] is [stepCount + 8] characters wide: a percentage
    outside 0..100 is drawn as the nearest end.  At 100 and above every
    step is filled; at 0 and below none is. *)
Theorem renderProgressBar_width (z stepCount : Z) :
  0 <= stepCount ->
  strlen (renderProgressBar (VNum z) stepCount) = stepCount + 8 /\
  (100 <= z ->
   renderProgressBar (VNum z) stepCount
   = "[" +:+ repeatChar "=" (Z.to_nat stepCount) +:+ ">] 100%") /\
  (z <= 0 ->
   renderProgressBar (VNum z) stepCount
   = "[>" +:+ spaces stepCount +:+ "]   0%").
Proof.
  intros Hn. split; [apply renderProgressBar_strlen; exact Hn|].
  unfold renderProgressBar, clamp. split; intros Hz.
  - replace (Z.min (Z.max z 0) 100) with 100 by lia.
    rewrite Z.div_mul by lia. rewrite Z.sub_diag. reflexivity.
  - replace (Z.min (Z.max z 0) 100) with 0 by lia.
    rewrite Z.mul_0_r. change (0 / 100) with 0. rewrite Z.sub_0_r. reflexivity.
Qed.

(** The theorem on a bar of twenty steps at 250 percent. *)
Lemma renderProgressBar_width_witness :
  renderProgressBar (VNum 250) 20 = "[====================>] 100%" /\
  strlen (renderProgressBar (VNum 250) 20) = 28.
Proof.
  destruct (renderProgressBar_width 250 20 ltac:(lia)) as (Hw & Hfull & _).
  split; [|exact Hw].
  etransitivity; [apply Hfull; lia|]. reflexivity.
Defined.

Variable L : libs.

Ltac ui_fields :=
  cbn [andb fst snd BuildProgressUI._cancelled BuildProgressUI._services
       BuildProgressUI._prefix BuildProgressUI._startTime
       BuildProgressUI._ended BuildProgressUI._runloop
       BuildProgressUI._serviceToDataMap BuildProgressUI._prefixWidth
       BuildProgressUI._maxLineWidth BuildProgressUI._lineWidths BuildProgressUI._spinner
       out sigint timers nextTimer clock windowWidth exited] in *.

Lemma linesWritten_app (a b : list ttyOp) :
  linesWritten (a ++ b) = (linesWritten a + linesWritten b)%nat.
Proof. unfold linesWritten. rewrite List.filter_app, length_app. reflexivity. Qed.

Lemma linesWritten_rows (rows : list string) :
  linesWritten (flat_map (fun row => [ClearLine; WriteLine row]) rows) = length rows.
Proof.
  induction rows as [|row rows IH]; [reflexivity|].
  cbn [flat_map]. rewrite linesWritten_app, IH. reflexivity.
Qed.

(** X13: a frame of the interactive renderer.  Every tick clears the
    window below the cursor, writes the status line and one row per
    service, and moves the cursor up by exactly the number of lines it
    wrote, so the next frame is drawn over this one.  The spinner advances
    by one position; the process is left alone. *)
Theorem display_frame (u : BuildProgressUI.ui) (h : host) :
  let r := BuildProgressUI._display L (u, h) in
  exists frame,
    out (snd r) = (out h ++ frame ++ [CursorUp (Z.of_nat (linesWritten frame))])%list /\
    linesWritten frame = S (length (BuildProgressUI._services u)) /\
    BuildProgressUI._spinner (fst r) = S (BuildProgressUI._spinner u) /\
    BuildProgressUI._ended (fst r) = BuildProgressUI._ended u /\
    sigint (snd r) = sigint h /\ timers (snd r) = timers h /\ exited (snd r) = exited h.
Proof.
  destruct u as [services data prefix pw mlw lw st ended cancelled sp rl].
  destruct h as [o sg tm nt ck ww ex].
  cbv zeta.
  unfold BuildProgressUI._display, BuildProgressUI._clear, BuildProgressUI._renderStatus,
    BuildProgressUI._renderSummary, print, prints.
  ui_fields.
  set (rows := map _ services).
  assert (Hrows : length rows = length services) by (unfold rows; apply length_map).
  rewrite <- !app_assoc. cbn [app].
  exists ([DeleteToEnd; ClearLine; Write prefix;
           WriteLine ("Building services... " +:+ spinnerChar sp)]
            ++ flat_map (fun row => [ClearLine; WriteLine row]) rows)%list.
  assert (Hn : linesWritten
                 ([DeleteToEnd; ClearLine; Write prefix;
                   WriteLine ("Building services... " +:+ spinnerChar sp)]
                    ++ flat_map (fun row => [ClearLine; WriteLine row]) rows)
               = S (length services)).
  { rewrite linesWritten_app, linesWritten_rows, Hrows. reflexivity. }
  rewrite Hn. split.
  - cbn [app]. replace (Z.of_nat (length services) + 1) with (Z.of_nat (S (length services)))
      by lia. reflexivity.
  - repeat split; reflexivity.
Qed.

(** [start] writes the same first event for every service. *)
Lemma handleEvents_run (services : list string) (event : jsval) (u : BuildProgressUI.ui) :
  fold_left (fun u service => BuildProgressUI._handleEvent service event u) services u
  = BuildProgressUI.mkUI
      (BuildProgressUI._services u)
      (fold_left (fun m service => <[service := event]> m) services
                 (BuildProgressUI._serviceToDataMap u))
      (BuildProgressUI._prefix u) (BuildProgressUI._prefixWidth u)
      (BuildProgressUI._maxLineWidth u) (BuildProgressUI._lineWidths u)
      (BuildProgressUI._startTime u) (BuildProgressUI._ended u)
      (BuildProgressUI._cancelled u) (BuildProgressUI._spinner u)
      (BuildProgressUI._runloop u).
Proof.
  revert u. induction services as [|service rest IH]; intros u.
  - destruct u; reflexivity.
  - cbn [fold_left]. rewrite IH. unfold BuildProgressUI._handleEvent. ui_fields.
    reflexivity.
Qed.

Lemma inserts_lookup (services : list string) (event : jsval) (m : gmap string jsval)
    (service : string) :
  fold_left (fun m service => <[service := event]> m) services m !! service
  = if decide (service ∈ services) then Some event else m !! service.
Proof.
  revert m. induction services as [|s rest IH]; intros m.
  - cbn [fold_left]. destruct (decide (service ∈ [])) as [H|_]; [|reflexivity].
    apply elem_of_nil in H. contradiction.
  - cbn [fold_left]. rewrite IH.
    destruct (decide (service ∈ rest)) as [Hin|Hout].
    + rewrite decide_True by (apply elem_of_cons; auto). reflexivity.
    + destruct (decide (service = s)) as [->|Hne].
      * rewrite lookup_insert_eq. rewrite decide_True by (apply elem_of_cons; auto).
        reflexivity.
      * rewrite lookup_insert_ne by congruence.
        rewrite decide_False; [reflexivity|].
        intros [?|?]%elem_of_cons; contradiction.
Qed.

Lemma start_run (u : BuildProgressUI.ui) (h : host) :
  BuildProgressUI.start (u, h)
  = (BuildProgressUI.mkUI
       (BuildProgressUI._services u)
       (fold_left (fun m service => <[service := VObj {[ "status" := VStr "Preparing..." ]}]> m)
                  (BuildProgressUI._services u) (BuildProgressUI._serviceToDataMap u))
       (BuildProgressUI._prefix u) (BuildProgressUI._prefixWidth u)
       (BuildProgressUI._maxLineWidth u) (BuildProgressUI._lineWidths u)
       (Some (clock h)) (BuildProgressUI._ended u)
       (BuildProgressUI._cancelled u) (BuildProgressUI._spinner u)
       (Some (nextTimer h)),
     mkHost (out h ++ [HideCursor]) (S (sigint h)) ({[nextTimer h]} ∪ timers h)
            (S (nextTimer h)) (clock h) (windowWidth h) (exited h)).
Proof.
  unfold BuildProgressUI.start. rewrite handleEvents_run.
  unfold createRunLoop, print, addListener. ui_fields. reflexivity.
Qed.

(** X14: the interactive renderer gives back what it takes.  [start]
    registers the interrupt handler, hides the cursor and starts an
    interval; the [end] that follows removes the handler, stops that
    interval and shows the cursor again, so the process is as it was. *)
Theorem ui_start_end (summary : option (gmap string jsval))
    (u : BuildProgressUI.ui) (h : host) :
  BuildProgressUI._ended u = false ->
  nextTimer h ∉ timers h ->
  let r := BuildProgressUI.end_ L summary (BuildProgressUI.start (u, h)) in
  sigint (snd r) = sigint h /\
  timers (snd r) = timers h /\
  exited (snd r) = exited h /\
  BuildProgressUI._ended (fst r) = true /\
  BuildProgressUI._runloop (fst r) = None /\
  exists frame, out (snd r) = (out h ++ [HideCursor] ++ frame ++ [ShowCursor])%list.
Proof.
  intros Hended Hfresh. cbv zeta. rewrite start_run.
  match goal with
  | |- context [BuildProgressUI.end_ L summary (?u1, ?h1)] =>
      destruct (ui_end_first L summary u1 h1 Hended)
        as (He & Hr & Hs & Ht & status & rows & Hout & _);
      set (r := BuildProgressUI.end_ L summary (u1, h1)) in *
  end.
  ui_fields. rewrite Hs, Ht, Hout.
  split; [reflexivity|]. split.
  { apply set_eq. intros x.
    rewrite elem_of_difference, elem_of_union, !elem_of_singleton.
    split; [intros [[->|Hx] Hn]; [contradiction|exact Hx]|].
    intros Hx. split; [right; exact Hx|]. intros ->. contradiction. }
  split.
  { unfold r, BuildProgressUI.end_. ui_fields. rewrite Hended.
    unfold BuildProgressUI._clear, BuildProgressUI._renderStatus,
      BuildProgressUI._renderSummary, print, prints, removeListener, runloopEnd.
    ui_fields. destruct (BuildProgressUI._cancelled u); reflexivity. }
  split; [exact He|]. split; [exact Hr|].
  rewrite <- !app_assoc. cbn [app].
  exists ([DeleteToEnd; ClearLine; Write (BuildProgressUI._prefix u); WriteLine status]
            ++ rows)%list.
  rewrite <- !app_assoc. reflexivity.
Qed.

(** [end] leaves the mark of an interrupt as it is. *)
Lemma end_cancelled (summary : option (gmap string jsval))
    (u : BuildProgressUI.ui) (h : host) :
  BuildProgressUI._cancelled (fst (BuildProgressUI.end_ L summary (u, h)))
  = BuildProgressUI._cancelled u.
Proof.
  unfold BuildProgressUI.end_.
  destruct (BuildProgressUI._ended u); [reflexivity|].
  unfold BuildProgressUI._clear, BuildProgressUI._renderSummary.
  match goal with |- context [BuildProgressUI._renderStatus L true ?s] =>
    assert (Hs : BuildProgressUI._cancelled (fst (BuildProgressUI._renderStatus L true s))
                 = BuildProgressUI._cancelled u);
    [|destruct (BuildProgressUI._renderStatus L true s) as [u2 h2]]
  end.
  { unfold BuildProgressUI._renderStatus. cbn [BuildProgressUI._cancelled andb].
    destruct (BuildProgressUI._cancelled u); reflexivity. }
  cbn [fst snd] in *. destruct summary; cbn [fst BuildProgressUI._cancelled]; exact Hs.
Qed.

(** X15: an interrupt ends the build's display and the process.  The
    handler marks the renderer cancelled and ended and exits with status
    130.  A renderer that had not ended draws its final frame first, with
    the status line [Build cancelled], and releases its handler and its
    interval; one that had ended writes nothing more. *)
Theorem handleInterrupt_exits (u : BuildProgressUI.ui) (h : host) :
  let r := BuildProgressUI._handleInterrupt L (u, h) in
  exited (snd r) = Some 130 /\
  BuildProgressUI._cancelled (fst r) = true /\
  BuildProgressUI._ended (fst r) = true /\
  (BuildProgressUI._ended u = true ->
   out (snd r) = out h /\ sigint (snd r) = sigint h /\ timers (snd r) = timers h) /\
  (BuildProgressUI._ended u = false ->
   sigint (snd r) = Nat.pred (sigint h) /\
   BuildProgressUI._runloop (fst r) = None /\
   exists rows,
     out (snd r)
     = (out h ++ [DeleteToEnd; ClearLine; Write (BuildProgressUI._prefix u);
                  WriteLine "Build cancelled"] ++ rows ++ [ShowCursor])%list /\
     length rows = (2 * length (BuildProgressUI._services u))%nat).
Proof.
  cbv zeta. unfold BuildProgressUI._handleInterrupt.
  set (u1 := BuildProgressUI.mkUI _ _ _ _ _ _ _ _ true _ _).
  assert (Hc1 : BuildProgressUI._cancelled
                  (fst (BuildProgressUI.end_ L None (u1, h))) = true)
    by (rewrite end_cancelled; reflexivity).
  assert (He1 : BuildProgressUI._ended u1 = BuildProgressUI._ended u) by reflexivity.
  assert (Hp1 : BuildProgressUI._prefix u1 = BuildProgressUI._prefix u) by reflexivity.
  assert (Hs1 : BuildProgressUI._services u1 = BuildProgressUI._services u) by reflexivity.
  assert (Hk1 : BuildProgressUI._cancelled u1 = true) by reflexivity.
  clearbody u1.
  destruct (BuildProgressUI._ended u) eqn:He.
  - rewrite (ui_end_ended L None u1 h He1) in Hc1 |- *.
    cbn [fst snd] in *. unfold processExit. cbn [exited out sigint timers].
    repeat split; auto; discriminate.
  - destruct (ui_end_first L None u1 h He1)
      as (H1 & H2 & H3 & _ & status & rows & Hout & Hst & Hlen).
    destruct (BuildProgressUI.end_ L None (u1, h)) as [u' h'].
    cbn [fst snd] in *. unfold processExit. cbn [exited out sigint timers].
    split; [reflexivity|]. split; [exact Hc1|]. split; [exact H1|].
    split; [discriminate|]. intros _.
    split; [exact H3|]. split; [exact H2|].
    exists rows. split; [|rewrite <- Hs1; exact Hlen].
    rewrite Hout, (Hst Hk1), Hp1. reflexivity.
Qed.

(** X16: the rows the interactive renderer computes for itself.  The
    summary has a row for every service of the renderer and for nothing
    else.  A service that has sent no event yet reads [Waiting...]; right
    after [start] every service reads [Preparing...]; an event for one
    service changes that service's row only. *)
Theorem getServiceSummary_rows (u : BuildProgressUI.ui) (h : host) (service : string) :
  (service ∉ BuildProgressUI._services u ->
   BuildProgressUI._getServiceSummary u !! service = None) /\
  (service ∈ BuildProgressUI._services u ->
   (BuildProgressUI._serviceToDataMap u !! service = None ->
    BuildProgressUI._getServiceSummary u !! service = Some (VStr "Waiting...")) /\
   BuildProgressUI._getServiceSummary (fst (BuildProgressUI.start (u, h))) !! service
   = Some (VStr "Preparing...") /\
   (forall other event,
       other <> service ->
       BuildProgressUI._getServiceSummary (BuildProgressUI._handleEvent other event u)
         !! service
       = BuildProgressUI._getServiceSummary u !! service)).
Proof.
  split.
  - intros Hs. rewrite getServiceSummary_lookup, decide_False by exact Hs. reflexivity.
  - intros Hs. split; [|split].
    + intros Hd. rewrite getServiceSummary_lookup, decide_True, Hd by exact Hs.
      reflexivity.
    + rewrite start_run, getServiceSummary_lookup. ui_fields.
      rewrite decide_True, inserts_lookup, decide_True by exact Hs. reflexivity.
    + intros other event Hne. rewrite !getServiceSummary_lookup.
      unfold BuildProgressUI._handleEvent. ui_fields.
      rewrite lookup_insert_ne by exact Hne. reflexivity.
Qed.

Lemma summary_lookup (filesize : jsval -> string) (images : list image) (service : string) :
  service ∈ map serviceName images ->
  exists line, summary filesize images !! service = Some (VStr line).
Proof.
  intros Hs. unfold summary.
  destruct (list_to_map _ !! service) as [v|] eqn:Hv.
  - apply elem_of_list_to_map_2 in Hv.
    rewrite list_elem_of_In, <- in_rev, in_map_iff in Hv.
    destruct Hv as (i & [= _ <-] & _). eexists; reflexivity.
  - apply not_elem_of_list_to_map_2 in Hv. exfalso. apply Hv.
    rewrite list_elem_of_In in Hs. apply in_map_iff in Hs as (i & <- & Hi).
    apply list_elem_of_fmap. exists (serviceName i, VStr ("Image size: " +:+
      filesize (field (props i) "size"))). split; [reflexivity|].
    rewrite list_elem_of_In, <- in_rev. apply in_map_iff. exists i. auto.
Qed.

Lemma inline_waiting_rows (i : BuildProgressInline.inline) (m : gmap string jsval)
    (services : list string) (h : host) :
  (forall service, service ∈ services -> exists line, m !! service = Some (VStr line)) ->
  BuildProgressInline.forEach
    (fun service => BuildProgressInline._renderEvent L i service (field m service))
    services h
  = (Ok tt,
     prints (flat_map (fun service =>
                         [Write (padEnd (bold L service) (BuildProgressInline._prefixWidth i));
                          Write "Waiting...";
                          Write (String newline "")]) services) h).
Proof.
  revert h. induction services as [|service rest IH]; intros h Hall.
  - cbn [BuildProgressInline.forEach flat_map]. rewrite prints_nil. reflexivity.
  - cbn [BuildProgressInline.forEach flat_map]. unfold bind.
    destruct (Hall service ltac:(apply elem_of_cons; auto)) as [line Hline].
    assert (Hf : field m service = VStr line)
      by (unfold field; rewrite Hline; reflexivity).
    unfold BuildProgressInline._renderEvent at 1. rewrite Hf.
    cbn [isNullish JS.props]. unfold field at 1 2 3.
    rewrite !lookup_empty. cbn [default from_option id truthy].
    unfold modify at 1.
    rewrite IH by (intros s Hs; apply Hall; apply elem_of_cons; auto).
    rewrite prints_prints. reflexivity.
Qed.

(** X17: what the inline renderer shows at the end of a build.  The
    summary that [buildProject] hands to [end] maps every service to a
    line of text, [Image size: ...].  The inline renderer reads the status
    and the error of each entry, and a line of text has neither: for every
    service it writes [Waiting...], then the closing line. *)
Theorem inline_end_build_summary
    (filesize : jsval -> string) (images : list image)
    (i : BuildProgressInline.inline) (h : host) :
  BuildProgressInline._ended i = false ->
  (forall service, service ∈ BuildProgressInline._services i ->
                   service ∈ map serviceName images) ->
  BuildProgressInline.end_ L (Some (summary filesize images)) i h
  = (Ok tt,
     BuildProgressInline.mkInline (BuildProgressInline._services i)
       (BuildProgressInline._prefixWidth i) (BuildProgressInline._startTime i) true,
     prints (flat_map (fun service =>
                         [Write (padEnd (bold L service) (BuildProgressInline._prefixWidth i));
                          Write "Waiting...";
                          Write (String newline "")])
                      (BuildProgressInline._services i)
             ++ [Write ("Built " +:+ serviceStr (BuildProgressInline._services i) +:+ " in "
                          +:+ durationStr L (BuildProgressInline._startTime i) h
                          +:+ String newline "")]) h).
Proof.
  intros Hended Hall. unfold BuildProgressInline.end_. rewrite Hended.
  cbn [BuildProgressInline._services BuildProgressInline._startTime
       BuildProgressInline._prefixWidth].
  unfold bind at 1.
  rewrite (inline_waiting_rows
             (BuildProgressInline.mkInline (BuildProgressInline._services i)
                (BuildProgressInline._prefixWidth i) (BuildProgressInline._startTime i) true)).
  2:{ intros service Hs. apply (summary_lookup filesize). apply Hall. exact Hs. }
  cbn [BuildProgressInline._prefixWidth].
  unfold modify, print. destruct h. unfold prints, durationStr. cbn [out clock sigint timers
    nextTimer windowWidth exited]. rewrite <- app_assoc. reflexivity.
Qed.

Lemma inline_preparing_rows (i : BuildProgressInline.inline) (services : list string)
    (h : host) :
  BuildProgressInline.forEach
    (fun service =>
       BuildProgressInline._renderEvent L i service (VObj {[ "status" := VStr "Preparing..." ]}))
    services h
  = (Ok tt,
     prints (flat_map (fun service =>
                         [Write (padEnd (bold L service) (BuildProgressInline._prefixWidth i));
                          Write "Preparing...";
                          Write (String newline "")]) services) h).
Proof.
  revert h. induction services as [|service rest IH]; intros h.
  - cbn [BuildProgressInline.forEach flat_map]. rewrite prints_nil. reflexivity.
  - cbn [BuildProgressInline.forEach flat_map]. unfold bind.
    unfold BuildProgressInline._renderEvent at 1. cbn [isNullish JS.props].
    unfold field at 1 2 3.
    rewrite lookup_singleton_ne, lookup_singleton_eq by discriminate.
    cbn [default from_option id truthy toString String.eqb Ascii.eqb negb].
    unfold modify at 1. rewrite IH, prints_prints. reflexivity.
Qed.

(** X18: the inline renderer from start to end.  [start] cannot fail: it
    writes the heading and a [Preparing...] row for every service and
    notes the time.  The [end] that follows, without a summary, reports the
    whole seconds that passed between the two calls. *)
Theorem inline_start_end (i : BuildProgressInline.inline) (h : host) :
  let run := BuildProgressInline.start L i h in
  let started := BuildProgressInline.mkInline
                   (BuildProgressInline._services i) (BuildProgressInline._prefixWidth i)
                   (Some (clock h)) (BuildProgressInline._ended i) in
  fst run = Ok started /\
  snd run
  = prints (Write ("Building services..." +:+ String newline "")
              :: flat_map (fun service =>
                             [Write (padEnd (bold L service)
                                            (BuildProgressInline._prefixWidth i));
                              Write "Preparing...";
                              Write (String newline "")])
                          (BuildProgressInline._services i)) h /\
  (BuildProgressInline._ended i = false ->
   forall later,
     BuildProgressInline.end_ L None started later
     = (Ok tt,
        BuildProgressInline.mkInline
          (BuildProgressInline._services i) (BuildProgressInline._prefixWidth i)
          (Some (clock h)) true,
        print (Write ("Built " +:+ serviceStr (BuildProgressInline._services i) +:+ " in "
                        +:+ formatDuration L ((clock later - clock h) / 1000)
                        +:+ String newline "")) later)).
Proof.
  cbv zeta.
  assert (Hrun : BuildProgressInline.start L i h
                 = (Ok (BuildProgressInline.mkInline
                          (BuildProgressInline._services i)
                          (BuildProgressInline._prefixWidth i)
                          (Some (clock h)) (BuildProgressInline._ended i)),
                    prints (Write ("Building services..." +:+ String newline "")
                              :: flat_map (fun service =>
                                   [Write (padEnd (bold L service)
                                                  (BuildProgressInline._prefixWidth i));
                                    Write "Preparing...";
                                    Write (String newline "")])
                                   (BuildProgressInline._services i)) h)).
  { unfold BuildProgressInline.start.
    unfold bind at 1. unfold modify at 1. unfold bind at 1.
    rewrite inline_preparing_rows. unfold bind, gets, ret.
    destruct h. unfold prints, print. cbn. rewrite <- app_assoc. reflexivity. }
  rewrite Hrun. cbn [fst snd].
  split; [reflexivity|]. split; [reflexivity|].
  intros Hended later.
  rewrite (inline_end_first L
             (BuildProgressInline.mkInline
                (BuildProgressInline._services i) (BuildProgressInline._prefixWidth i)
                (Some (clock h)) (BuildProgressInline._ended i))
             later Hended).
  reflexivity.
Qed.

End RendererMore.

(** The theorem on a renderer for one service in an idle process. *)
Lemma ui_start_end_witness :
  let r := Renderer.BuildProgressUI.end_ plainLibs None startedUI in
  Renderer.sigint (snd r) = 0%nat /\
  Renderer.timers (snd r) = ∅ /\
  Renderer.exited (snd r) = None.
Proof.
  cbv zeta.
  destruct (ui_start_end plainLibs None (Renderer.BuildProgressUI.new plainLibs ["main"])
              idleHost eq_refl (not_elem_of_empty (C := gset nat) 0%nat))
    as (H1 & H2 & H3 & _).
  auto.
Defined.

(** ** Release, tag and push, continued *)

Section ImageNames.
Import JS Deploy.

Lemma matchRepo_plain (repo : string) :
  lacks ":" repo = true -> oneLine repo = true ->
  matchRepo repo = Some (repo, None).
Proof.
  unfold lacks, oneLine. induction repo as [|a repo IH]; [reflexivity|].
  cbn [allChars matchRepo]. intros [Ha Hr]%andb_true_iff [Hl Ho]%andb_true_iff.
  apply negb_true_iff in Ha, Hl. rewrite Ha, Hl. cbn [andb].
  rewrite (IH Hr Ho). reflexivity.
Qed.

Lemma matchRepo_tagged (repo tag : string) :
  lacks ":" repo = true -> oneLine repo = true -> lacks "/" tag = true ->
  matchRepo (repo +:+ String ":" tag) = Some (repo, Some tag).
Proof.
  unfold lacks, oneLine. intros Hr Ho Ht.
  induction repo as [|a repo IH].
  - rewrite append_nil_l. cbn [matchRepo]. rewrite Ascii.eqb_refl, Ht. reflexivity.
  - rewrite append_cons. cbn [allChars matchRepo] in *.
    apply andb_true_iff in Hr as [Ha Hr]. apply andb_true_iff in Ho as [Hl Ho].
    apply negb_true_iff in Ha, Hl. rewrite Ha, Hl. cbn [andb].
    rewrite (IH Hr Ho). reflexivity.
Qed.

Lemma matchFrom_registry (registry rest : string) :
  lacks "/" registry = true -> oneLine registry = true ->
  is_Some (matchRepo rest) ->
  matchFrom (registry +:+ String "/" rest)
  = (fun m => (registry, fst m, snd m)) <$> matchRepo rest.
Proof.
  unfold lacks, oneLine. intros Hr Ho [[repo t] Hm].
  induction registry as [|a registry IH].
  - rewrite append_nil_l. cbn [matchFrom]. rewrite Ascii.eqb_refl, Hm. reflexivity.
  - rewrite append_cons. cbn [allChars matchFrom] in *.
    apply andb_true_iff in Hr as [Ha Hr]. apply andb_true_iff in Ho as [Hl Ho].
    apply negb_true_iff in Ha, Hl. rewrite Ha, Hl.
    rewrite (IH Hr Ho), Hm. reflexivity.
Qed.

Lemma parseImageName_matched (s : string) m :
  matchFrom s = Some m -> parseImageName s = Some m.
Proof. intros H. destruct s; cbn [parseImageName]; rewrite H; reflexivity. Qed.

(** X19: an image location is read back as it was put together.  For a
    registry without a slash (it may name a port), a repository without a
    colon (it may hold slashes) and a tag without a slash, all on one line,
    [registry/repository:tag] is split into exactly these three, and
    [registry/repository] into the first two with no tag, for which
    [tagServiceImages] then takes [latest]. *)
Theorem parseImageName_roundtrip (registry repo tag : string) :
  lacks "/" registry = true -> oneLine registry = true ->
  lacks ":" repo = true -> oneLine repo = true ->
  lacks "/" tag = true ->
  parseImageName (registry +:+ "/" +:+ repo +:+ ":" +:+ tag)
  = Some (registry, repo, Some tag) /\
  parseImageName (registry +:+ "/" +:+ repo) = Some (registry, repo, None).
Proof.
  intros Hr Hro Hp Hpo Ht. split; apply parseImageName_matched.
  - change (registry +:+ "/" +:+ repo +:+ ":" +:+ tag)
      with (registry +:+ String "/" (repo +:+ String ":" tag)).
    rewrite matchFrom_registry
      by (auto; rewrite matchRepo_tagged by auto; eexists; reflexivity).
    rewrite matchRepo_tagged by auto. reflexivity.
  - change (registry +:+ "/" +:+ repo) with (registry +:+ String "/" repo).
    rewrite matchFrom_registry
      by (auto; rewrite matchRepo_plain by auto; eexists; reflexivity).
    rewrite matchRepo_plain by auto. reflexivity.
Qed.

(** The theorem on a registry with a port and a repository in two parts. *)
Lemma parseImageName_roundtrip_witness :
  parseImageName "localhost:5000/v2/0a1b:build-7"
  = Some ("localhost:5000", "v2/0a1b", Some "build-7") /\
  parseImageName "localhost:5000/v2/0a1b" = Some ("localhost:5000", "v2/0a1b", None).
Proof.
  exact (parseImageName_roundtrip "localhost:5000" "v2/0a1b" "build-7"
           eq_refl eq_refl eq_refl eq_refl eq_refl).
Defined.

End ImageNames.

Section TraceFacts.
Import JS Deploy.
Variable P : event -> Prop.

Lemma emits_still {A} (m : M world A) :
  (forall w, trace (snd (m w)) = trace w) -> emits P m.
Proof. intros H w. exists []. rewrite H, app_nil_r. auto. Qed.

Lemma emits_ret {A} (a : A) : emits P (ret a).
Proof. apply emits_still. reflexivity. Qed.

Lemma emits_throw {A} (e : string) : emits P (@throw world A e).
Proof. apply emits_still. reflexivity. Qed.

Lemma emits_lift {A} (r : res A) : emits P (lift r).
Proof. apply emits_still. reflexivity. Qed.

Lemma emits_gets {A} (f : world -> A) : emits P (gets f).
Proof. apply emits_still. reflexivity. Qed.

Lemma emits_setField (sn key : string) (v : jsval) : emits P (setField sn key v).
Proof. apply emits_still. reflexivity. Qed.

Lemma emits_deleteField (sn key : string) : emits P (deleteField sn key).
Proof. apply emits_still. reflexivity. Qed.

Lemma emits_setRelease (key : string) (v : jsval) : emits P (setRelease key v).
Proof. apply emits_still. reflexivity. Qed.

Lemma emits_emit (e : event) : P e -> emits P (emit e).
Proof. intros He w. exists [e]. split; [reflexivity|]. repeat constructor. exact He. Qed.

Lemma emits_bind {A B} (m : M world A) (k : A -> M world B) :
  emits P m -> (forall a, emits P (k a)) -> emits P (bind m k).
Proof.
  intros Hm Hk w. unfold bind.
  destruct (m w) as [[a|e] w1] eqn:Hrun.
  - destruct (Hm w) as (t1 & H1 & F1). rewrite Hrun in H1. cbn [snd] in H1.
    destruct (Hk a w1) as (t2 & H2 & F2).
    exists (t1 ++ t2)%list. rewrite H2, H1, app_assoc. split; [reflexivity|].
    apply Forall_app. auto.
  - destruct (Hm w) as (t1 & H1 & F1). rewrite Hrun in H1. eauto.
Qed.

Lemma emits_catch {A} (m : M world A) (h : string -> M world A) :
  emits P m -> (forall e, emits P (h e)) -> emits P (catch m h).
Proof.
  intros Hm Hh w. unfold catch.
  destruct (m w) as [[a|e] w1] eqn:Hrun;
    destruct (Hm w) as (t1 & H1 & F1); rewrite Hrun in H1; cbn [snd] in H1; [eauto|].
  destruct (Hh e w1) as (t2 & H2 & F2).
  exists (t1 ++ t2)%list. rewrite H2, H1, app_assoc. split; [reflexivity|].
  apply Forall_app. auto.
Qed.

Lemma emits_tapCatch {A} (m : M world A) (h : string -> M world unit) :
  emits P m -> (forall e, emits P (h e)) -> emits P (tapCatch m h).
Proof.
  intros Hm Hh w. unfold tapCatch.
  destruct (m w) as [[a|e] w1] eqn:Hrun;
    destruct (Hm w) as (t1 & H1 & F1); rewrite Hrun in H1; cbn [snd] in H1; [eauto|].
  destruct (Hh e w1) as (t2 & H2 & F2).
  exists (t1 ++ t2)%list.
  destruct (h e w1) as [[u|e'] w2]; cbn [snd] in *;
    rewrite H2, H1, app_assoc; (split; [reflexivity|]); apply Forall_app; auto.
Qed.

Lemma emits_finally {A} (m : M world A) (h : M world unit) :
  emits P m -> emits P h -> emits P (finally m h).
Proof.
  intros Hm Hh w. unfold finally.
  destruct (m w) as [r w1] eqn:Hrun.
  destruct (Hm w) as (t1 & H1 & F1); rewrite Hrun in H1; cbn [snd] in H1.
  destruct (Hh w1) as (t2 & H2 & F2).
  exists (t1 ++ t2)%list.
  destruct (h w1) as [[u|e'] w2]; cbn [snd] in *;
    rewrite H2, H1, app_assoc; (split; [reflexivity|]); apply Forall_app; auto.
Qed.

Lemma emits_tap {A} (m : M world A) (h : A -> M world unit) :
  emits P m -> (forall a, emits P (h a)) -> emits P (tap m h).
Proof.
  intros Hm Hh. unfold tap. apply emits_bind; [exact Hm|].
  intros a. apply emits_bind; [apply Hh|]. intros _. apply emits_ret.
Qed.

Lemma emits_promiseMap {A B} (f : nat -> A -> M world B) (l : list A) (i : nat) :
  (forall i a, emits P (f i a)) -> emits P (promiseMap f i l).
Proof.
  intros Hf. revert i. induction l as [|a l IH]; intros i w; cbn [promiseMap].
  - exists []. rewrite app_nil_r. auto.
  - destruct (Hf i a w) as (t1 & H1 & F1). destruct (f i a w) as [ra w1]; cbn [snd] in *.
    destruct (IH (S i) w1) as (t2 & H2 & F2).
    destruct (promiseMap f (S i) l w1) as [rr w2]. cbn [snd] in *.
    exists (t1 ++ t2)%list. rewrite H2, H1, app_assoc. split; [reflexivity|].
    apply Forall_app. auto.
Qed.

Lemma emits_promiseMapThrowing {A B} (f : A -> world -> res (M world B)) (l : list A) :
  (forall a w chain, f a w = Ok chain -> emits P chain) -> emits P (promiseMapThrowing f l).
Proof.
  intros Hf w. unfold promiseMapThrowing.
  assert (Hchains : Forall (fun chain => emits P chain) (fst (startAll f l w))).
  { induction l as [|a l IH]; cbn [startAll]; [constructor|].
    destruct (f a w) as [chain|e] eqn:Hfa; [|constructor].
    destruct (startAll f l w) as [chains thrown]. cbn [fst] in *.
    constructor; [exact (Hf a w chain Hfa)|exact IH]. }
  destruct (startAll f l w) as [chains thrown]. cbn [fst] in Hchains.
  assert (Hrun : forall i, emits P (promiseMap (fun _ chain => chain) i chains)).
  { induction Hchains as [|chain chains Hchain _ IH]; intros i w0; cbn [promiseMap].
    - exists []. rewrite app_nil_r. auto.
    - destruct (Hchain w0) as (t1 & H1 & F1). destruct (chain w0) as [ra w1]; cbn [snd] in *.
      destruct (IH (S i) w1) as (t2 & H2 & F2).
      destruct (promiseMap (fun _ chain0 => chain0) (S i) chains w1) as [rr w2].
      cbn [snd] in *.
      exists (t1 ++ t2)%list. rewrite H2, H1, app_assoc. split; [reflexivity|].
      apply Forall_app. auto. }
  destruct (Hrun 0%nat w) as (tail & Ht & Hall).
  destruct (promiseMap (fun _ chain => chain) 0 chains w) as [r w'].
  exists tail. auto.
Qed.

Lemma emits_promiseJoin {A B C} (p : M world A) (q : M world B)
    (handler : A -> B -> M world C) :
  emits P p -> emits P q -> (forall a b, emits P (handler a b)) ->
  emits P (promiseJoin p q handler).
Proof.
  intros Hp Hq Hh w. unfold promiseJoin.
  destruct (Hp w) as (t1 & H1 & F1). destruct (p w) as [ra w1]; cbn [snd] in *.
  destruct (Hq w1) as (t2 & H2 & F2). destruct (q w1) as [rb w2]; cbn [snd] in *.
  assert (H12 : trace w2 = (trace w ++ (t1 ++ t2))%list)
    by (rewrite H2, H1, app_assoc; reflexivity).
  assert (F12 : Forall P (t1 ++ t2)) by (apply Forall_app; auto).
  destruct ra as [a|e]; [destruct rb as [b|e]|]; cbn [snd]; eauto.
  destruct (Hh a b w2) as (t3 & H3 & F3).
  exists ((t1 ++ t2) ++ t3)%list. rewrite H3, H12, !app_assoc. split; [reflexivity|].
  apply Forall_app. auto.
Qed.

Lemma emits_retry {A} (func : nat -> M world A) (times : nat) (label : string)
    (delayMs backoffScaler : Q) (count : nat) :
  (forall ms, P (Delay label ms)) ->
  (forall n, emits P (func n)) ->
  emits P (retry func times label delayMs backoffScaler count).
Proof.
  intros Hd Hf. revert count. induction times as [|t IH]; intros count; cbn [retry].
  - apply Hf.
  - apply emits_catch; [apply Hf|]. intros _.
    apply emits_bind; [apply emits_emit; apply Hd|]. intros _. apply IH.
Qed.

End TraceFacts.

Section DeployMore.
Import JS Deploy.
Variable E : env.

Ltac emits_step :=
  first
    [ apply emits_ret | apply emits_throw | apply emits_lift | apply emits_gets
    | apply emits_setField | apply emits_deleteField | apply emits_setRelease
    | apply emits_emit; exact I
    | apply emits_bind | apply emits_catch | apply emits_tapCatch
    | apply emits_finally | apply emits_tap | apply emits_promiseMap
    | apply emits_promiseJoin | apply emits_retry; [intros; exact I|]
    | progress intros
    | match goal with
      | |- emits _ (match ?x with _ => _ end) => destruct x
      | |- emits _ (if ?b then _ else _) => destruct b
      | |- emits _ (let '(_, _) := ?x in _) => destruct x
      end ].

(** The look-up of the previous repositories always yields a list. *)
Lemma getPreviousRepos_ok (w : world) :
  exists repos,
    fst (getPreviousRepos E w) = Ok repos /\
    (is_ok (latestRelease E) = false -> repos = []).
Proof.
  unfold getPreviousRepos, catch, bind, emit, modify, lift, ret. cbn [fst snd].
  destruct (latestRelease E) as [[locations|]|e]; cbn [fst snd is_ok].
  - match goal with |- context [promiseMap ?f ?i locations ?w0] =>
      destruct (promiseMap f i locations w0) as [[repos|e] w1]
    end; cbn [fst snd]; eexists; (split; [reflexivity|discriminate]).
  - eexists; split; [reflexivity|discriminate].
  - eexists; split; [reflexivity|]. reflexivity.
Qed.

Lemma authorizePush_run (registry : string) (images previous : list string) (w : world) :
  authorizePush E registry images previous w
  = (Ok (match tokenResult E registry
                 (map (fun repo => "repository:" +:+ repo +:+ ":pull,push")
                      (images ++ previous)) with
         | Ok token => token
         | Throw _ => VObj ∅
         end),
     mkWorld (serviceImages w) (release w)
             (trace w ++ [RequestToken registry
                            (map (fun repo => "repository:" +:+ repo +:+ ":pull,push")
                                 (images ++ previous))])).
Proof.
  unfold authorizePush, catch, bind, emit, modify, lift, ret. cbn [fst snd].
  destruct (tokenResult E registry _); reflexivity.
Qed.

(** X20: what precedes the push cannot fail the deploy.  The look-up of
    the repositories of the previous release always yields a list, the
    empty one when the query fails, and leaves the release alone; the
    request for the token is made once, for the current repositories
    followed by the previous ones, and always yields a token, the empty
    object when the request fails. *)
Theorem authorization_never_fails
    (registry : string) (images previous : list string) (w : world) :
  (exists repos,
      fst (getPreviousRepos E w) = Ok repos /\
      (is_ok (latestRelease E) = false -> repos = []) /\
      release (snd (getPreviousRepos E w)) = release w) /\
  let scope := map (fun repo => "repository:" +:+ repo +:+ ":pull,push")
                   (images ++ previous) in
  authorizePush E registry images previous w
  = (Ok (match tokenResult E registry scope with
         | Ok token => token
         | Throw _ => VObj ∅
         end),
     mkWorld (serviceImages w) (release w) (trace w ++ [RequestToken registry scope])).
Proof.
  split.
  - destruct (quiet_getPreviousRepos E w) as [Hrel _].
    destruct (getPreviousRepos_ok w) as (repos & H1 & H2). exists repos. auto.
  - cbv zeta. apply authorizePush_run.
Qed.

Lemma omit_in (keys : list string) (m : gmap string jsval) (k : string) :
  k ∈ keys -> omit keys m !! k = None.
Proof.
  unfold omit. revert m. induction keys as [|key keys IH]; intros m Hk.
  - apply elem_of_nil in Hk. contradiction.
  - cbn [fold_left]. destruct (decide (k ∈ keys)) as [Hin|Hout].
    + apply IH. exact Hin.
    + apply elem_of_cons in Hk as [->|Hk]; [|contradiction].
      fold (omit keys (delete key m)). rewrite omit_other by exact Hout.
      apply lookup_delete_eq.
Qed.

(** X21: what [createRelease] keeps of the backend's answer.  The release
    loses [created_at], [belongs_to__application], [is_created_by__user]
    and [__metadata], every record of a service image loses [created_at],
    [is_a_build_of__service] and [__metadata], and every other field of
    either is kept as it came.  When the backend refuses, nothing
    changes. *)
Theorem createRelease_strips (w : world) :
  match created E with
  | Throw e => createRelease E w = (Throw e, w)
  | Ok (rel, imgs) =>
      let w' := snd (createRelease E w) in
      fst (createRelease E w) = Ok tt /\
      trace w' = trace w /\
      (forall k,
          release w' !! k
          = if bool_decide (k ∈ ["created_at"; "belongs_to__application";
                                 "is_created_by__user"; "__metadata"])
            then None else rel !! k) /\
      (forall sn, is_Some (serviceImages w' !! sn) <-> is_Some (imgs !! sn)) /\
      (forall sn record k,
          serviceImages w' !! sn = Some record ->
          record !! k
          = if bool_decide (k ∈ ["created_at"; "is_a_build_of__service"; "__metadata"])
            then None else imgs !! sn ≫= (fun original => original !! k))
  end.
Proof.
  unfold createRelease, bind, lift, modify. cbn [fst snd].
  destruct (created E) as [[rel imgs]|e]; [|reflexivity].
  cbn [fst snd trace release serviceImages].
  split; [reflexivity|]. split; [reflexivity|]. split; [|split].
  - intros k. case_bool_decide as Hk; [apply omit_in|apply omit_other]; exact Hk.
  - intros sn. rewrite lookup_fmap. destruct (imgs !! sn); cbn; split; intros [? H];
      try discriminate; eexists; reflexivity.
  - intros sn record k. rewrite lookup_fmap.
    destruct (imgs !! sn) as [original|];
      cbn [fmap option_fmap option_map mbind option_bind]; [|discriminate].
    intros Hrec.
    assert (Hr : record = omit ["created_at"; "is_a_build_of__service"; "__metadata"] original)
      by congruence.
    rewrite Hr. case_bool_decide as Hk; [apply omit_in|apply omit_other]; exact Hk.
Qed.

(** *** What the trace of a deploy can hold *)

Lemma saveImage_withoutLog (img : taggedImage) : emits withoutLog (saveImage E true img).
Proof.
  intros w. unfold saveImage, deleteField, bind, gets, emit, modify, lift.
  cbn [fst snd trace serviceImages].
  match goal with |- context [UpdateImage ?i ?r] => exists [Log
    ("Saving image " +:+ toString (field (default ∅ (serviceImages w !! t_serviceName img))
                                     "is_stored_at__image_location")); UpdateImage i r]
  end.
  split.
  - rewrite <- app_assoc. reflexivity.
  - repeat constructor. cbn [withoutLog]. rewrite lookup_alter_eq.
    destruct (serviceImages w !! t_serviceName img) as [record|];
      cbn [fmap option_fmap option_map default from_option id].
    + apply lookup_delete_eq.
    + apply lookup_empty.
Qed.

Lemma pushAndUpdateServiceImages_emits (P : event -> Prop) (token : jsval)
    (images : list taggedImage) (callback : taggedImage -> M world unit) :
  (forall name, P (Inspect name)) ->
  (forall index name attempt, P (Push index name attempt)) ->
  (forall label ms, P (Delay label ms)) ->
  (forall index, P (Callback index)) ->
  (forall img, emits P (callback img)) ->
  emits P (pushAndUpdateServiceImages E token images (Some callback)).
Proof.
  intros Hi Hp Hd Hc Hcb.
  unfold pushAndUpdateServiceImages, pushAndUpdateServiceImage, recordSuccess,
    recordFailure, pushAttempt.
  apply emits_promiseMap. intros i img.
  apply emits_finally.
  - apply emits_tapCatch.
    + apply emits_promiseJoin.
      * apply emits_bind; [apply emits_emit; apply Hi|]. intros _. apply emits_lift.
      * apply emits_retry; [intros; apply Hd|]. intros n.
        apply emits_bind; [apply emits_emit; apply Hp|]. intros _. apply emits_lift.
      * intros size digest. repeat emits_step.
    + intros e. repeat emits_step.
  - apply emits_bind; [apply emits_emit; apply Hc|]. intros _. apply Hcb.
Qed.

Lemma getPreviousRepos_emits (P : event -> Prop) :
  P QueryPreviousRelease -> (forall name, P (RegistryAndName name)) ->
  (forall msg, P (Log msg)) ->
  emits P (getPreviousRepos E).
Proof.
  intros Hq Hr Hl. unfold getPreviousRepos.
  apply emits_catch.
  - apply emits_bind; [apply emits_emit; exact Hq|]. intros _.
    apply emits_bind; [apply emits_lift|]. intros [locations|]; [|apply emits_ret].
    apply emits_promiseMap. intros _ imageName.
    apply emits_bind; [apply emits_emit; apply Hr|]. intros _.
    apply emits_bind; [apply emits_lift|]. intros repoName.
    apply emits_bind; [apply emits_emit; apply Hl|]. intros _. apply emits_ret.
  - intros e. apply emits_bind; [apply emits_emit; apply Hl|]. intros _. apply emits_ret.
Qed.

Lemma tagServiceImages_emits (images : list builtImage) :
  emits isTag (tagServiceImages E images).
Proof.
  unfold tagServiceImages. apply emits_promiseMapThrowing.
  intros d w chain. unfold tagServiceImage.
  destruct (serviceImages w !! serviceName d) as [serviceImage|]; [|discriminate].
  destruct (parseImageName _) as [[[registry repo] tag]|]; [|discriminate].
  intros [= <-]. repeat emits_step.
Qed.

Lemma emits_weaken (P P' : event -> Prop) {A} (m : M world A) :
  (forall e, P e -> P' e) -> emits P m -> emits P' m.
Proof.
  intros Himp Hm w. destruct (Hm w) as (tail & H & F). exists tail. split; [exact H|].
  eapply Forall_impl; [exact F|]. exact Himp.
Qed.

(** The stage between tagging and untagging. *)
Lemma stage_emits (P : event -> Prop) (tagged : list taggedImage) (skipLogUpload : bool) :
  P QueryPreviousRelease -> (forall name, P (RegistryAndName name)) ->
  (forall msg, P (Log msg)) -> (forall registry scope, P (RequestToken registry scope)) ->
  (forall name, P (Inspect name)) ->
  (forall index name attempt, P (Push index name attempt)) ->
  (forall label ms, P (Delay label ms)) ->
  (forall index, P (Callback index)) ->
  (forall img, emits P (saveImage E skipLogUpload img)) ->
  emits P (previousRepos <- getPreviousRepos E ;;
           token <- match tagged with
                    | [] => throw "TypeError: Cannot read property 'registry' of undefined"
                    | first :: _ =>
                        authorizePush E (registry first) (map repo tagged) previousRepos
                    end ;;
           emit (Log "Pushing images to registry...") ;;;
           pushAndUpdateServiceImages E token tagged (Some (saveImage E skipLogUpload)) ;;;
           ret tt)%M.
Proof.
  intros Hq Hr Hl Ht Hi Hp Hd Hc Hs.
  apply emits_bind; [apply getPreviousRepos_emits; auto|]. intros previousRepos.
  apply emits_bind.
  { destruct tagged; [apply emits_throw|]. unfold authorizePush.
    apply emits_catch; [|intros; apply emits_ret].
    apply emits_bind; [apply emits_emit; apply Ht|]. intros _. apply emits_lift. }
  intros token. apply emits_bind; [apply emits_emit; apply Hl|]. intros _.
  apply emits_bind; [apply pushAndUpdateServiceImages_emits; auto|].
  intros _. apply emits_ret.
Qed.

Lemma untag_emits (P : event -> Prop) (tagged : list taggedImage) :
  (forall msg, P (Log msg)) -> (forall name, P (Remove name)) ->
  emits P (emit (Log "Untagging images...") ;;;
           promiseMap (fun _ img =>
                         emit (Remove (localImage img)) ;;;
                         lift (removeResult E (localImage img))) 0 tagged ;;;
           ret tt)%M.
Proof.
  intros Hl Hr.
  apply emits_bind; [apply emits_emit; apply Hl|]. intros _.
  apply emits_bind; [|intros; apply emits_ret].
  apply emits_promiseMap. intros _ img.
  apply emits_bind; [apply emits_emit; apply Hr|]. intros _. apply emits_lift.
Qed.

Lemma saveRelease_emits (P : event -> Prop) :
  (forall id r, P (UpdateRelease id r)) -> emits P (saveRelease E).
Proof.
  intros Hu. unfold saveRelease.
  apply emits_bind; [apply emits_setRelease|]. intros _.
  apply emits_bind; [apply emits_gets|]. intros r.
  destruct (isNullish (field r "id")); [apply emits_ret|].
  apply emits_bind; [apply emits_emit; apply Hu|]. intros _. apply emits_lift.
Qed.

Lemma createRelease_emits (P : event -> Prop) : emits P (createRelease E).
Proof.
  unfold createRelease. apply emits_bind; [apply emits_lift|]. intros r.
  apply emits_still. reflexivity.
Qed.

(** X22: with [skipLogUpload] no build log leaves the machine.  Whatever
    the images and whatever the daemon, the registry and the backend
    answer, every record of a service image that a deploy sends to the
    backend is sent without its [build_log]. *)
Theorem deployProject_skips_logs (images : list builtImage) (w : world) :
  exists tail,
    trace (snd (deployProject E images true w)) = (trace w ++ tail)%list /\
    forall id record, UpdateImage id record ∈ tail -> record !! "build_log" = None.
Proof.
  assert (H : emits withoutLog (deployProject E images true)).
  { unfold deployProject.
    apply emits_bind; [apply createRelease_emits|]. intros _.
    apply emits_bind; [|intros; apply emits_gets].
    apply emits_finally; [|apply saveRelease_emits; intros; exact I].
    apply emits_tapCatch; [|intros; apply emits_setRelease].
    apply emits_bind; [|intros; apply emits_setRelease].
    unfold tagAndPush. apply emits_tap.
    - eapply emits_weaken; [|apply tagServiceImages_emits].
      intros []; cbn; auto; contradiction.
    - intros tagged. apply emits_finally.
      + apply stage_emits; try (intros; exact I). apply saveImage_withoutLog.
      + apply untag_emits; intros; exact I. }
  destruct (H w) as (tail & Htrace & Hall). exists tail. split; [exact Htrace|].
  intros id record Hin. rewrite Forall_forall in Hall. exact (Hall _ Hin).
Qed.

(** *** Tags *)

Lemma removals_app (t u : list event) :
  removals (t ++ u) = (removals t ++ removals u)%list.
Proof. unfold removals. apply omap_app. Qed.

Lemma removals_none (tail : list event) : Forall keepsTags tail -> removals tail = [].
Proof.
  induction 1 as [|e tail He _ IH]; [reflexivity|].
  destruct e; cbn in He |- *; try exact IH. contradiction.
Qed.

Lemma finally_snd {A} (m : M world A) (h : M world unit) (w : world) :
  snd (finally m h w) = snd (h (snd (m w))).
Proof.
  unfold finally. destruct (m w) as [r w1]. cbn [snd].
  destruct (h w1) as [[u|e] w2]; reflexivity.
Qed.

Lemma bind_ret_snd {A B} (m : M world A) (b : B) (w : world) :
  snd (bind m (fun _ => ret b) w) = snd (m w).
Proof. unfold bind, ret. destruct (m w) as [[a|e] w1]; reflexivity. Qed.

Lemma untag_trace (tagged : list taggedImage) (w : world) :
  trace (snd ((emit (Log "Untagging images...") ;;;
               promiseMap (fun _ img =>
                             emit (Remove (localImage img)) ;;;
                             lift (removeResult E (localImage img))) 0 tagged ;;;
               ret tt)%M w))
  = (trace w ++ Log "Untagging images..."
             :: map (fun img => Remove (localImage img)) tagged)%list.
Proof.
  assert (Hmap : forall (i : nat) (w0 : world),
             trace (snd (promiseMap (fun _ img =>
                                       emit (Remove (localImage img)) ;;;
                                       lift (removeResult E (localImage img)))%M
                                    i tagged w0))
             = (trace w0 ++ map (fun img => Remove (localImage img)) tagged)%list).
  { induction tagged as [|img rest IH]; intros i w0; cbn [promiseMap map].
    - cbn. rewrite app_nil_r. reflexivity.
    - unfold bind at 1, emit at 1, modify at 1, lift at 1.
      match goal with |- context [promiseMap ?f (S i) rest ?w1] =>
        specialize (IH (S i) w1); destruct (promiseMap f (S i) rest w1) as [rr w2]
      end.
      destruct (removeResult E (localImage img)) as [u|e];
        cbn [snd trace] in *; rewrite IH, <- app_assoc; reflexivity. }
  unfold bind at 1, emit at 1, modify at 1. unfold bind at 1.
  match goal with |- context [promiseMap ?f ?i tagged ?w1] =>
    specialize (Hmap i w1); destruct (promiseMap f i tagged w1) as [[us|e] w2]
  end; unfold ret; cbn [snd trace] in *; rewrite Hmap, <- app_assoc; reflexivity.
Qed.

Lemma removals_tags (tagged : list taggedImage) :
  removals (map (fun img => Remove (localImage img)) tagged) = map localImage tagged.
Proof. induction tagged as [|img rest IH]; cbn; [reflexivity|]. f_equal. exact IH. Qed.

(** X23: the local tags are removed whatever the push did.  Once every
    image is tagged, the stage ends by asking the daemon to remove each of
    the tags it made, once and in order, whether the pushes, the updates
    or the removals before it succeeded or failed; nothing else in the
    stage removes a tag. *)
Theorem tagAndPush_untags
    (images : list builtImage) (skipLogUpload : bool) (w w1 : world)
    (tagged : list taggedImage) :
  tagServiceImages E images w = (Ok tagged, w1) ->
  removals (trace (snd (tagAndPush E images skipLogUpload w)))
  = (removals (trace w) ++ map localImage tagged)%list /\
  length tagged = length images.
Proof.
  intros Htag. split; [|eapply tagServiceImages_length; exact Htag].
  destruct (tagServiceImages_emits images w) as (tail0 & H0 & F0).
  rewrite Htag in H0. cbn [snd] in H0.
  unfold tagAndPush, tap. unfold bind at 1. rewrite Htag.
  rewrite bind_ret_snd, finally_snd, untag_trace.
  match goal with
  | |- context [snd (?st w1)] =>
      assert (Hst : emits keepsTags st)
        by (apply stage_emits; try (intros; exact I);
            intros img; unfold saveImage; repeat emits_step);
      destruct (Hst w1) as (tail1 & H1 & F1)
  end.
  rewrite H1, H0.
  change (Log "Untagging images..." :: map (fun img => Remove (localImage img)) tagged)
    with ([Log "Untagging images..."] ++ map (fun img => Remove (localImage img)) tagged)%list.
  rewrite !removals_app, (removals_none tail1 F1).
  rewrite (removals_none tail0)
    by (eapply Forall_impl; [exact F0|]; intros []; cbn; auto).
  rewrite removals_tags, !app_nil_r. reflexivity.
Qed.

(** X24: a tagging that fails ends the stage at once.  When one image
    cannot be tagged, nothing is authorized, pushed, recorded or
    untagged: the stage fails with the error of the tagging, and all it
    has asked of the daemon are the tags, which stay. *)
Theorem tagAndPush_tagging_fails
    (images : list builtImage) (skipLogUpload : bool) (w w1 : world) (e : string) :
  tagServiceImages E images w = (Throw e, w1) ->
  tagAndPush E images skipLogUpload w = (Throw e, w1) /\
  release w1 = release w /\
  exists tail, trace w1 = (trace w ++ tail)%list /\ Forall isTag tail.
Proof.
  intros Htag. split; [|split].
  - unfold tagAndPush, tap. unfold bind at 1. rewrite Htag. reflexivity.
  - destruct (quiet_tagServiceImages E images w) as [H _]. rewrite Htag in H. exact H.
  - destruct (tagServiceImages_emits images w) as (tail & H & F).
    rewrite Htag in H. eauto.
Qed.

(** *** The outcome of a deploy *)

(** What a deploy returns, given what the stage did. *)
Lemma deployProject_fst
    (images : list builtImage) (skipLogUpload : bool) (w : world)
    (rel : gmap string jsval) (imgs : gmap string (gmap string jsval))
    (r : res (list taggedImage)) (w1 : world) :
  created E = Ok (rel, imgs) ->
  tagAndPush E images skipLogUpload
    (mkWorld (omit ["created_at"; "is_a_build_of__service"; "__metadata"] <$> imgs)
             (omit ["created_at"; "belongs_to__application"; "is_created_by__user";
                    "__metadata"] rel)
             (trace w)) = (r, w1) ->
  release w1 = omit ["created_at"; "belongs_to__application"; "is_created_by__user";
                     "__metadata"] rel ->
  fst (deployProject E images skipLogUpload w)
  = let final :=
      <["end_timestamp" := VDate (now E)]>
        (<["status" := VStr (if is_ok r then "success" else "failed")]>
           (omit ["created_at"; "belongs_to__application"; "is_created_by__user";
                  "__metadata"] rel)) in
    match (if isNullish (field final "id") then Ok tt
           else updateReleaseResult E (field final "id") final) with
    | Throw e => Throw e
    | Ok _ => match r with
              | Ok _ => Ok final
              | Throw e => Throw e
              end
    end.
Proof.
  intros Hcreated Hstage Hrel.
  unfold deployProject, createRelease.
  unfold bind at 1. unfold bind at 1. unfold lift at 1. rewrite Hcreated.
  unfold modify at 1. cbn [fst snd].
  unfold bind at 1. unfold finally, tapCatch. unfold bind at 1.
  rewrite Hstage.
  unfold saveRelease, setRelease, bind, modify, gets, emit, lift, ret.
  destruct r as [tagged|e]; cbn [is_ok fst snd release trace serviceImages];
    rewrite Hrel; cbv zeta;
    match goal with |- context [isNullish ?x] => destruct (isNullish x) end;
    cbn [fst snd release trace serviceImages];
    try match goal with |- context [updateReleaseResult E ?a ?b] =>
          destruct (updateReleaseResult E a b) end;
    cbn [fst snd release trace serviceImages]; reflexivity.
Qed.

(** X25: what a deploy returns.  When the release cannot be created the
    deploy fails with that error and has done nothing.  Otherwise it
    returns the release as it was last stored when the stage fulfilled, and
    fails with the stage's error when the stage failed; but when the last
    update of the release itself fails, that error is the one the caller
    sees, also after a stage that failed. *)
Theorem deployProject_outcome
    (images : list builtImage) (skipLogUpload : bool) (w : world) :
  match created E with
  | Throw e => deployProject E images skipLogUpload w = (Throw e, w)
  | Ok (rel, imgs) =>
      let rel0 := omit ["created_at"; "belongs_to__application"; "is_created_by__user";
                        "__metadata"] rel in
      let w0 := mkWorld (omit ["created_at"; "is_a_build_of__service"; "__metadata"] <$> imgs)
                        rel0 (trace w) in
      let stage := fst (tagAndPush E images skipLogUpload w0) in
      let final :=
        <["end_timestamp" := VDate (now E)]>
          (<["status" := VStr (if is_ok stage then "success" else "failed")]> rel0) in
      let saved := if isNullish (field rel "id") then Ok tt
                   else updateReleaseResult E (field rel "id") final in
      fst (deployProject E images skipLogUpload w)
      = match saved, stage with
        | Throw e, _ => Throw e
        | Ok _, Ok _ => Ok final
        | Ok _, Throw e => Throw e
        end
  end.
Proof.
  destruct (created E) as [[rel imgs]|e] eqn:Hcreated.
  2:{ unfold deployProject, createRelease, bind, lift. rewrite Hcreated. reflexivity. }
  cbv zeta.
  set (rel0 := omit ["created_at"; "belongs_to__application"; "is_created_by__user";
                     "__metadata"] rel).
  set (w0 := mkWorld _ rel0 (trace w)).
  destruct (quiet_tagAndPush E images skipLogUpload w0) as [Hq _].
  rewrite (deployProject_fst images skipLogUpload w rel imgs
             (fst (tagAndPush E images skipLogUpload w0))
             (snd (tagAndPush E images skipLogUpload w0)) Hcreated
             (surjective_pairing _) Hq).
  cbv zeta. fold rel0.
  set (final := <["end_timestamp" := _]> _).
  assert (Hid : field final "id" = field rel "id").
  { unfold final, field. rewrite !lookup_insert_ne by discriminate.
    unfold rel0. rewrite omit_other; [reflexivity|].
    intros Hin. repeat (apply elem_of_cons in Hin as [Hin|Hin]; [discriminate|]).
    apply elem_of_nil in Hin. exact Hin. }
  rewrite Hid.
  destruct (if isNullish (field rel "id") then _ else _); [|reflexivity].
  destruct (fst (tagAndPush E images skipLogUpload w0)); reflexivity.
Qed.

Lemma tap_ret {A} (a : A) (h : A -> M world unit) (w : world) :
  tap (ret a) h w = bind (h a) (fun _ => ret a) w.
Proof. reflexivity. Qed.

(** Without images the stage fails before it asks for a token. *)
Lemma tagAndPush_empty (skipLogUpload : bool) (w : world) :
  fst (tagAndPush E [] skipLogUpload w)
  = Throw "TypeError: Cannot read property 'registry' of undefined" /\
  exists tail,
    trace (snd (tagAndPush E [] skipLogUpload w)) = (trace w ++ tail)%list /\
    Forall bookkeeping tail.
Proof.
  unfold tagAndPush, tagServiceImages, promiseMapThrowing. cbn [startAll promiseMap].
  change (fun w0 : world => let '(r, w') := ret (W := world) (@nil taggedImage) w0 in (r, w'))
    with (ret (W := world) (@nil taggedImage)).
  rewrite tap_ret. split.
  - unfold bind at 1. unfold finally. unfold bind at 1.
    destruct (getPreviousRepos_ok w) as (repos & Hr & _).
    destruct (getPreviousRepos E w) as [[repos'|e] wa]; cbn [fst] in Hr; [|discriminate].
    unfold bind at 1, throw at 1.
    unfold bind, emit, modify, ret. cbn [promiseMap fst snd]. reflexivity.
  - match goal with |- context [bind ?m ?k w] =>
      assert (Hm : emits bookkeeping (bind m k)); [|exact (Hm w)]
    end.
    apply emits_bind; [|intros; apply emits_ret].
    apply emits_finally.
    + apply emits_bind; [apply getPreviousRepos_emits; intros; exact I|].
      intros previous. apply emits_bind; [apply emits_throw|]. intros token.
      apply emits_bind; [apply emits_emit; exact I|]. intros _.
      apply emits_bind; [|intros; apply emits_ret].
      unfold pushAndUpdateServiceImages. cbn [promiseMap]. apply emits_ret.
    + apply emits_bind; [apply emits_emit; exact I|]. intros _.
      cbn [promiseMap]. apply emits_bind; [apply emits_ret|]. intros; apply emits_ret.
Qed.

(** X26: a deploy without images.  With an empty list of images the
    stage fails on the registry of the first image, which there is not,
    after the look-up of the previous release and before any token is
    requested: the daemon and the registry are asked for nothing, the
    release is marked failed, and the deploy fails. *)
Theorem deployProject_no_images
    (skipLogUpload : bool) (w : world)
    (rel : gmap string jsval) (imgs : gmap string (gmap string jsval)) :
  created E = Ok (rel, imgs) ->
  let w' := snd (deployProject E [] skipLogUpload w) in
  is_ok (fst (deployProject E [] skipLogUpload w)) = false /\
  release w' !! "status" = Some (VStr "failed") /\
  exists tail, trace w' = (trace w ++ tail)%list /\ Forall bookkeeping tail.
Proof.
  intros Hcreated. cbv zeta.
  set (rel0 := omit ["created_at"; "belongs_to__application"; "is_created_by__user";
                     "__metadata"] rel).
  set (w0 := mkWorld (omit ["created_at"; "is_a_build_of__service"; "__metadata"] <$> imgs)
                     rel0 (trace w)).
  destruct (quiet_tagAndPush E [] skipLogUpload w0) as [Hq _].
  destruct (tagAndPush_empty skipLogUpload w0) as (Hfst & tail & Htrace & Hall).
  pose proof (deployProject_fst [] skipLogUpload w rel imgs _ _ Hcreated
                (surjective_pairing _) Hq) as Hout.
  pose proof (deployProject_run E [] skipLogUpload w rel imgs _ _ Hcreated
                (surjective_pairing _) Hq) as Hrun.
  fold rel0 in Hout, Hrun. fold w0 in Hout, Hrun.
  rewrite Hfst in Hout, Hrun. cbv zeta in Hout, Hrun. cbn [is_ok] in Hout, Hrun.
  rewrite Hout, Hrun. cbn [release trace]. split; [|split].
  - destruct (if isNullish _ then _ else _); reflexivity.
  - rewrite lookup_insert_ne by discriminate. apply lookup_insert_eq.
  - rewrite Htrace. cbn [trace w0].
    eexists. rewrite <- app_assoc. split; [reflexivity|].
    apply Forall_app. split; [exact Hall|].
    destruct (isNullish _); repeat constructor.
Qed.

(** X30: the push stage keeps to its images.  For tagged images with
    distinct service names whose records exist, [pushAndUpdateServiceImages]
    changes no record of a service that is not among them, drops no
    record, and leaves the release as it is. *)
Theorem pushAndUpdateServiceImages_frame
    (skipLogUpload : bool) (token : jsval) (images : list taggedImage) (w : world) :
  NoDup (t_serviceName <$> images) ->
  (forall img, img ∈ images -> is_Some (serviceImages w !! t_serviceName img)) ->
  let w' := snd (pushAndUpdateServiceImages E token images
                   (Some (saveImage E skipLogUpload)) w) in
  (forall s, s ∉ t_serviceName <$> images -> serviceImages w' !! s = serviceImages w !! s) /\
  (forall s, is_Some (serviceImages w !! s) -> is_Some (serviceImages w' !! s)) /\
  release w' = release w.
Proof.
  intros Hnd Hin. cbv zeta.
  destruct (pushAll_run E skipLogUpload images 0 w Hnd Hin) as (_ & Hother & Hkeep & _).
  destruct (quiet_pushAndUpdateServiceImages E token images skipLogUpload w) as [Hrel _].
  split; [exact Hother|]. split; [exact Hkeep|exact Hrel].
Qed.

(** *** A deploy that succeeds *)

Lemma failuresBefore_ok (results : nat -> res string) :
  (exists n, (n <= 3)%nat /\ is_ok (results n) = true) ->
  is_ok (results (failuresBefore results)) = true.
Proof.
  intros (n & Hn & Hok). unfold failuresBefore.
  destruct (is_ok (results 0%nat)) eqn:H0; [exact H0|].
  destruct (is_ok (results 1%nat)) eqn:H1; [exact H1|].
  destruct (is_ok (results 2%nat)) eqn:H2; [exact H2|].
  destruct n as [|[|[|[|n]]]]; try congruence. lia.
Qed.

(** The chain of an image fulfils when its inspection, one of its push
    attempts and the update of its record do. *)
Lemma chain_fulfils (skipLogUpload : bool) (index : nat) (img : taggedImage) (w : world) :
  is_ok (inspectSize E (localImage img)) = true ->
  (exists n, (n <= 3)%nat /\ is_ok (pushResult E index n) = true) ->
  (forall id record, is_ok (updateImageResult E id record) = true) ->
  is_ok (fst (pushAndUpdateServiceImage E (Some (saveImage E skipLogUpload)) index img w))
  = true.
Proof.
  intros Hi Hp Hu. apply failuresBefore_ok in Hp.
  unfold pushAndUpdateServiceImage, finally, tapCatch, promiseJoin.
  unfold bind at 1. unfold emit at 1. unfold modify at 1. unfold lift at 1.
  cbn [fst snd serviceImages release trace].
  rewrite retry_push_run. cbn [fst snd serviceImages release trace].
  destruct (inspectSize E (localImage img)) as [size|e1]; [|discriminate].
  destruct (pushResult E index _) as [digest|e2]; [|discriminate].
  match goal with |- context [recordSuccess E img size digest ?w1] =>
    destruct (recordSuccess_run E img size digest w1) as (f1 & -> & _) end.
  unfold bind at 1. unfold emit at 1. unfold modify at 1.
  cbn [fst snd serviceImages release trace].
  match goal with |- context [saveImage E skipLogUpload img ?w2] =>
    destruct (saveImage_run E skipLogUpload img w2) as (f2 & msg & Hrun & _) end.
  cbv zeta in Hrun. rewrite Hrun.
  match goal with |- context [updateImageResult E ?a ?b] =>
    specialize (Hu a b); destruct (updateImageResult E a b) end;
    [reflexivity|discriminate].
Qed.

Lemma chains_fulfil (skipLogUpload : bool) (images : list taggedImage) :
  forall (i0 : nat) (w : world),
    (forall name, is_ok (inspectSize E name) = true) ->
    (forall j, (j < length images)%nat ->
               exists n, (n <= 3)%nat /\ is_ok (pushResult E (i0 + j) n) = true) ->
    (forall id record, is_ok (updateImageResult E id record) = true) ->
    is_ok (fst (promiseMap (pushAndUpdateServiceImage E (Some (saveImage E skipLogUpload)))
                           i0 images w)) = true.
Proof.
  induction images as [|img rest IH]; intros i0 w Hi Hp Hu; [reflexivity|].
  cbn [promiseMap].
  pose proof (chain_fulfils skipLogUpload i0 img w (Hi _)) as Hc.
  destruct (pushAndUpdateServiceImage E _ i0 img w) as [ra w1].
  specialize (IH (S i0) w1 Hi).
  destruct (promiseMap _ (S i0) rest w1) as [rr w2].
  cbn [fst] in *.
  assert (Ha : is_ok ra = true).
  { apply Hc; [|exact Hu]. specialize (Hp 0%nat ltac:(cbn; lia)).
    rewrite Nat.add_0_r in Hp. exact Hp. }
  assert (Hr : is_ok rr = true).
  { apply IH; [|exact Hu]. intros j Hj. specialize (Hp (S j) ltac:(cbn; lia)).
    replace (S i0 + j)%nat with (i0 + S j)%nat by lia. exact Hp. }
  destruct ra, rr; try discriminate; reflexivity.
Qed.

Lemma untag_fulfils (tagged : list taggedImage) (w : world) :
  (forall name, is_ok (removeResult E name) = true) ->
  fst ((emit (Log "Untagging images...") ;;;
        promiseMap (fun _ img =>
                      emit (Remove (localImage img)) ;;;
                      lift (removeResult E (localImage img))) 0 tagged ;;;
        ret tt)%M w) = Ok tt.
Proof.
  intros Hr.
  assert (Hmap : forall (i : nat) (w0 : world),
             is_ok (fst (promiseMap (fun _ img =>
                                       emit (Remove (localImage img)) ;;;
                                       lift (removeResult E (localImage img)))%M
                                    i tagged w0)) = true).
  { induction tagged as [|img rest IH]; intros i w0; cbn [promiseMap]; [reflexivity|].
    unfold bind at 1, emit at 1, modify at 1, lift at 1.
    match goal with |- context [promiseMap ?f (S i) rest ?w1] =>
      specialize (IH (S i) w1); destruct (promiseMap f (S i) rest w1) as [rr w2]
    end.
    specialize (Hr (localImage img)).
    destruct (removeResult E (localImage img)); [|discriminate].
    cbn [fst] in *. destruct rr; [reflexivity|discriminate]. }
  unfold bind at 1, emit at 1, modify at 1. unfold bind at 1.
  match goal with |- context [promiseMap ?f ?i tagged ?w1] =>
    specialize (Hmap i w1); destruct (promiseMap f i tagged w1) as [[us|e] w2]
  end; [reflexivity|discriminate].
Qed.

(** The stage fulfils when everything it asks for is granted. *)
Lemma tagAndPush_fulfils (images : list builtImage) (skipLogUpload : bool) (w : world) :
  images <> [] ->
  is_ok (fst (tagServiceImages E images w)) = true ->
  (forall name, is_ok (inspectSize E name) = true) ->
  (forall j, (j < length images)%nat ->
             exists n, (n <= 3)%nat /\ is_ok (pushResult E j n) = true) ->
  (forall id record, is_ok (updateImageResult E id record) = true) ->
  (forall name, is_ok (removeResult E name) = true) ->
  is_ok (fst (tagAndPush E images skipLogUpload w)) = true.
Proof.
  intros Hne Htag Hi Hp Hu Hr.
  destruct (tagServiceImages E images w) as [[tagged|e] w1] eqn:Hrun; [|discriminate].
  assert (Hlen : length tagged = length images)
    by (eapply tagServiceImages_length; exact Hrun).
  unfold tagAndPush, tap. unfold bind at 1. rewrite Hrun. unfold bind at 1.
  unfold finally.
  match goal with |- context [?st w1] =>
    match st with
    | bind (getPreviousRepos E) _ =>
        assert (Hst : is_ok (fst (st w1)) = true); [|destruct (st w1) as [[u|e] w2];
                                                    [|discriminate]]
    end
  end.
  { unfold bind at 1.
    destruct (getPreviousRepos_ok w1) as (repos & Hrepos & _).
    destruct (getPreviousRepos E w1) as [[repos'|e] wa]; cbn [fst] in Hrepos; [|discriminate].
    destruct tagged as [|first rest].
    { destruct images; [contradiction|discriminate]. }
    unfold bind at 1. rewrite authorizePush_run.
    unfold bind at 1, emit at 1, modify at 1. unfold bind at 1.
    unfold pushAndUpdateServiceImages.
    match goal with |- context [promiseMap ?f 0%nat ?l ?w3] =>
      pose proof (chains_fulfil skipLogUpload l 0%nat w3 Hi) as Hc;
      destruct (promiseMap f 0%nat l w3) as [[us|e] w4]
    end; [reflexivity|].
    cbn [fst] in Hc. apply Hc; [|exact Hu].
    intros j Hj. rewrite Hlen in Hj. exact (Hp j Hj). }
  rewrite (surjective_pairing (_ w2)), untag_fulfils by exact Hr. reflexivity.
Qed.

(** X27: a deploy that succeeds.  Let the release be created, the list
    of images not be empty and every image be tagged; let the daemon report
    the size of every image and remove every tag, the registry take every
    image in at most four attempts, and the backend store every record and
    the release.  Then the deploy returns the release, stored with the
    status [success] and its end time. *)
Theorem deployProject_succeeds
    (images : list builtImage) (skipLogUpload : bool) (w : world)
    (rel : gmap string jsval) (imgs : gmap string (gmap string jsval)) :
  created E = Ok (rel, imgs) ->
  images <> [] ->
  is_ok (fst (tagServiceImages E images (snd (createRelease E w)))) = true ->
  (forall name, is_ok (inspectSize E name) = true) ->
  (forall j, (j < length images)%nat ->
             exists n, (n <= 3)%nat /\ is_ok (pushResult E j n) = true) ->
  (forall id record, is_ok (updateImageResult E id record) = true) ->
  (forall name, is_ok (removeResult E name) = true) ->
  (forall id record, is_ok (updateReleaseResult E id record) = true) ->
  exists final,
    fst (deployProject E images skipLogUpload w) = Ok final /\
    release (snd (deployProject E images skipLogUpload w)) = final /\
    final !! "status" = Some (VStr "success") /\
    final !! "end_timestamp" = Some (VDate (now E)).
Proof.
  intros Hcreated Hne Htag Hi Hp Hu Hr Hs.
  set (rel0 := omit ["created_at"; "belongs_to__application"; "is_created_by__user";
                     "__metadata"] rel).
  set (w0 := mkWorld (omit ["created_at"; "is_a_build_of__service"; "__metadata"] <$> imgs)
                     rel0 (trace w)).
  assert (Hw0 : snd (createRelease E w) = w0).
  { unfold createRelease, bind, lift, modify. rewrite Hcreated. reflexivity. }
  rewrite Hw0 in Htag.
  pose proof (tagAndPush_fulfils images skipLogUpload w0 Hne Htag Hi Hp Hu Hr) as Hok.
  destruct (quiet_tagAndPush E images skipLogUpload w0) as [Hq _].
  pose proof (deployProject_fst images skipLogUpload w rel imgs _ _ Hcreated
                (surjective_pairing _) Hq) as Hout.
  pose proof (deployProject_run E images skipLogUpload w rel imgs _ _ Hcreated
                (surjective_pairing _) Hq) as Hrun.
  fold rel0 in Hout, Hrun. fold w0 in Hout, Hrun.
  rewrite Hok in Hout, Hrun. cbv zeta in Hout, Hrun.
  set (final := <["end_timestamp" := VDate (now E)]> (<["status" := VStr "success"]> rel0))
    in *.
  exists final. rewrite Hout, Hrun. cbn [release]. split; [|split; [reflexivity|split]].
  - destruct (fst (tagAndPush E images skipLogUpload w0)); [|discriminate].
    destruct (isNullish (field final "id")); [reflexivity|].
    specialize (Hs (field final "id") final).
    destruct (updateReleaseResult E (field final "id") final); [reflexivity|discriminate].
  - unfold final. rewrite lookup_insert_ne by discriminate. apply lookup_insert_eq.
  - unfold final. apply lookup_insert_eq.
Qed.

End DeployMore.

(** The theorem on a daemon that refuses to remove the tags: both
    removals are asked for. *)
Lemma tagAndPush_untags_witness :
  Deploy.tagServiceImages stuckTags twoBuilt released
  = (Ok twoTagged, snd (Deploy.tagServiceImages stuckTags twoBuilt released)) /\
  removals (Deploy.trace (snd (Deploy.tagAndPush stuckTags twoBuilt false released)))
  = ["registry.example/v2/db:latest"; "registry.example/v2/web:latest"].
Proof.
  assert (Hrun : Deploy.tagServiceImages stuckTags twoBuilt released
                 = (Ok twoTagged, snd (Deploy.tagServiceImages stuckTags twoBuilt released)))
    by (vm_compute; reflexivity).
  split; [exact Hrun|].
  destruct (tagAndPush_untags stuckTags twoBuilt false released _ twoTagged Hrun) as [H _].
  etransitivity; [exact H|]. vm_compute. reflexivity.
Defined.

(** The theorem on a daemon that cannot be reached: the stage fails with
    the error of the tagging. *)
Lemma tagAndPush_tagging_fails_witness :
  Deploy.tagAndPush noDaemon twoBuilt false released
  = (Throw "Error: connect ENOENT /var/run/docker.sock",
     snd (Deploy.tagServiceImages noDaemon twoBuilt released)).
Proof.
  apply (tagAndPush_tagging_fails noDaemon twoBuilt false released).
  vm_compute. reflexivity.
Defined.

(** The theorem on a backend that creates the release. *)
Lemma deployProject_no_images_witness :
  is_ok (fst (Deploy.deployProject flakyRegistry [] false blank)) = false /\
  Deploy.release (snd (Deploy.deployProject flakyRegistry [] false blank)) !! "status"
  = Some (JS.VStr "failed").
Proof.
  destruct (deployProject_no_images flakyRegistry false blank _ _ eq_refl) as (H1 & H2 & _).
  split; [exact H1|exact H2].
Defined.

(** The theorem on a renderer for one service whose image was built. *)
Lemma inline_end_build_summary_witness :
  Renderer.out
    (snd (Renderer.BuildProgressInline.end_ plainLibs
            (Some (Build.summary (fun _ => "1 kB") [webImage]))
            (Renderer.BuildProgressInline.new ["web"]) idleHost))
  = [ Renderer.Write "web          "; Renderer.Write "Waiting...";
      Renderer.Write (String JS.newline "");
      Renderer.Write ("Built 1 service in unknown time" +:+ String JS.newline "") ].
Proof.
  rewrite (inline_end_build_summary plainLibs (fun _ => "1 kB") [webImage]
             (Renderer.BuildProgressInline.new ["web"]) idleHost eq_refl).
  - vm_compute. reflexivity.
  - intros service Hs. exact Hs.
Defined.

(** The theorem on two services whose images are taken at once. *)
Lemma deployProject_succeeds_witness :
  exists final,
    fst (Deploy.deployProject obliging twoBuilt false blank) = Ok final /\
    final !! "status" = Some (JS.VStr "success").
Proof.
  destruct (deployProject_succeeds obliging twoBuilt false blank _ _ eq_refl
              ltac:(discriminate) ltac:(vm_compute; reflexivity)
              (fun _ => eq_refl)
              (fun _ _ => ex_intro _ 0%nat (conj (Nat.le_0_l 3) eq_refl))
              (fun _ _ => eq_refl) (fun _ => eq_refl) (fun _ _ => eq_refl))
    as (final & H1 & _ & H2 & _).
  exists final. split; [exact H1|exact H2].
Defined.

(** The theorem on a service built from its directory, without a tag of
    its own: the image is named after the project and the service. *)
Lemma built_image_name_witness :
  exists descriptors' task' img,
    BuildOptions.configureTask "Proj" (JS.VObj callerOpts) oneService labelledTask
    = Ok (descriptors', task') /\
    Build.describeImage epochDate (fun _ => Ok (JS.VNum 1024)) descriptors' [task'] mainBuilt
    = Ok img /\
    Build.name img = JS.VStr "proj_main" /\
    BuildOptions.tag task' = Some "proj_main".
Proof.
  set (conf := match BuildOptions.configureTask "Proj" (JS.VObj callerOpts) oneService
                       labelledTask with
               | Ok r => r
               | Throw _ => (∅, labelledTask)
               end).
  set (img := match Build.describeImage epochDate (fun _ => Ok (JS.VNum 1024))
                      (fst conf) [snd conf] mainBuilt with
              | Ok i => i
              | Throw _ => Build.mkImage "" JS.VUndefined "" ∅
              end).
  assert (Hc : BuildOptions.configureTask "Proj" (JS.VObj callerOpts) oneService labelledTask
               = Ok (fst conf, snd conf)) by (vm_compute; reflexivity).
  assert (Hd : Build.describeImage epochDate (fun _ => Ok (JS.VNum 1024))
                 (fst conf) [snd conf] mainBuilt = Ok img) by (vm_compute; reflexivity).
  exists (fst conf), (snd conf), img.
  split; [exact Hc|]. split; [exact Hd|].
  pose proof (built_image_name epochDate (fun _ => Ok (JS.VNum 1024)) "Proj"
                (JS.VObj callerOpts) oneService _ labelledTask _ _ mainBuilt img
                Hc eq_refl Hd) as H.
  cbv zeta in H. destruct H as (Ht & _ & Hn).
  split; [exact Hn|exact Ht].
Defined.

(** The theorem on a composition in the directory [My-App]: the service
    that is built is named [my-app_main], the one that is pulled keeps its
    image. *)
Lemma createProject_names_witness :
  exists p,
    Build.createProject (fun _ => Ok (JS.VObj ∅)) parsedServices (fun _ => "My-App")
                        "/src/My-App" "version: '2'" None = Ok p /\
    Build.p_name p = "My-App" /\
    Build.descriptors p
    = [ ("main", BuildOptions.ImageBuild
                   {[ "tag" := JS.VStr "my-app_main"; "context" := JS.VStr "." ]});
        ("db", BuildOptions.ImageName "postgres:12") ].
Proof.
  eexists. split; [reflexivity|].
  destruct (createProject_names (fun _ => Ok (JS.VObj ∅)) parsedServices (fun _ => "My-App")
              "/src/My-App" "version: '2'" None _ eq_refl) as (Hname & _).
  split; [exact Hname|]. vm_compute. reflexivity.
Defined.

(** The theorem on the two services pushed beside a third: the record of
    the third stays as it is. *)
Lemma pushAndUpdateServiceImages_frame_witness :
  Deploy.serviceImages
    (snd (Deploy.pushAndUpdateServiceImages flakyRegistry (JS.VStr "token") twoTagged
            (Some (Deploy.saveImage flakyRegistry false)) threeRecords)) !! "cache"
  = Some {[ "id" := JS.VNum 3; "status" := JS.VStr "running" ]}.
Proof.
  assert (Hnd : NoDup (Deploy.t_serviceName <$> twoTagged)).
  { apply (bool_decide_unpack _). vm_compute. reflexivity. }
  assert (Hin : forall img, img ∈ twoTagged ->
                            is_Some (Deploy.serviceImages threeRecords
                                       !! Deploy.t_serviceName img)).
  { intros img Himg. unfold twoTagged in Himg.
    apply elem_of_cons in Himg as [->|Himg]; [eexists; reflexivity|].
    apply elem_of_cons in Himg as [->|Himg]; [eexists; reflexivity|].
    apply elem_of_nil in Himg. contradiction. }
  destruct (pushAndUpdateServiceImages_frame flakyRegistry false (JS.VStr "token")
              twoTagged threeRecords Hnd Hin) as (Hother & _).
  rewrite Hother; [reflexivity|].
  apply (bool_decide_unpack _). vm_compute. reflexivity.
Defined.

